(** * DAMM PnL tracker: position accounting, suggestions and reporting

    A shallow embedding of [damm-pnl.ts].

    Modelling conventions.
    - A JavaScript [number] is an exact rational extended with [NaN],
      [Infinity] and [-Infinity]: the special values follow IEEE 754, finite
      results are exact.  Rounding, overflow and the sign of zero are not
      part of this type; a statement whose truth depends on them either
      carries the hypothesis that the values it combines are binary64
      values, or is made in module [Double], which evaluates the arithmetic
      lines of the source in binary64 (section Binary64).
    - An optional field ([x?: number]) is an [option]; [undefined] is [None].
    - ISO time stamps are the millisecond counts they denote.
    - The position file is the list of its entries in enumeration order; the
      in-memory [Record<string, Position>] is an association list with the
      update and delete behaviour of a JavaScript object.
    - The clock, the random suffix of fresh identifiers and the SOL price are
      inputs of the functions that read them; for [getSOLPriceUSD] itself
      the inputs are the clock, the two caches and the way the request ends.
    - Console output is not modelled, except the reason text of a suggestion,
      the coloured text of an amount and the kind of error a command stops
      with.  Writing the file does not fail.
    - The calendar days of [showSummary] depend on the local time zone and
      are not modelled. *)

From Stdlib Require Import QArith Qcanon ZArith NArith Bool String Ascii List Lia.
From Stdlib Require Import DecimalString.
From Stdlib Require PrimFloat.
Import ListNotations.

Open Scope string_scope.

(** ** JavaScript numbers *)

Module JS.

Inductive number : Type :=
| Fin (q : Qc)
| PInf
| NInf
| NaN.

Definition of_Z (z : Z) : number := Fin (Q2Qc (inject_Z z)).
Definition of_nat (n : nat) : number := of_Z (Z.of_nat n).
Definition ratio (n : Z) (d : positive) : number := Fin (Q2Qc (n # d)).

Definition zero : number := of_Z 0.

(** Sign tests on finite values, by the numerator of the canonical form. *)
Definition q_pos (q : Qc) : bool := (0 <? Qnum q)%Z.
Definition q_neg (q : Qc) : bool := (Qnum q <? 0)%Z.
Definition q_zero (q : Qc) : bool := (Qnum q =? 0)%Z.

Definition q_ltb (a b : Qc) : bool :=
  (Qnum a * QDen b <? Qnum b * QDen a)%Z.
Definition q_leb (a b : Qc) : bool :=
  (Qnum a * QDen b <=? Qnum b * QDen a)%Z.

Definition isNaN (x : number) : bool :=
  match x with NaN => true | _ => false end.

Definition isFinite (x : number) : bool :=
  match x with Fin _ => true | _ => false end.

Definition neg (x : number) : number :=
  match x with
  | Fin q => Fin (- q)%Qc
  | PInf => NInf
  | NInf => PInf
  | NaN => NaN
  end.

Definition add (x y : number) : number :=
  match x, y with
  | NaN, _ | _, NaN => NaN
  | Fin a, Fin b => Fin (a + b)%Qc
  | PInf, NInf | NInf, PInf => NaN
  | PInf, _ | _, PInf => PInf
  | NInf, _ | _, NInf => NInf
  end.

Definition sub (x y : number) : number := add x (neg y).

(** The infinity with the sign of a finite factor, [NaN] for zero. *)
Definition signed_inf (positive_inf : bool) (q : Qc) : number :=
  if q_zero q then NaN
  else if Bool.eqb positive_inf (q_pos q) then PInf else NInf.

Definition mul (x y : number) : number :=
  match x, y with
  | NaN, _ | _, NaN => NaN
  | Fin a, Fin b => Fin (a * b)%Qc
  | Fin a, PInf | PInf, Fin a => signed_inf true a
  | Fin a, NInf | NInf, Fin a => signed_inf false a
  | PInf, PInf | NInf, NInf => PInf
  | PInf, NInf | NInf, PInf => NInf
  end.

Definition div (x y : number) : number :=
  match x, y with
  | NaN, _ | _, NaN => NaN
  | Fin a, Fin b =>
      if q_zero b then signed_inf true a else Fin (a / b)%Qc
  | Fin _, _ => zero
  | PInf, Fin b => if q_neg b then NInf else PInf
  | NInf, Fin b => if q_neg b then PInf else NInf
  | _, _ => NaN
  end.

Definition abs (x : number) : number :=
  match x with
  | Fin q => if q_neg q then Fin (- q)%Qc else Fin q
  | PInf | NInf => PInf
  | NaN => NaN
  end.

(** [x < y]; every comparison with [NaN] is false. *)
Definition ltb (x y : number) : bool :=
  match x, y with
  | NaN, _ | _, NaN => false
  | Fin a, Fin b => q_ltb a b
  | _, NInf => false
  | NInf, _ => true
  | PInf, _ => false
  | _, PInf => true
  end.

(** [x <= y] *)
Definition leb (x y : number) : bool :=
  match x, y with
  | NaN, _ | _, NaN => false
  | Fin a, Fin b => q_leb a b
  | NInf, _ => true
  | _, PInf => true
  | _, NInf => false
  | PInf, _ => false
  end.

Definition gtb (x y : number) : bool := ltb y x.
Definition geb (x y : number) : bool := leb y x.

(** Truthiness of a number: [0] and [NaN] are falsy. *)
Definition truthy (x : number) : bool :=
  match x with
  | Fin q => negb (q_zero q)
  | PInf | NInf => true
  | NaN => false
  end.

(** [x || 0] for an optional numeric field. *)
Definition orZero (x : option number) : number :=
  match x with
  | Some v => if truthy v then v else zero
  | None => zero
  end.

(** [x || y] for two optional numeric fields. *)
Definition or_field (x y : option number) : option number :=
  match x with
  | Some v => if truthy v then x else y
  | None => y
  end.

(** Truthiness of an optional boolean field ([is_closed]). *)
Definition flag (b : option bool) : bool :=
  match b with Some true => true | _ => false end.

(** *** Strings *)

Definition lower_ascii (c : ascii) : ascii :=
  let n := nat_of_ascii c in
  if (65 <=? n)%nat && (n <=? 90)%nat then ascii_of_nat (n + 32) else c.

(** [String.prototype.toLowerCase], on the ASCII letters. *)
Fixpoint toLowerCase (s : string) : string :=
  match s with
  | EmptyString => EmptyString
  | String c r => String (lower_ascii c) (toLowerCase r)
  end.

Definition is_ws (c : ascii) : bool :=
  let n := nat_of_ascii c in
  (n =? 32)%nat || ((9 <=? n)%nat && (n <=? 13)%nat).

Fixpoint skip_ws (s : string) : string :=
  match s with
  | String c r => if is_ws c then skip_ws r else s
  | EmptyString => s
  end.

Definition digit_val (c : ascii) : option Z :=
  let n := nat_of_ascii c in
  if (48 <=? n)%nat && (n <=? 57)%nat then Some (Z.of_nat (n - 48)) else None.

(** Reads the longest run of decimal digits: the value accumulated on
    [acc], the number of digits read, and the rest of the string. *)
Fixpoint read_digits (s : string) (acc : Z) (cnt : nat) : Z * nat * string :=
  match s with
  | String c r =>
      match digit_val c with
      | Some d => read_digits r (acc * 10 + d)%Z (S cnt)
      | None => (acc, cnt, s)
      end
  | EmptyString => (acc, cnt, s)
  end.

Definition read_sign (s : string) : bool * string :=
  match s with
  | String "-" r => (true, r)
  | String "+" r => (false, r)
  | _ => (false, s)
  end.

(** The exponent part [e[+-]digits], 0 when there is none. *)
Definition read_exponent (s : string) : Z :=
  match s with
  | String c r =>
      if (Ascii.eqb c "e" || Ascii.eqb c "E")%bool then
        let (sg, r') := read_sign r in
        let '(e, n, _) := read_digits r' 0 0 in
        match n with
        | O => 0%Z
        | S _ => if sg then (- e)%Z else e
        end
      else 0%Z
  | EmptyString => 0%Z
  end.

Definition pow10 (e : Z) : Qc :=
  if (0 <=? e)%Z then Q2Qc (inject_Z (10 ^ e))
  else Q2Qc (1 # Z.to_pos (10 ^ (- e))).

(** [parseFloat]: leading (ASCII) white space is skipped, the longest
    prefix that is a decimal literal is read, and [NaN] is returned when
    there is none.  The result is the exact value of the literal; the code
    has the binary64 value nearest to it, which is 0 for a literal such as
    [1e-400] and [Infinity] for one such as [1e400]. *)
Definition parseFloat (s : string) : number :=
  let (sg, s0) := read_sign (skip_ws s) in
  if String.prefix "Infinity" s0 then (if sg then NInf else PInf)
  else
    let '(ip, ni, s1) := read_digits s0 0 0 in
    let '(m, nf, s2) :=
      match s1 with
      | String "." r => read_digits r ip 0
      | _ => (ip, O, s1)
      end in
    match (ni + nf)%nat with
    | O => NaN
    | S _ =>
        let e := (read_exponent s2 - Z.of_nat nf)%Z in
        let v := (Q2Qc (inject_Z m) * pow10 e)%Qc in
        Fin (if sg then (- v)%Qc else v)
    end.

Fixpoint zeros (n : nat) : string :=
  match n with O => "" | S k => String "0" (zeros k) end.

(** The decimal digits of [n], padded on the left to at least [w] digits. *)
Definition digits (w : nat) (n : Z) : string :=
  let s := NilZero.string_of_uint (N.to_uint (Z.to_N n)) in
  zeros (w - String.length s) ++ s.

(** [Number.prototype.toFixed(d)]: the nearest decimal with [d] places,
    halves rounded away from zero. *)
Definition toFixed (d : nat) (x : number) : string :=
  match x with
  | NaN => "NaN"
  | PInf => "Infinity"
  | NInf => "-Infinity"
  | Fin q =>
      let a := if q_neg q then (- q)%Qc else q in
      let scaled := (a * pow10 (Z.of_nat d))%Qc in
      let n := ((2 * Qnum scaled + QDen scaled) / (2 * QDen scaled))%Z in
      let ds := digits (S d) n in
      let k := (String.length ds - d)%nat in
      (if q_neg q then "-" else "")
        ++ substring 0 k ds
        ++ match d with O => "" | S _ => "." ++ substring k d ds end
  end.

End JS.

Export JS.

(** ** Data model *)

(** A position object.  Every field of the interface [Position] is here;
    [initial_value_usd_field] is the property [initial_value_usd], which an
    entry of an older file can lack, and [initial_value] is the property of
    the oldest schema that [clean] still reads. *)
Record Position : Type := mkPosition {
  id : string;
  token : string;
  initial_value_usd_field : option number;
  fees_claimed_usd : number;
  created_at : Z;
  last_updated : Z;
  capital_additions_usd : option number;
  withdrawn_usd : option number;
  total_invested_usd : option number;
  closed_at : option Z;
  exit_value_usd : option number;
  final_pnl_usd : option number;
  final_pnl_percentage : option number;
  is_closed : option bool;
  initial_value : option number
}.

(** [position.initial_value_usd] where it is read as a number: a missing
    property is [undefined], which gives [NaN] in every sum and quotient,
    [false] in every comparison, and is falsy. *)
Definition initial_value_usd (p : Position) : number :=
  match initial_value_usd_field p with
  | Some v => v
  | None => NaN
  end.

Module Pnl.
Record PnlData : Type := mkPnlData {
  unrealized_pnl_usd : number;
  realized_pnl_usd : number;
  total_pnl_usd : number;
  pnl_percentage : number;
  initial_value_usd : number;
  current_value_usd : number;
  total_invested_usd : number;
  unrealized_pnl_sol : number;
  realized_pnl_sol : number;
  total_pnl_sol : number;
  initial_value_sol : number;
  current_value_sol : number;
  total_invested_sol : number
}.
End Pnl.
Definition PnlData : Type := Pnl.PnlData.

Inductive Action : Type := HOLD | TOP_UP | REDUCE | TAKE_PROFIT | STOP_LOSS.
Inductive Confidence : Type := LOW | MEDIUM | HIGH.

Record Suggestion : Type := mkSuggestion {
  action : Action;
  reason : string;
  confidence : Confidence
}.

(** Suggestion thresholds. *)
Module THRESHOLDS.
Definition TAKE_PROFIT : number := of_Z 25.
Definition STRONG_PROFIT : number := of_Z 15.
Definition MODERATE_PROFIT : number := of_Z 5.
Definition BREAK_EVEN : number := of_Z 0.
Definition MODERATE_LOSS : number := of_Z (-10).
Definition STOP_LOSS : number := of_Z (-20).
Definition HIGH_FEES_RATIO : number := ratio 8 10.
End THRESHOLDS.

(** *** Assignment to the fields of a position *)

Definition set_id (v : string) (p : Position) : Position :=
  mkPosition v (token p) (initial_value_usd_field p) (fees_claimed_usd p)
    (created_at p) (last_updated p) (capital_additions_usd p) (withdrawn_usd p)
    (total_invested_usd p) (closed_at p) (exit_value_usd p) (final_pnl_usd p)
    (final_pnl_percentage p) (is_closed p) (initial_value p).

Definition set_token (v : string) (p : Position) : Position :=
  mkPosition (id p) v (initial_value_usd_field p) (fees_claimed_usd p)
    (created_at p) (last_updated p) (capital_additions_usd p) (withdrawn_usd p)
    (total_invested_usd p) (closed_at p) (exit_value_usd p) (final_pnl_usd p)
    (final_pnl_percentage p) (is_closed p) (initial_value p).

Definition set_fees_claimed_usd (v : number) (p : Position) : Position :=
  mkPosition (id p) (token p) (initial_value_usd_field p) v
    (created_at p) (last_updated p) (capital_additions_usd p) (withdrawn_usd p)
    (total_invested_usd p) (closed_at p) (exit_value_usd p) (final_pnl_usd p)
    (final_pnl_percentage p) (is_closed p) (initial_value p).

Definition set_last_updated (v : Z) (p : Position) : Position :=
  mkPosition (id p) (token p) (initial_value_usd_field p) (fees_claimed_usd p)
    (created_at p) v (capital_additions_usd p) (withdrawn_usd p)
    (total_invested_usd p) (closed_at p) (exit_value_usd p) (final_pnl_usd p)
    (final_pnl_percentage p) (is_closed p) (initial_value p).

Definition set_capital_additions_usd (v : number) (p : Position) : Position :=
  mkPosition (id p) (token p) (initial_value_usd_field p) (fees_claimed_usd p)
    (created_at p) (last_updated p) (Some v) (withdrawn_usd p)
    (total_invested_usd p) (closed_at p) (exit_value_usd p) (final_pnl_usd p)
    (final_pnl_percentage p) (is_closed p) (initial_value p).

Definition set_withdrawn_usd (v : number) (p : Position) : Position :=
  mkPosition (id p) (token p) (initial_value_usd_field p) (fees_claimed_usd p)
    (created_at p) (last_updated p) (capital_additions_usd p) (Some v)
    (total_invested_usd p) (closed_at p) (exit_value_usd p) (final_pnl_usd p)
    (final_pnl_percentage p) (is_closed p) (initial_value p).

Definition set_total_invested_usd (v : number) (p : Position) : Position :=
  mkPosition (id p) (token p) (initial_value_usd_field p) (fees_claimed_usd p)
    (created_at p) (last_updated p) (capital_additions_usd p) (withdrawn_usd p)
    (Some v) (closed_at p) (exit_value_usd p) (final_pnl_usd p)
    (final_pnl_percentage p) (is_closed p) (initial_value p).

Definition set_closed_at (v : Z) (p : Position) : Position :=
  mkPosition (id p) (token p) (initial_value_usd_field p) (fees_claimed_usd p)
    (created_at p) (last_updated p) (capital_additions_usd p) (withdrawn_usd p)
    (total_invested_usd p) (Some v) (exit_value_usd p) (final_pnl_usd p)
    (final_pnl_percentage p) (is_closed p) (initial_value p).

Definition set_exit_value_usd (v : number) (p : Position) : Position :=
  mkPosition (id p) (token p) (initial_value_usd_field p) (fees_claimed_usd p)
    (created_at p) (last_updated p) (capital_additions_usd p) (withdrawn_usd p)
    (total_invested_usd p) (closed_at p) (Some v) (final_pnl_usd p)
    (final_pnl_percentage p) (is_closed p) (initial_value p).

Definition set_final_pnl_usd (v : number) (p : Position) : Position :=
  mkPosition (id p) (token p) (initial_value_usd_field p) (fees_claimed_usd p)
    (created_at p) (last_updated p) (capital_additions_usd p) (withdrawn_usd p)
    (total_invested_usd p) (closed_at p) (exit_value_usd p) (Some v)
    (final_pnl_percentage p) (is_closed p) (initial_value p).

Definition set_final_pnl_percentage (v : number) (p : Position) : Position :=
  mkPosition (id p) (token p) (initial_value_usd_field p) (fees_claimed_usd p)
    (created_at p) (last_updated p) (capital_additions_usd p) (withdrawn_usd p)
    (total_invested_usd p) (closed_at p) (exit_value_usd p) (final_pnl_usd p)
    (Some v) (is_closed p) (initial_value p).

Definition set_is_closed (v : bool) (p : Position) : Position :=
  mkPosition (id p) (token p) (initial_value_usd_field p) (fees_claimed_usd p)
    (created_at p) (last_updated p) (capital_additions_usd p) (withdrawn_usd p)
    (total_invested_usd p) (closed_at p) (exit_value_usd p) (final_pnl_usd p)
    (final_pnl_percentage p) (Some v) (initial_value p).

(** *** Statements over a position object

    A function that receives a position receives a reference to it.  Its
    body is a computation over the object: it reads fields, assigns to
    fields, and returns a value. *)

Definition Obj (A : Type) : Type := Position -> A * Position.

Definition ret {A : Type} (a : A) : Obj A := fun p => (a, p).

Definition bind {A B : Type} (m : Obj A) (k : A -> Obj B) : Obj B :=
  fun p => let (a, p') := m p in k a p'.

Definition read {A : Type} (field : Position -> A) : Obj A :=
  fun p => (field p, p).

Definition assign (setter : Position -> Position) : Obj unit :=
  fun p => (tt, setter p).

Definition when (b : bool) (m : Obj unit) : Obj unit :=
  if b then m else ret tt.

Definition eval {A : Type} (m : Obj A) (p : Position) : A := fst (m p).
Definition exec {A : Type} (m : Obj A) (p : Position) : Position := snd (m p).

Declare Scope obj_scope.
Delimit Scope obj_scope with obj.
Notation "x <- m ;; k" := (bind m (fun x => k))
  (at level 61, m at next level, right associativity) : obj_scope.
Notation "m ;; k" := (bind m (fun _ => k))
  (at level 61, right associativity) : obj_scope.

Definition is_none {A : Type} (o : option A) : bool :=
  match o with None => true | Some _ => false end.

(** ** PnL engine *)

(** [calculatePnl(position, currentValueUSD)]; [solPriceUSD] is the value
    that [getSOLPriceUSD()] returns during the call. *)
Definition calculatePnl (solPriceUSD currentValueUSD : number) : Obj PnlData :=
  (capitalAdditions <- read (fun position => orZero (capital_additions_usd position)) ;;
   withdrawn <- read (fun position => orZero (withdrawn_usd position)) ;;
   initial <- read initial_value_usd ;;
   fees <- read fees_claimed_usd ;;
   let totalInvestedUSD := add initial capitalAdditions in
   let currentlyInvestedUSD := sub totalInvestedUSD withdrawn in
   let totalValueUSD := add (add currentValueUSD withdrawn) fees in
   let totalPnlUSD := sub totalValueUSD totalInvestedUSD in
   let unrealizedPnlUSD := sub currentValueUSD currentlyInvestedUSD in
   let realizedPnlUSD := add withdrawn fees in
   let pnlPercentage :=
     if gtb totalInvestedUSD zero
     then mul (div totalPnlUSD totalInvestedUSD) (of_Z 100)
     else zero in
   let toSOL (usd : number) :=
     if gtb solPriceUSD zero then div usd solPriceUSD else zero in
   ret (Pnl.mkPnlData
          unrealizedPnlUSD realizedPnlUSD totalPnlUSD pnlPercentage
          initial currentValueUSD totalInvestedUSD
          (toSOL unrealizedPnlUSD) (toSOL realizedPnlUSD) (toSOL totalPnlUSD)
          (toSOL initial) (toSOL currentValueUSD) (toSOL totalInvestedUSD)))%obj.

(** ** Suggestion engine *)

Definition string_of_Z (z : Z) : string :=
  ((if z <? 0 then "-" else "") ++ digits 1 (Z.abs z))%Z.

Definition MS_PER_DAY : Z := 1000 * 60 * 60 * 24.

(** [generateSuggestion(position, pnlData)]; [now] is [Date.now()]. *)
Definition generateSuggestion (now : Z) (position : Position) (pnlData : PnlData)
  : Suggestion :=
  let pnlPercent := Pnl.pnl_percentage pnlData in
  let unrealizedPnlUSD := Pnl.unrealized_pnl_usd pnlData in
  let realizedPnlUSD := Pnl.realized_pnl_usd pnlData in
  let daysOpen := ((now - created_at position) / MS_PER_DAY)%Z in
  if (if gtb unrealizedPnlUSD (of_Z 10)
      then gtb (div realizedPnlUSD unrealizedPnlUSD) THRESHOLDS.HIGH_FEES_RATIO
      else false)
  then mkSuggestion TAKE_PROFIT
         ("High fees earned ("
            ++ toFixed 0 (mul (div realizedPnlUSD unrealizedPnlUSD) (of_Z 100))
            ++ "% of unrealized gains). Secure profits before market turns.")
         HIGH
  else if geb pnlPercent THRESHOLDS.TAKE_PROFIT
  then mkSuggestion TAKE_PROFIT
         ("Excellent " ++ toFixed 1 pnlPercent
            ++ "% return! Consider taking partial profits to secure gains.")
         HIGH
  else if geb pnlPercent THRESHOLDS.STRONG_PROFIT
  then mkSuggestion REDUCE
         ("Strong " ++ toFixed 1 pnlPercent
            ++ "% profit. Consider reducing position size to lock in gains while maintaining exposure.")
         MEDIUM
  else if leb pnlPercent THRESHOLDS.STOP_LOSS
  then mkSuggestion STOP_LOSS
         ("Position down " ++ toFixed 1 (abs pnlPercent)
            ++ "%. Consider cutting losses to preserve capital.")
         HIGH
  else if leb pnlPercent THRESHOLDS.MODERATE_LOSS
  then
    if (30 <? daysOpen)%Z
    then mkSuggestion REDUCE
           ("Position down " ++ toFixed 1 (abs pnlPercent) ++ "% for "
              ++ string_of_Z daysOpen
              ++ " days. Consider reducing exposure or reevaluating thesis.")
           MEDIUM
    else mkSuggestion HOLD
           ("Down " ++ toFixed 1 (abs pnlPercent)
              ++ "% but position is recent (" ++ string_of_Z daysOpen
              ++ " days). Monitor closely.")
           LOW
  else if geb pnlPercent THRESHOLDS.BREAK_EVEN
          && ltb pnlPercent THRESHOLDS.MODERATE_PROFIT
  then
    if gtb realizedPnlUSD zero
    then mkSuggestion TOP_UP
           ("Near breakeven with $" ++ toFixed 2 realizedPnlUSD
              ++ " in fees earned. Position showing promise - consider increasing.")
           MEDIUM
    else mkSuggestion HOLD
           "Position near breakeven. Monitor for clear direction before making changes."
           LOW
  else if geb pnlPercent THRESHOLDS.MODERATE_PROFIT
          && ltb pnlPercent THRESHOLDS.STRONG_PROFIT
  then mkSuggestion HOLD
         ("Good " ++ toFixed 1 pnlPercent
            ++ "% profit with momentum. Hold position and monitor for further gains.")
         MEDIUM
  else mkSuggestion HOLD
         "Position performing as expected. Continue monitoring market conditions."
         LOW.

(** ** Aggregate reporting *)

Record SummaryStats : Type := mkSummaryStats {
  totalInvestedUSD : number;
  totalPnlUSD : number;
  winningPositions : nat;
  losingPositions : nat;
  totalWinPnlUSD : number;
  totalLossPnlUSD : number;
  winRate : number;
  lossRate : number;
  overallPnlPercentage : number;
  biggestWinUSD : number;
  biggestLossUSD : number;
  biggestWinPercent : number;
  biggestLossPercent : number;
  expectedValueUSD : number
}.

(** The variables that the [forEach] loop of [calculateSummaryStats]
    updates. *)
Record Tally : Type := mkTally {
  t_totalInvestedUSD : number;
  t_totalPnlUSD : number;
  t_winningPositions : nat;
  t_losingPositions : nat;
  t_totalWinPnlUSD : number;
  t_totalLossPnlUSD : number;
  t_biggestWinUSD : number;
  t_biggestLossUSD : number;
  t_biggestWinPercent : number;
  t_biggestLossPercent : number
}.

Definition tally_start : Tally :=
  mkTally zero zero 0 0 zero zero zero zero zero zero.

(** One iteration of the loop. *)
Definition tally_step (t : Tally) (position : Position) : Tally :=
  let invested := add (t_totalInvestedUSD t) (orZero (total_invested_usd position)) in
  let pnlUSD := orZero (final_pnl_usd position) in
  let pnlPercent := orZero (final_pnl_percentage position) in
  let total := add (t_totalPnlUSD t) pnlUSD in
  if gtb pnlUSD zero then
    mkTally invested total
      (S (t_winningPositions t)) (t_losingPositions t)
      (add (t_totalWinPnlUSD t) pnlUSD) (t_totalLossPnlUSD t)
      (if gtb pnlUSD (t_biggestWinUSD t) then pnlUSD else t_biggestWinUSD t)
      (t_biggestLossUSD t)
      (if gtb pnlPercent (t_biggestWinPercent t) then pnlPercent
       else t_biggestWinPercent t)
      (t_biggestLossPercent t)
  else if ltb pnlUSD zero then
    mkTally invested total
      (t_winningPositions t) (S (t_losingPositions t))
      (t_totalWinPnlUSD t) (add (t_totalLossPnlUSD t) pnlUSD)
      (t_biggestWinUSD t)
      (if ltb pnlUSD (t_biggestLossUSD t) then pnlUSD else t_biggestLossUSD t)
      (t_biggestWinPercent t)
      (if ltb pnlPercent (t_biggestLossPercent t) then pnlPercent
       else t_biggestLossPercent t)
  else
    mkTally invested total
      (t_winningPositions t) (t_losingPositions t)
      (t_totalWinPnlUSD t) (t_totalLossPnlUSD t)
      (t_biggestWinUSD t) (t_biggestLossUSD t)
      (t_biggestWinPercent t) (t_biggestLossPercent t).

Definition avgWinUSD (t : Tally) : number :=
  if (0 <? t_winningPositions t)%nat
  then div (t_totalWinPnlUSD t) (of_nat (t_winningPositions t)) else zero.

Definition avgLossUSD (t : Tally) : number :=
  if (0 <? t_losingPositions t)%nat
  then div (t_totalLossPnlUSD t) (of_nat (t_losingPositions t)) else zero.

Definition winProbability (totalPositions : nat) (t : Tally) : number :=
  if (0 <? totalPositions)%nat
  then div (of_nat (t_winningPositions t)) (of_nat totalPositions) else zero.

Definition lossProbability (totalPositions : nat) (t : Tally) : number :=
  if (0 <? totalPositions)%nat
  then div (of_nat (t_losingPositions t)) (of_nat totalPositions) else zero.

Definition calculateSummaryStats (positions : list Position) : SummaryStats :=
  let t := fold_left tally_step positions tally_start in
  let totalPositions := List.length positions in
  let winRate :=
    if (0 <? totalPositions)%nat
    then mul (div (of_nat (t_winningPositions t)) (of_nat totalPositions)) (of_Z 100)
    else zero in
  let lossRate :=
    if (0 <? totalPositions)%nat
    then mul (div (of_nat (t_losingPositions t)) (of_nat totalPositions)) (of_Z 100)
    else zero in
  let overallPnlPercentage :=
    if gtb (t_totalInvestedUSD t) zero
    then mul (div (t_totalPnlUSD t) (t_totalInvestedUSD t)) (of_Z 100)
    else zero in
  let expectedValueUSD :=
    add (mul (winProbability totalPositions t) (avgWinUSD t))
        (mul (lossProbability totalPositions t) (avgLossUSD t)) in
  mkSummaryStats
    (t_totalInvestedUSD t) (t_totalPnlUSD t)
    (t_winningPositions t) (t_losingPositions t)
    (t_totalWinPnlUSD t) (t_totalLossPnlUSD t)
    winRate lossRate overallPnlPercentage
    (t_biggestWinUSD t) (t_biggestLossUSD t)
    (t_biggestWinPercent t) (t_biggestLossPercent t)
    expectedValueUSD.

(** ** Position store *)

(** The object [Record<string, Position>]: its entries in the order
    [Object.entries] enumerates them. *)
Definition Positions : Type := list (string * Position).

(** [positions[key] = position] *)
Fixpoint store_set (key : string) (position : Position) (positions : Positions)
  : Positions :=
  match positions with
  | [] => [(key, position)]
  | (k, p) :: rest =>
      if String.eqb k key then (key, position) :: rest
      else (k, p) :: store_set key position rest
  end.

(** [delete positions[key]] *)
Fixpoint store_delete (key : string) (positions : Positions) : Positions :=
  match positions with
  | [] => []
  | (k, p) :: rest =>
      if String.eqb k key then rest else (k, p) :: store_delete key rest
  end.

(** [Object.values(positions)] *)
Definition values (positions : Positions) : list Position := map snd positions.

(** An entry of the position file whose value is an object (the loop of
    [loadPositions] skips every other value, so those are not listed): the
    properties of a position (an absent [id] is the empty string, which
    [!pos.id] does not tell apart) and the two properties of the older
    schema that the loop reads and deletes. *)
Record StoredPosition : Type := mkStored {
  stored : Position;
  capital_reduction_usd : option number;
  profit_taken_usd : option number
}.

Definition PositionFile : Type := list (string * StoredPosition).

(** The body of the loop of [loadPositions] for one entry.  An entry
    without [id] is taken to have a [created_at] other than 0, as every
    version of the program writes one; without it the identifier would end
    in the time of the load. *)
Definition migrate (key : string) (entry : StoredPosition) : Position :=
  let pos := stored entry in
  let pos :=
    if String.eqb (id pos) ""
    then set_token key (set_id (key ++ "_" ++ string_of_Z (created_at pos)) pos)
    else pos in
  let pos :=
    match capital_reduction_usd entry with
    | Some reduction =>
        set_withdrawn_usd (add reduction (orZero (profit_taken_usd entry))) pos
    | None => pos
    end in
  match initial_value_usd_field pos with
  | Some initial =>
      set_total_invested_usd (add initial (orZero (capital_additions_usd pos))) pos
  | None => pos
  end.

(** [loadPositions()]; an absent or unreadable file is the empty list. *)
Definition loadPositions (file : PositionFile) : Positions :=
  fold_left
    (fun migratedPositions '(key, entry) =>
       let pos := migrate key entry in
       store_set (id pos) pos migratedPositions)
    file [].

Definition is_active_for (tok : string) (position : Position) : bool :=
  String.eqb (toLowerCase (token position)) (toLowerCase tok)
  && negb (flag (is_closed position)).

Definition is_closed_for (tok : string) (position : Position) : bool :=
  String.eqb (toLowerCase (token position)) (toLowerCase tok)
  && flag (is_closed position).

Definition findActivePosition (positions : Positions) (tok : string)
  : option Position :=
  find (is_active_for tok) (values positions).

Definition findClosedPositions (positions : Positions) (tok : string)
  : list Position :=
  filter (is_closed_for tok) (values positions).

(** The object that [findActivePosition] returns is the one held by the
    store: statements that assign to its fields change the store in place. *)
Fixpoint update_active (tok : string) (statements : Obj unit)
  (positions : Positions) : Positions :=
  match positions with
  | [] => []
  | (k, p) :: rest =>
      if is_active_for tok p then (k, exec statements p) :: rest
      else (k, p) :: update_active tok statements rest
  end.

(** What a run reads from outside the program. *)
Record Env : Type := mkEnv {
  now : Z;            (* the clock, in milliseconds *)
  random : string;    (* Math.random().toString(36).substr(2, 9) *)
  solPrice : number   (* the result of getSOLPriceUSD() *)
}.

Definition generatePositionId (env : Env) (tok : string) : string :=
  toLowerCase tok ++ "_" ++ string_of_Z (now env) ++ "_" ++ random env.

Definition initializePosition (env : Env) (tok : string)
  (initialValueUSD : number) : Position :=
  mkPosition (generatePositionId env tok) tok (Some initialValueUSD) zero
    (now env) (now env) (Some zero) (Some zero) (Some initialValueUSD)
    None None None None None None.

(** What [displayPositionInfo(token, position, currentValueUSD)] computes
    before it prints. *)
Definition displayPositionInfo (env : Env) (position : Position)
  (currentValueUSD : number) : PnlData * Suggestion :=
  let pnlData := eval (calculatePnl (solPrice env) currentValueUSD) position in
  (pnlData, generateSuggestion (now env) position pnlData).

(** ** Commands *)

Inductive Failure : Type :=
| Usage              (* an argument is missing *)
| NotANumber         (* "... must be a number" *)
| NotPositive        (* "... must be positive" *)
| NoActivePosition.  (* "No active position for ... found" *)

(** How a run ends: with [process.exit(1)] before anything is saved, by
    returning without a call of [savePositions], or after [savePositions]
    has written the given store. *)
Inductive Outcome : Type :=
| Exit1 (why : Failure)
| Shown
| Saved (positions : Positions).

Definition exit_code (o : Outcome) : Z :=
  match o with Exit1 _ => 1 | _ => 0 end.

Definition written (o : Outcome) : option Positions :=
  match o with Saved positions => Some positions | _ => None end.

(** A cumulative field read as a number; once [init_missing_fields] has
    run the field is present. *)
Definition amount (field : option number) : number :=
  match field with Some v => v | None => zero end.

(** Backward compatibility: the two cumulative fields start at 0. *)
Definition init_missing_fields : Obj unit :=
  (additions <- read capital_additions_usd ;;
   when (is_none additions) (assign (set_capital_additions_usd zero)) ;;
   withdrawn <- read withdrawn_usd ;;
   when (is_none withdrawn) (assign (set_withdrawn_usd zero)))%obj.

(** [clean]: [initial_value_usd || initial_value || 0] decides. *)
Definition cmd_clean (positions : Positions) : Outcome :=
  Saved
    (fold_left
       (fun cleanedPositions '(key, position) =>
          let initialValue :=
            orZero (or_field (initial_value_usd_field position)
                             (initial_value position)) in
          if gtb initialValue (of_Z 10000) then cleanedPositions
          else store_set key position cleanedPositions)
       positions []).

Definition cmd_remove (args : list string) (positions : Positions) : Outcome :=
  match args with
  | _ :: a1 :: _ =>
      let tok := toLowerCase a1 in
      match findActivePosition positions tok with
      | None => Exit1 NoActivePosition
      | Some position => Saved (store_delete (id position) positions)
      end
  | _ => Exit1 Usage
  end.

Definition cmd_reset (env : Env) (args : list string) (positions : Positions)
  : Outcome :=
  match args with
  | _ :: a1 :: a2 :: _ =>
      let tok := toLowerCase a1 in
      let newInitialValue := parseFloat a2 in
      if isNaN newInitialValue then Exit1 NotANumber
      else
        match findActivePosition positions tok with
        | None => Exit1 NoActivePosition
        | Some oldPosition =>
            let positions := store_delete (id oldPosition) positions in
            let newPosition := initializePosition env tok newInitialValue in
            Saved (store_set (id newPosition) newPosition positions)
        end
  | _ => Exit1 Usage
  end.

Definition claim_fee_statements (env : Env) (feesToClaimUSD : number) : Obj unit :=
  (fees <- read fees_claimed_usd ;;
   assign (set_fees_claimed_usd (add fees feesToClaimUSD)) ;;
   assign (set_last_updated (now env)))%obj.

Definition cmd_claim_fee (env : Env) (args : list string) (positions : Positions)
  : Outcome :=
  match args with
  | _ :: a1 :: a2 :: _ =>
      let tok := toLowerCase a1 in
      let feesToClaimUSD := parseFloat a2 in
      if isNaN feesToClaimUSD then Exit1 NotANumber
      else if leb feesToClaimUSD zero then Exit1 NotPositive
      else
        match findActivePosition positions tok with
        | None => Exit1 NoActivePosition
        | Some _ =>
            Saved (update_active tok (claim_fee_statements env feesToClaimUSD)
                     positions)
        end
  | _ => Exit1 Usage
  end.

Definition add_capital_statements (env : Env) (additionalCapital : number)
  : Obj unit :=
  (init_missing_fields ;;
   additions <- read (fun position => amount (capital_additions_usd position)) ;;
   assign (set_capital_additions_usd (add additions additionalCapital)) ;;
   initial <- read initial_value_usd ;;
   additions <- read (fun position => amount (capital_additions_usd position)) ;;
   assign (set_total_invested_usd (add initial additions)) ;;
   assign (set_last_updated (now env)))%obj.

Definition cmd_add_capital (env : Env) (args : list string) (positions : Positions)
  : Outcome :=
  match args with
  | _ :: a1 :: a2 :: _ =>
      let tok := toLowerCase a1 in
      let additionalCapital := parseFloat a2 in
      if isNaN additionalCapital then Exit1 NotANumber
      else if leb additionalCapital zero then Exit1 NotPositive
      else
        match findActivePosition positions tok with
        | None => Exit1 NoActivePosition
        | Some _ =>
            Saved (update_active tok (add_capital_statements env additionalCapital)
                     positions)
        end
  | _ => Exit1 Usage
  end.

Definition withdraw_statements (env : Env) (amountToTake : number) : Obj unit :=
  (init_missing_fields ;;
   initial <- read initial_value_usd ;;
   additions <- read (fun position => amount (capital_additions_usd position)) ;;
   let totalInvested := add initial additions in
   withdrawn <- read (fun position => amount (withdrawn_usd position)) ;;
   assign (set_withdrawn_usd (add withdrawn amountToTake)) ;;
   assign (set_total_invested_usd totalInvested) ;;
   assign (set_last_updated (now env)))%obj.

Definition cmd_withdraw (env : Env) (args : list string) (positions : Positions)
  : Outcome :=
  match args with
  | _ :: a1 :: a2 :: _ =>
      let tok := toLowerCase a1 in
      let amountToTake := parseFloat a2 in
      if isNaN amountToTake then Exit1 NotANumber
      else if leb amountToTake zero then Exit1 NotPositive
      else
        match findActivePosition positions tok with
        | None => Exit1 NoActivePosition
        | Some _ =>
            Saved (update_active tok (withdraw_statements env amountToTake)
                     positions)
        end
  | _ => Exit1 Usage
  end.

Definition close_statements (env : Env) (exitValueUSD finalFeesUSD : number)
  : Obj unit :=
  (init_missing_fields ;;
   fees <- read fees_claimed_usd ;;
   assign (set_fees_claimed_usd (add fees finalFeesUSD)) ;;
   initial <- read initial_value_usd ;;
   additions <- read (fun position => amount (capital_additions_usd position)) ;;
   let totalInvested := add initial additions in
   withdrawn <- read (fun position => orZero (withdrawn_usd position)) ;;
   fees <- read fees_claimed_usd ;;
   let totalValueUSD := add (add exitValueUSD withdrawn) fees in
   let finalTotalPnlUSD := sub totalValueUSD totalInvested in
   let finalPnlPercentage :=
     if gtb totalInvested zero
     then mul (div finalTotalPnlUSD totalInvested) (of_Z 100)
     else zero in
   assign (set_closed_at (now env)) ;;
   assign (set_exit_value_usd exitValueUSD) ;;
   assign (set_final_pnl_usd finalTotalPnlUSD) ;;
   assign (set_final_pnl_percentage finalPnlPercentage) ;;
   assign (set_total_invested_usd totalInvested) ;;
   assign (set_is_closed true) ;;
   assign (set_last_updated (now env)))%obj.

Definition cmd_close (env : Env) (args : list string) (positions : Positions)
  : Outcome :=
  match args with
  | _ :: a1 :: a2 :: more =>
      let tok := toLowerCase a1 in
      let exitValueUSD := parseFloat a2 in
      let finalFeesUSD :=
        match more with a3 :: _ => parseFloat a3 | [] => zero end in
      if isNaN finalFeesUSD then Exit1 NotANumber
      else if isNaN exitValueUSD then Exit1 NotANumber
      else if leb exitValueUSD zero then Exit1 NotPositive
      else
        match findActivePosition positions tok with
        | None => Exit1 NoActivePosition
        | Some _ =>
            Saved (update_active tok
                     (close_statements env exitValueUSD finalFeesUSD) positions)
        end
  | _ => Exit1 Usage
  end.

Definition record_statements (env : Env) (feesToAddUSD : number) : Obj unit :=
  (fees <- read fees_claimed_usd ;;
   assign (set_fees_claimed_usd (add fees feesToAddUSD)) ;;
   assign (set_last_updated (now env)))%obj.

(** The command [<token> <value> [fees]]: [command] is the token. *)
Definition cmd_record (env : Env) (command : string) (args : list string)
  (positions : Positions) : Outcome :=
  let tok := command in
  match args with
  | _ :: a1 :: more =>
      let currentValueUSD := parseFloat a1 in
      if isNaN currentValueUSD then Exit1 NotANumber
      else
        let feesToAddUSD :=
          match more with a2 :: _ => parseFloat a2 | [] => zero end in
        if isNaN feesToAddUSD then Exit1 NotANumber
        else
          match findActivePosition positions tok with
          | None =>
              let position := initializePosition env tok currentValueUSD in
              Saved (store_set (id position) position positions)
          | Some _ =>
              Saved (update_active tok (record_statements env feesToAddUSD)
                       positions)
          end
  | _ => Exit1 Usage
  end.

(** [main()], with [process.argv.slice(2)] as [args]. *)
Definition main (env : Env) (args : list string) (file : PositionFile)
  : Outcome :=
  match args with
  | [] => Exit1 Usage
  | a0 :: _ =>
      let command := toLowerCase a0 in
      let positions := loadPositions file in
      if String.eqb command "list" then Shown
      else if String.eqb command "closed" then Shown
      else if String.eqb command "summary" then Shown
      else if String.eqb command "clean" then cmd_clean positions
      else if String.eqb command "remove" then cmd_remove args positions
      else if String.eqb command "reset" then cmd_reset env args positions
      else if String.eqb command "claim-fee" then cmd_claim_fee env args positions
      else if String.eqb command "add-capital" then cmd_add_capital env args positions
      else if String.eqb command "withdraw" then cmd_withdraw env args positions
      else if String.eqb command "close" then cmd_close env args positions
      else cmd_record env command args positions
  end.

(** ** Binary64 *)

(** The numbers of the program are binary64 values and each operation
    rounds its exact result to the nearest one.  The model above computes
    the exact results.  The two agree on an operation whose exact result is
    itself a binary64 value, since such a result is returned unrounded; a
    statement that depends on exact results therefore carries the
    hypothesis that the values it combines are [representable].  Module
    [Double] evaluates the same source lines in binary64 and shows what
    rounding does where that hypothesis fails. *)

Fixpoint odd_part (p : positive) : positive :=
  match p with
  | xO p' => odd_part p'
  | _ => p
  end.

(** [x] is a finite binary64 value: [m * 2 ^ e] with [|m| < 2 ^ 53] and
    [-1074 <= e], below [2 ^ 1024] in magnitude. *)
Definition representable (x : number) : bool :=
  match x with
  | Fin q =>
      let d := Qden q in
      Pos.eqb (odd_part d) 1
      && (Z.log2 (Zpos d) <=? 1074)%Z
      && match Qnum q with
         | Z0 => true
         | Zpos m | Zneg m =>
             (Zpos (odd_part m) <? 2 ^ 53)%Z
             && (Zpos m <? 2 ^ 1024 * Zpos d)%Z
         end
  | _ => false
  end.

(** The values that the USD lines of [calculatePnl] read and compute, in
    the order of the source: the four amounts and the current value, then
    each sum and difference. *)
Definition pnl_sums (currentValueUSD : number) (position : Position)
  : list number :=
  let capitalAdditions := orZero (capital_additions_usd position) in
  let withdrawn := orZero (withdrawn_usd position) in
  let initial := initial_value_usd position in
  let fees := fees_claimed_usd position in
  let totalInvestedUSD := add initial capitalAdditions in
  let currentlyInvestedUSD := sub totalInvestedUSD withdrawn in
  let totalValueUSD := add (add currentValueUSD withdrawn) fees in
  [initial; capitalAdditions; withdrawn; fees; currentValueUSD;
   totalInvestedUSD; currentlyInvestedUSD;
   add currentValueUSD withdrawn; totalValueUSD;
   sub totalValueUSD totalInvestedUSD;
   sub currentValueUSD currentlyInvestedUSD;
   add withdrawn fees].

(** No sum or difference of [calculatePnl] is rounded. *)
Definition exact_pnl (currentValueUSD : number) (position : Position) : bool :=
  forallb representable (pnl_sums currentValueUSD position).

Set Warnings "-inexact-float".

Module Double.
Import PrimFloat.
#[local] Open Scope float_scope.

Definition isNaN (x : float) : bool := negb (eqb x x).

(** Truthiness of a number: [0], [-0] and [NaN] are falsy. *)
Definition truthy (x : float) : bool := negb (eqb x 0) && negb (isNaN x).

(** [x || 0] for an optional numeric field. *)
Definition orZero (x : option float) : float :=
  match x with
  | Some v => if truthy v then v else 0
  | None => 0
  end.

(** The numeric fields of a position that [calculatePnl] and [withdraw]
    read and write. *)
Record Position : Type := mkPosition {
  initial_value_usd : float;
  fees_claimed_usd : float;
  capital_additions_usd : option float;
  withdrawn_usd : option float;
  total_invested_usd : option float
}.

(** The USD fields of [PnlData]. *)
Record PnlData : Type := mkPnlData {
  unrealized_pnl_usd : float;
  realized_pnl_usd : float;
  total_pnl_usd : float;
  pnl_percentage : float;
  current_value_usd : float;
  total_invested : float
}.

(** The USD lines of [calculatePnl(position, currentValueUSD)]. *)
Definition calculatePnl (currentValueUSD : float) (position : Position)
  : PnlData :=
  let capitalAdditions := orZero (capital_additions_usd position) in
  let withdrawn := orZero (withdrawn_usd position) in
  let totalInvestedUSD := initial_value_usd position + capitalAdditions in
  let currentlyInvestedUSD := totalInvestedUSD - withdrawn in
  let totalValueUSD :=
    currentValueUSD + withdrawn + fees_claimed_usd position in
  let totalPnlUSD := totalValueUSD - totalInvestedUSD in
  let unrealizedPnlUSD := currentValueUSD - currentlyInvestedUSD in
  let realizedPnlUSD := withdrawn + fees_claimed_usd position in
  let pnlPercentage :=
    if ltb 0 totalInvestedUSD
    then totalPnlUSD / totalInvestedUSD * 100
    else 0 in
  mkPnlData unrealizedPnlUSD realizedPnlUSD totalPnlUSD pnlPercentage
    currentValueUSD totalInvestedUSD.


(** The amounts of the examples: 0.3 and 1e-17 are the binary64 values
    nearest to these decimals, as [parseFloat] returns them. *)
Definition three_tenths : float := 0.3.
Definition tiny : float := 1e-17.


Definition small_position (withdrawn : float) : Position :=
  mkPosition 0.2 0.1 (Some 0) (Some withdrawn) (Some 0.2).

End Double.

(** ** The file between two runs *)

(** [JSON.stringify] writes [null] for [NaN] and the infinities; each
    operation modelled here reads [null] as 0. *)
Definition json_number (x : number) : number :=
  if isFinite x then x else zero.

Definition json_position (p : Position) : Position :=
  mkPosition (id p) (token p)
    (option_map json_number (initial_value_usd_field p))
    (json_number (fees_claimed_usd p))
    (created_at p) (last_updated p)
    (option_map json_number (capital_additions_usd p))
    (option_map json_number (withdrawn_usd p))
    (option_map json_number (total_invested_usd p))
    (closed_at p)
    (option_map json_number (exit_value_usd p))
    (option_map json_number (final_pnl_usd p))
    (option_map json_number (final_pnl_percentage p))
    (is_closed p)
    (option_map json_number (initial_value p)).

(** What the next run reads after [savePositions(positions)]. *)
Definition savePositions (positions : Positions) : PositionFile :=
  map (fun entry => (fst entry, mkStored (json_position (snd entry)) None None))
    positions.

(** The stores that runs of the program produce, starting without a
    file. *)
Inductive reachable : Positions -> Prop :=
| reachable_first env args saved :
    main env args [] = Saved saved -> reachable saved
| reachable_next env args positions saved :
    reachable positions ->
    main env args (savePositions positions) = Saved saved ->
    reachable saved.

(** ** Predicates used in the statements *)

(** *** PnL *)

(** The monetary fields that [calculatePnl] reads are finite numbers. *)
Definition finite_amounts (p : Position) : bool :=
  isFinite (initial_value_usd p) && isFinite (fees_claimed_usd p)
  && isFinite (orZero (capital_additions_usd p))
  && isFinite (orZero (withdrawn_usd p)).

Definition usd_fields (r : PnlData) : list number :=
  [Pnl.unrealized_pnl_usd r; Pnl.realized_pnl_usd r; Pnl.total_pnl_usd r;
   Pnl.pnl_percentage r; Pnl.initial_value_usd r; Pnl.current_value_usd r;
   Pnl.total_invested_usd r].

Definition sol_fields (r : PnlData) : list number :=
  [Pnl.unrealized_pnl_sol r; Pnl.realized_pnl_sol r; Pnl.total_pnl_sol r;
   Pnl.initial_value_sol r; Pnl.current_value_sol r; Pnl.total_invested_sol r].

(** *** Reporting *)

(** The final PnL of a closed position, as the report reads it. *)
Definition closed_pnl (p : Position) : number := orZero (final_pnl_usd p).

Definition is_win (p : Position) : bool := gtb (closed_pnl p) zero.
Definition is_loss (p : Position) : bool := ltb (closed_pnl p) zero.

Definition sum_from (start : number) (l : list number) : number :=
  fold_left add l start.




(** *** Stores *)

Definition all_positions (P : Position -> Prop) (s : Positions) : Prop :=
  forall k p, In (k, p) s -> P p.


Definition holds_nan (field : option number) : bool :=
  match field with Some v => isNaN v | None => false end.



Definition count_if (b : bool) : nat := if b then 1 else 0.

Definition active_count (tok : string) (positions : Positions) : nat :=
  List.length (filter (is_active_for tok) (values positions)).

Definition at_most_one_active (positions : Positions) : Prop :=
  forall tok, (active_count tok positions <= 1)%nat.

(** Every position of the token is closed. *)
Definition all_closed_for (tok : string) (positions : Positions) : bool :=
  forallb
    (fun p =>
       negb (String.eqb (toLowerCase (token p)) (toLowerCase tok))
       || flag (is_closed p))
    (values positions).

(** Every entry is stored under the identifier of its position, and no two
    entries share a key. *)
Definition well_keyed (positions : Positions) : Prop :=
  NoDup (map fst positions) /\ Forall (fun kp => fst kp = id (snd kp)) positions.

Definition has_id (p : Position) : Prop := id p <> "".

(** *** Command lines *)

(** The optional last numeric argument (the final fees of [close], the
    fees of the record command), 0 when it is absent. *)
Definition optional_amount (more : list string) : number :=
  match more with a3 :: _ => parseFloat a3 | [] => zero end.

(** The first arguments that [main] treats as commands; any other first
    argument is a token. *)
Definition command_names : list string :=
  ["list"; "closed"; "summary"; "clean"; "remove"; "reset"; "claim-fee";
   "add-capital"; "withdraw"; "close"].

Definition is_token (a0 : string) : bool :=
  forallb (fun name => negb (String.eqb (toLowerCase a0) name)) command_names.

(** The run stopped with exit code 1 and wrote nothing. *)
Definition rejected (o : Outcome) : Prop :=
  exit_code o = 1%Z /\ written o = None.

(** *** Sample data *)

(** The position of the closing scenario: 200 invested at creation, 100
    added, 50 withdrawn, 5 of fees claimed. *)
Definition scenario_position : Position :=
  mkPosition "tok_1000_abc" "tok" (Some (of_Z 200)) (of_Z 5) 1000 2000
    (Some (of_Z 100)) (Some (of_Z 50)) (Some (of_Z 300))
    None None None None None None.

(** The file that holds the scenario position. *)
Definition scenario_file : PositionFile :=
  [("tok_1000_abc", mkStored scenario_position None None)].

Definition scenario_env : Env := mkEnv 5000 "xyz" (of_Z 185).

(** A closed position with the given final PnL. *)
Definition closed_with (pnl : number) : Position :=
  mkPosition "tok_0_a" "tok" (Some (of_Z 100)) zero 0 0 (Some zero) (Some zero)
    (Some (of_Z 100)) (Some 0%Z) (Some (add (of_Z 100) pnl)) (Some pnl)
    (Some pnl) (Some true) None.

(** A file whose only position is closed. *)
Definition closed_file : PositionFile :=
  [("tok_0_a", mkStored (closed_with (of_Z 100)) None None)].

(** A PnL result with the given unrealized PnL, realized PnL and
    percentage; the other fields do not enter the suggestion. *)
Definition pnl_with (unrealized realized percentage : number) : PnlData :=
  Pnl.mkPnlData unrealized realized (add unrealized realized) percentage
    (of_Z 100) (of_Z 100) (of_Z 100) zero zero zero zero zero zero.

(** ** Price oracle *)

(** The cached SOL price: [{ price, timestamp }]. *)
Record PriceCache : Type := mkPriceCache {
  price : number;
  timestamp : Z
}.

(** How the request of [getSOLPriceUSD] ends: [fetch] or [response.json()]
    throws, the response is not [ok], or the response is [ok] and
    [data.solana?.usd] is the given value ([undefined] is [None]). *)
Inductive FetchResult : Type :=
| FetchThrows
| FetchNotOk
| FetchOk (usd : option number).

(** The variable [solPriceCache] and the content of the cache file (absent
    or unreadable is [None]). *)
Record PriceState : Type := mkPriceState {
  solPriceCache : option PriceCache;
  priceCacheFile : option PriceCache
}.

Definition CACHE_DURATION : Z := 5 * 60 * 1000.

Definition FALLBACK_PRICE : number := of_Z 185.

(** [(Date.now() - cache.timestamp) < CACHE_DURATION] *)
Definition cache_is_fresh (now : Z) (cache : PriceCache) : bool :=
  (now - timestamp cache <? CACHE_DURATION)%Z.

(** [Math.round(n / d)] for integers [n] and positive [d]: halves are
    rounded up. *)
Definition Math_round_div (n d : Z) : Z := ((2 * n + d) / (2 * d))%Z.

(** What [loadPriceCache] reads after [savePriceCache(cache)]:
    [JSON.stringify] writes a price that is not finite as [null], which the
    comparisons of [getSOLPriceUSD] read as 0. *)
Definition json_cache (cache : PriceCache) : PriceCache :=
  mkPriceCache (json_number (price cache)) (timestamp cache).

(** The [try] block of [getSOLPriceUSD] and its [catch]. *)
Definition fetch_price (now : Z) (response : FetchResult) (st : PriceState)
  : number * PriceState :=
  let from_stale_cache :=
    match solPriceCache st with
    | Some cache =>
        if gtb (price cache) zero then
          let ageMinutes := Math_round_div (now - timestamp cache) (60 * 1000) in
          if (ageMinutes <? 60)%Z then price cache else FALLBACK_PRICE
        else FALLBACK_PRICE
    | None => FALLBACK_PRICE
    end in
  match response with
  | FetchThrows =>
      match solPriceCache st with
      | Some cache =>
          if gtb (price cache) zero then (price cache, st)
          else (FALLBACK_PRICE, st)
      | None => (FALLBACK_PRICE, st)
      end
  | FetchNotOk => (from_stale_cache, st)
  | FetchOk None => (from_stale_cache, st)
  | FetchOk (Some usd) =>
      if truthy usd && gtb usd zero then
        let cache := mkPriceCache usd now in
        (usd, mkPriceState (Some cache) (Some (json_cache cache)))
      else (from_stale_cache, st)
  end.

(** [getSOLPriceUSD()]: the price and the caches after the call. *)
Definition getSOLPriceUSD (now : Z) (response : FetchResult) (st : PriceState)
  : number * PriceState :=
  match solPriceCache st with
  | Some cache =>
      if cache_is_fresh now cache then (price cache, st)
      else fetch_price now response st
  | None =>
      let st := mkPriceState (priceCacheFile st) (priceCacheFile st) in
      match solPriceCache st with
      | Some cache =>
          if cache_is_fresh now cache then (price cache, st)
          else fetch_price now response st
      | None => fetch_price now response st
      end
  end.

(** Every price that the caches hold is positive. *)
Definition caches_hold_positive (st : PriceState) : bool :=
  match solPriceCache st with Some c => gtb (price c) zero | None => true end
  && match priceCacheFile st with Some c => gtb (price c) zero | None => true end.

(** The request brings no usable price: the response is not [ok], or the
    value is missing, zero, negative or [NaN]. *)
Definition brings_no_price (response : FetchResult) : bool :=
  match response with
  | FetchThrows => false
  | FetchNotOk => true
  | FetchOk None => true
  | FetchOk (Some usd) => negb (truthy usd && gtb usd zero)
  end.

(** The cache entry that a call works with: the variable, or the file when
    the variable is empty. *)
Definition cache_in_effect (st : PriceState) : option PriceCache :=
  match solPriceCache st with
  | Some cache => Some cache
  | None => priceCacheFile st
  end.

(** No cache entry younger than five minutes is in effect. *)
Definition no_fresh_cache (now : Z) (st : PriceState) : bool :=
  match cache_in_effect st with
  | Some cache => negb (cache_is_fresh now cache)
  | None => true
  end.

(** A cache file written at time 1000 with the price 150, and nothing in
    memory. *)
Definition sample_price_state : PriceState :=
  mkPriceState None (Some (mkPriceCache (of_Z 150) 1000)).

(** ** Further predicates *)

(** The test of the first rule of [generateSuggestion]. *)
Definition fee_risk_fires (pnlData : PnlData) : bool :=
  if gtb (Pnl.unrealized_pnl_usd pnlData) (of_Z 10)
  then gtb (div (Pnl.realized_pnl_usd pnlData) (Pnl.unrealized_pnl_usd pnlData))
           (ratio 8 10)
  else false.

(** The reason of the last rule of [generateSuggestion]. *)
Definition default_reason : string :=
  "Position performing as expected. Continue monitoring market conditions.".

(** A closed position that neither won nor lost. *)
Definition broke_even (p : Position) : bool :=
  negb (is_win p) && negb (is_loss p).

(** A position as a save followed by a load leaves it: it has an
    identifier, its numbers are finite, and its total is the sum of the
    initial value and the capital additions. *)
Definition settled (p : Position) : Prop :=
  has_id p /\ json_position p = p
  /\ total_invested_usd p
     = Some (add (initial_value_usd p) (orZero (capital_additions_usd p))).

(** A position that a save followed by a load leaves as it is: as a
    settled one, but the total is free when the initial value is absent. *)
Definition stable (p : Position) : Prop :=
  has_id p /\ json_position p = p
  /\ (initial_value_usd_field p = None
      \/ total_invested_usd p
         = Some (add (initial_value_usd p) (orZero (capital_additions_usd p)))).

(** What the next run reads back from what this run saved. *)
Definition reload (positions : Positions) : Positions :=
  loadPositions (savePositions positions).

(** The test of [clean]: the initial value is at most 10000, where the
    initial value is [initial_value_usd], or the [initial_value] of an older
    entry when that is absent, 0 or [NaN], or 0 when both are. *)
Definition plausible (entry : string * Position) : bool :=
  negb (gtb (orZero (or_field (initial_value_usd_field (snd entry))
                              (initial_value (snd entry))))
            (of_Z 10000)).

(** None of the identifiers that a run with these arguments can generate
    is a key of the store. *)
Definition fresh_ids (env : Env) (args : list string) (positions : Positions)
  : bool :=
  forallb
    (fun a =>
       negb (existsb (String.eqb (generatePositionId env a)) (map fst positions)))
    args.

(** The scenario position and a closed position of the same token. *)
Definition history_file : PositionFile :=
  [("tok_0_a", mkStored (closed_with (of_Z 100)) None None);
   ("tok_1000_abc", mkStored scenario_position None None)].

(** A position of an older schema, with [initial_value] 20000 and no
    [initial_value_usd]. *)
Definition older_position : Position :=
  mkPosition "old_1000_abc" "old" None zero 1000 2000
    None None None None None None None None (Some (of_Z 20000)).

(** The older position next to the scenario position. *)
Definition older_file : PositionFile :=
  [("old_1000_abc", mkStored older_position None None);
   ("tok_1000_abc", mkStored scenario_position None None)].

(** The amounts of the position are finite and neither cumulative field
    holds [NaN]. *)
Definition plain_amounts (p : Position) : bool :=
  finite_amounts p
  && negb (holds_nan (capital_additions_usd p))
  && negb (holds_nan (withdrawn_usd p)).

(** The reason of the break-even rule of [generateSuggestion] when no fees
    have been earned. *)
Definition breakeven_reason : string :=
  "Position near breakeven. Monitor for clear direction before making changes.".

(** ** The earlier version *)

(** The files that [loadPositions] migrates were written by the earlier
    version of the program (src/unnamed/part_000), whose positions carry
    [capital_reduction_usd] and no identifier. *)
Module Legacy.

(** [calculatePnl(position, currentValueUSD)] of the earlier version, on an
    entry of its file. *)
Definition calculatePnl (solPriceUSD currentValueUSD : number)
  (position : StoredPosition) : PnlData :=
  let capitalAdditions := orZero (capital_additions_usd (stored position)) in
  let capitalReductions := orZero (capital_reduction_usd position) in
  let initial := initial_value_usd (stored position) in
  let totalInvestedUSD := sub (add initial capitalAdditions) capitalReductions in
  let unrealizedPnlUSD := sub currentValueUSD totalInvestedUSD in
  let realizedPnlUSD := fees_claimed_usd (stored position) in
  let totalPnlUSD := add unrealizedPnlUSD realizedPnlUSD in
  let pnlPercentage :=
    if gtb totalInvestedUSD zero
    then mul (div totalPnlUSD totalInvestedUSD) (of_Z 100)
    else zero in
  let toSOL (usd : number) :=
    if gtb solPriceUSD zero then div usd solPriceUSD else zero in
  Pnl.mkPnlData
    unrealizedPnlUSD realizedPnlUSD totalPnlUSD pnlPercentage
    initial currentValueUSD totalInvestedUSD
    (toSOL unrealizedPnlUSD) (toSOL realizedPnlUSD) (toSOL totalPnlUSD)
    (toSOL initial) (toSOL currentValueUSD) (toSOL totalInvestedUSD).

End Legacy.

(** An entry as the earlier version wrote it: no [withdrawn_usd], no
    [profit_taken_usd], and finite amounts. *)
Definition legacy_entry (e : StoredPosition) : bool :=
  is_none (withdrawn_usd (stored e)) && is_none (profit_taken_usd e)
  && isFinite (initial_value_usd (stored e))
  && isFinite (fees_claimed_usd (stored e))
  && isFinite (orZero (capital_additions_usd (stored e)))
  && isFinite (orZero (capital_reduction_usd e)).

(** An entry of the earlier version: 200 invested, 100 added, 50 reduced,
    5 of fees. *)
Definition legacy_sample : StoredPosition :=
  mkStored
    (mkPosition "" "" (Some (of_Z 200)) (of_Z 5) 1000 2000
       (Some (of_Z 100)) None (Some (of_Z 250))
       None None None None None None)
    (Some (of_Z 50)) None.

(** ** Coloured output *)

Definition ESC : ascii := ascii_of_nat 27.

(** The entries of [COLORS] that the amounts are printed with. *)
Module COLORS.
Definition RESET : string := String ESC "[0m".
Definition BOLD : string := String ESC "[1m".
Definition GRAY : string := String ESC "[90m".
Definition BRIGHT_RED : string := String ESC "[91m".
Definition BRIGHT_GREEN : string := String ESC "[92m".
Definition BRIGHT_YELLOW : string := String ESC "[93m".
End COLORS.

Definition colorText (text color : string) (bold : bool) : string :=
  let style := if bold then COLORS.BOLD ++ color else color in
  style ++ text ++ COLORS.RESET.

Definition formatUSDValue (value : number) : string :=
  if gtb value zero then
    colorText ("+$" ++ toFixed 2 value) COLORS.BRIGHT_GREEN true
  else if ltb value zero then
    colorText ("-$" ++ toFixed 2 (abs value)) COLORS.BRIGHT_RED true
  else colorText ("$" ++ toFixed 2 value) COLORS.GRAY false.

Definition formatUSDNeutral (value : number) : string :=
  colorText ("$" ++ toFixed 2 value) COLORS.BRIGHT_YELLOW true.

(** The characters of the class [[0-9;]]. *)
Definition is_param (c : ascii) : bool :=
  match digit_val c with Some _ => true | None => Ascii.eqb c ";" end.

Fixpoint skip_params (s : string) : string :=
  match s with
  | String c r => if is_param c then skip_params r else s
  | EmptyString => s
  end.

(** A match of [/\x1b\[[0-9;]*m/] at the start of [s]: what follows the
    match.  The class does not contain [m], so the longest run of the class
    decides. *)
Definition match_escape (s : string) : option string :=
  match s with
  | String c (String "[" r) =>
      if Ascii.eqb c ESC then
        match skip_params r with
        | String "m" rest => Some rest
        | _ => None
        end
      else None
  | _ => None
  end.

(** [s.replace(/\x1b\[[0-9;]*m/g, '')], scanning from the left; every step
    uses up at least one character, so the length of [s] is fuel enough. *)
Fixpoint strip_from (fuel : nat) (s : string) : string :=
  match fuel with
  | O => s
  | S fuel' =>
      match match_escape s with
      | Some rest => strip_from fuel' rest
      | None =>
          match s with
          | String c r => String c (strip_from fuel' r)
          | EmptyString => EmptyString
          end
      end
  end.

Definition strip_ansi (s : string) : string := strip_from (String.length s) s.

(** The colour of the expected value in [displaySummarySection]. *)
Definition evColor (expectedValueUSD : number) : string :=
  if gtb expectedValueUSD zero then COLORS.BRIGHT_GREEN
  else if ltb expectedValueUSD zero then COLORS.BRIGHT_RED
  else COLORS.GRAY.

(** The expected value as [displaySummarySection] prints it: the text of
    [formatUSDValue] without its colour codes, coloured again. *)
Definition expected_value_text (expectedValueUSD : number) : string :=
  colorText (strip_ansi (formatUSDValue expectedValueUSD))
    (evColor expectedValueUSD) true.

(** The string has no escape character. *)
Definition no_escape (s : string) : Prop :=
  forall c, In c (list_ascii_of_string s) -> c <> ESC.

(** ** Listings *)

(** [Object.values(positions).filter(pos => !pos.is_closed)], the positions
    that [list] prints. *)
Definition activePositions (positions : Positions) : list Position :=
  filter (fun pos => negb (flag (is_closed pos))) (values positions).

(** [Object.values(positions).filter(pos => pos.is_closed)], the positions
    that [closed] and [summary] work on. *)
Definition closedPositions (positions : Positions) : list Position :=
  filter (fun pos => flag (is_closed pos)) (values positions).

(** The object [closedByToken]: its own properties in the order of their
    first position. *)
Definition Groups : Type := list (string * list Position).

(** The lower-case names that every object inherits from
    [Object.prototype]: [closedByToken[token]] is truthy for them although
    no group has been created. *)
Definition inherited (tok : string) : bool :=
  String.eqb tok "constructor" || String.eqb tok "__proto__".

(** The own property [closedByToken[token]]. *)
Definition group_of (tok : string) (groups : Groups) : option (list Position) :=
  option_map snd (find (fun group => String.eqb (fst group) tok) groups).

(** [closedByToken[token] = []] when the group is missing, then
    [closedByToken[token].push(pos)]. *)
Fixpoint push_to_group (tok : string) (pos : Position) (groups : Groups) : Groups :=
  match groups with
  | [] => [(tok, [pos])]
  | (k, l) :: rest =>
      if String.eqb k tok then (k, (l ++ [pos])%list) :: rest
      else (k, l) :: push_to_group tok pos rest
  end.

(** The body of the grouping loop.  For an inherited name no group is
    created and the inherited value has no [push]: the call throws, which
    is [None]. *)
Definition group_step (groups : option Groups) (pos : Position) : option Groups :=
  match groups with
  | None => None
  | Some groups =>
      let tok := toLowerCase (token pos) in
      if inherited tok then None else Some (push_to_group tok pos groups)
  end.

(** The groups of [listClosedPositions], before each is sorted; [None]
    when the loop has thrown. *)
Definition closedByToken (positions : Positions) : option Groups :=
  fold_left group_step (closedPositions positions) (Some []).

(** A closed position whose token is an inherited name. *)
Definition inherited_token (positions : Positions) : bool :=
  existsb (fun pos => inherited (toLowerCase (token pos)))
    (closedPositions positions).

(** A group exists once a position has been pushed to it. *)
Definition nonempty (l : list Position) : option (list Position) :=
  match l with [] => None | _ => Some l end.

(** * Properties *)

(** ** Numbers *)

Ltac qc_eq := apply Qc_is_canon; reflexivity.
Ltac num_eq :=
  vm_compute;
  repeat first [ reflexivity | apply (f_equal Fin); qc_eq | f_equal ].

Lemma q_zero_eq (q : Qc) : q_zero q = true -> q = Q2Qc 0.
Proof.
  unfold q_zero. intros H. apply Z.eqb_eq in H.
  apply Qc_is_canon. destruct q as [[n d] c]. simpl in *. subst n.
  reflexivity.
Qed.

Lemma orZero_None : orZero None = zero.
Proof. reflexivity. Qed.

Lemma orZero_Some (v : number) :
  orZero (Some v) = if isNaN v then zero else v.
Proof.
  destruct v as [q| | |]; simpl; try reflexivity.
  destruct (q_zero q) eqn:E; simpl; [|reflexivity].
  apply q_zero_eq in E. subst q. reflexivity.
Qed.

Lemma add_zero_r (v : number) : add v zero = v.
Proof.
  destruct v as [q| | |]; simpl; try reflexivity.
  f_equal. change (Q2Qc (inject_Z 0)) with (Q2Qc 0). ring.
Qed.

Lemma q_ltb_lt (a b : Qc) : q_ltb a b = true <-> (a < b)%Qc.
Proof. unfold q_ltb, Qclt, Qlt. apply Z.ltb_lt. Qed.

Lemma q_leb_le (a b : Qc) : q_leb a b = true <-> (a <= b)%Qc.
Proof. unfold q_leb, Qcle, Qle. apply Z.leb_le. Qed.

Lemma isFinite_Fin (x : number) : isFinite x = true -> exists q, x = Fin q.
Proof. destruct x; try discriminate. eauto. Qed.

Lemma Fin_inj (a b : Qc) : Fin a = Fin b -> a = b.
Proof. congruence. Qed.

Lemma q_ltb_zero_nonzero (q : Qc) :
  q_ltb (Q2Qc (inject_Z 0)) q = true -> q_zero q = false.
Proof.
  unfold q_ltb, q_zero. simpl. intros H.
  apply Z.ltb_lt in H. apply Z.eqb_neq. lia.
Qed.

Lemma ltb_trans (x y z : number) :
  ltb x y = true -> ltb y z = true -> ltb x z = true.
Proof.
  destruct x as [a| | |], y as [b| | |], z as [c| | |]; simpl;
    try discriminate; try reflexivity.
  rewrite !q_ltb_lt. apply Qclt_trans.
Qed.

(** ** Sample evaluations *)

Example parseFloat_examples :
  parseFloat "12.30" = ratio 123 10 /\ parseFloat "-10" = of_Z (-10) /\
  parseFloat "abc" = NaN /\ parseFloat "Infinity" = PInf /\
  parseFloat " 1e2x" = of_Z 100 /\ parseFloat "." = NaN /\
  parseFloat ".5" = ratio 1 2.
Proof. repeat split; try reflexivity; num_eq. Qed.

Example toFixed_examples :
  toFixed 2 (ratio 265 3) = "88.33" /\ toFixed 1 (ratio 200 3) = "66.7" /\
  toFixed 0 (of_Z 90) = "90" /\ toFixed 2 (ratio (-1) 1000) = "-0.00" /\
  toFixed 1 (ratio (-25) 100) = "-0.3" /\ toFixed 2 (of_Z 0) = "0.00".
Proof. repeat split; reflexivity. Qed.

(** A position created with 200 and valued at 200 has no PnL. *)
Example fresh_position_has_no_pnl :
  let p := initializePosition scenario_env "tok" (parseFloat "200.00") in
  let r := eval (calculatePnl (of_Z 100) (of_Z 200)) p in
  Pnl.unrealized_pnl_usd r = zero /\ Pnl.realized_pnl_usd r = zero
  /\ Pnl.total_pnl_usd r = zero /\ Pnl.pnl_percentage r = zero.
Proof. cbv zeta. repeat split; num_eq. Qed.

(** [tok 200], then [add-capital tok 100], then [withdraw tok 50]: 300
    invested, 50 withdrawn. *)
Example add_capital_then_withdraw :
  let run args positions :=
    match written (main scenario_env args (savePositions positions)) with
    | Some saved => saved
    | None => positions
    end in
  let s1 := run ["tok"; "200"] [] in
  let s2 := run ["add-capital"; "tok"; "100"] s1 in
  let s3 := run ["withdraw"; "tok"; "50"] s2 in
  option_map total_invested_usd (findActivePosition s3 "tok")
  = Some (Some (of_Z 300))
  /\ option_map withdrawn_usd (findActivePosition s3 "tok")
     = Some (Some (of_Z 50)).
Proof. cbv zeta. split; num_eq. Qed.

(** ** Position store *)

Lemma store_set_In key v (s : Positions) k p :
  In (k, p) (store_set key v s) -> (k, p) = (key, v) \/ In (k, p) s.
Proof.
  induction s as [|[k0 p0] s IH]; simpl.
  - intros [H|[]]; auto.
  - destruct (String.eqb k0 key).
    + intros [H|H]; auto.
    + intros [H|H]; auto. destruct (IH H); auto.
Qed.

Lemma store_delete_In key (s : Positions) k p :
  In (k, p) (store_delete key s) -> In (k, p) s.
Proof.
  induction s as [|[k0 p0] s IH]; simpl; [tauto|].
  destruct (String.eqb k0 key); simpl; intuition.
Qed.

Lemma update_active_In tok st (s : Positions) k p' :
  In (k, p') (update_active tok st s) ->
  In (k, p') s \/ exists p, In (k, p) s /\ p' = exec st p.
Proof.
  induction s as [|[k0 p0] s IH]; simpl; [tauto|].
  destruct (is_active_for tok p0); simpl.
  - intros [H|H]; [|auto]. injection H as -> <-. right. eauto.
  - intros [H|H]; [auto|]. destruct (IH H) as [?|(p & ? & ?)]; eauto.
Qed.

(** The entry that [findActivePosition] returns is the one that
    [update_active] rewrites; the entries around it stay. *)
Lemma update_active_found tok st (s : Positions) p :
  findActivePosition s tok = Some p ->
  exists pre k post,
    s = (pre ++ (k, p) :: post)%list
    /\ findActivePosition pre tok = None
    /\ update_active tok st s = (pre ++ (k, exec st p) :: post)%list.
Proof.
  unfold findActivePosition, values.
  induction s as [|[k0 p0] s IH]; simpl; [discriminate|].
  destruct (is_active_for tok p0) eqn:E.
  - intros [= ->]. exists [], k0, s. auto.
  - intros H. destruct (IH H) as (pre & k & post & -> & Hn & Hu).
    exists ((k0, p0) :: pre), k, post. simpl. rewrite E, Hu. auto.
Qed.

Lemma findActivePosition_none_count s tok :
  findActivePosition s tok = None <-> active_count tok s = 0%nat.
Proof.
  unfold findActivePosition, active_count.
  induction (values s) as [|p l IH]; simpl; [tauto|].
  destruct (is_active_for tok p); simpl; [split; discriminate|exact IH].
Qed.

(** *** Loading *)

Lemma store_set_keys_incl key v (s : Positions) k :
  In k (map fst (store_set key v s)) <-> k = key \/ In k (map fst s).
Proof.
  induction s as [|[k0 p0] s IH]; simpl.
  - intuition.
  - destruct (String.eqb k0 key) eqn:E; simpl.
    + apply String.eqb_eq in E. subst. intuition.
    + rewrite IH. intuition.
Qed.

Lemma store_set_NoDup key v (s : Positions) :
  NoDup (map fst s) -> NoDup (map fst (store_set key v s)).
Proof.
  induction s as [|[k0 p0] s IH]; simpl; intros H.
  - constructor; [intros []|constructor].
  - inversion H as [|? ? Hn Hd]; subst.
    destruct (String.eqb k0 key) eqn:E; simpl.
    + apply String.eqb_eq in E. subst. now constructor.
    + constructor; [|auto]. rewrite store_set_keys_incl. intros [->|Hin]; [|auto].
      now rewrite String.eqb_refl in E.
Qed.

Lemma store_set_well_keyed v (s : Positions) :
  well_keyed s -> well_keyed (store_set (id v) v s).
Proof.
  intros [Hd Hk]. split; [now apply store_set_NoDup|].
  apply Forall_forall. intros [k p] Hin. apply store_set_In in Hin.
  destruct Hin as [[= -> ->]|Hin]; [reflexivity|].
  rewrite Forall_forall in Hk. exact (Hk _ Hin).
Qed.

Lemma fold_left_invariant {A B} (P : A -> Prop) (f : A -> B -> A) (l : list B) (a : A) :
  P a -> (forall a b, In b l -> P a -> P (f a b)) -> P (fold_left f l a).
Proof.
  revert a. induction l as [|b l IH]; simpl; intros a Ha Hf; [exact Ha|].
  apply IH; [apply Hf; auto|]. intros; apply Hf; auto.
Qed.

Lemma loadPositions_well_keyed (file : PositionFile) : well_keyed (loadPositions file).
Proof.
  unfold loadPositions. apply fold_left_invariant.
  - split; constructor.
  - intros a [k e] _ Ha. now apply store_set_well_keyed.
Qed.

Lemma orZero_amount (o : option number) : o <> Some NaN -> orZero o = amount o.
Proof.
  destruct o as [v|]; [|reflexivity]. intros H. rewrite orZero_Some. simpl.
  destruct v; try reflexivity. congruence.
Qed.

(** The cases of [migrate]: whether the entry has an identifier, a
    [capital_reduction_usd] and an [initial_value_usd]. *)
Ltac migrate_cases e :=
  unfold migrate;
  destruct (String.eqb (id (stored e)) "") eqn:?,
           (capital_reduction_usd e) eqn:?;
  cbn [initial_value_usd_field set_withdrawn_usd set_token set_id];
  destruct (initial_value_usd_field (stored e)) eqn:?;
  cbn.

Lemma migrate_fields key e :
  initial_value_usd_field (migrate key e) = initial_value_usd_field (stored e)
  /\ capital_additions_usd (migrate key e) = capital_additions_usd (stored e).
Proof.
  unfold migrate.
  destruct (String.eqb (id (stored e)) ""), (capital_reduction_usd e);
    cbn [initial_value_usd_field capital_additions_usd set_withdrawn_usd
         set_token set_id];
    destruct (initial_value_usd_field (stored e)) eqn:E; cbn; rewrite ?E; split;
    reflexivity.
Qed.

(** The total is recomputed for an entry that has an [initial_value_usd]
    and left as it is for one that has none. *)
Lemma migrate_total key e :
  initial_value_usd_field (stored e) = None
  \/ total_invested_usd (migrate key e)
     = Some (add (initial_value_usd (stored e))
                 (orZero (capital_additions_usd (stored e)))).
Proof.
  unfold migrate, initial_value_usd.
  destruct (String.eqb (id (stored e)) ""), (capital_reduction_usd e);
    cbn [initial_value_usd_field capital_additions_usd set_withdrawn_usd
         set_token set_id];
    destruct (initial_value_usd_field (stored e)) eqn:E; auto.
Qed.

Lemma initial_value_usd_read (p q : Position) :
  initial_value_usd_field p = initial_value_usd_field q ->
  initial_value_usd p = initial_value_usd q.
Proof. unfold initial_value_usd. now intros ->. Qed.

(** What [loadPositions] guarantees for every position it returns. *)
Lemma loadPositions_total (file : PositionFile) k p :
  In (k, p) (loadPositions file) ->
  (initial_value_usd_field p = None
   \/ total_invested_usd p
      = Some (add (initial_value_usd p) (orZero (capital_additions_usd p))))
  /\ exists key e, In (key, e) file
                  /\ capital_additions_usd p = capital_additions_usd (stored e)
                  /\ initial_value_usd_field p = initial_value_usd_field (stored e).
Proof.
  unfold loadPositions. revert k p.
  apply (fold_left_invariant
           (fun s : Positions => forall k p, In (k, p) s ->
              (initial_value_usd_field p = None
               \/ total_invested_usd p
                  = Some (add (initial_value_usd p)
                              (orZero (capital_additions_usd p))))
              /\ exists key e, In (key, e) file
                  /\ capital_additions_usd p = capital_additions_usd (stored e)
                  /\ initial_value_usd_field p
                     = initial_value_usd_field (stored e))).
  - intros k p [].
  - intros a [key e] Hin Ha k p H. apply store_set_In in H.
    destruct H as [[= -> ->]|H]; [|now apply (Ha k p)].
    destruct (migrate_fields key e) as [Ei Ea]. split; [|eauto].
    rewrite Ei, Ea, (initial_value_usd_read _ _ Ei).
    apply migrate_total.
Qed.

(** ** PnL engine *)

Lemma finite_amounts_inv (p : Position) :
  finite_amounts p = true ->
  exists i f a w,
    initial_value_usd p = Fin i /\ fees_claimed_usd p = Fin f
    /\ orZero (capital_additions_usd p) = Fin a
    /\ orZero (withdrawn_usd p) = Fin w.
Proof.
  unfold finite_amounts. rewrite !andb_true_iff. intros [[[Hi Hf] Ha] Hw].
  apply isFinite_Fin in Hi, Hf, Ha, Hw.
  destruct Hi as [i ->], Hf as [f ->], Ha as [a ->], Hw as [w ->].
  eauto 10.
Qed.

(** C1. For every position and current value, [calculatePnl] returns
    unrealized = current - (totalInvested - withdrawn), realized =
    withdrawn + fees and total = (current + withdrawn + fees) - (initial +
    additions), where totalInvested = initial + additions and a missing
    [capital_additions_usd] or [withdrawn_usd] counts as 0; the position
    object is the same after the call. *)
Theorem calculatePnl_formulas
  (solPriceUSD currentValueUSD : number) (p : Position) :
  let r := eval (calculatePnl solPriceUSD currentValueUSD) p in
  let additions := orZero (capital_additions_usd p) in
  let withdrawn := orZero (withdrawn_usd p) in
  let fees := fees_claimed_usd p in
  Pnl.total_invested_usd r = add (initial_value_usd p) additions
  /\ Pnl.unrealized_pnl_usd r
     = sub currentValueUSD (sub (Pnl.total_invested_usd r) withdrawn)
  /\ Pnl.realized_pnl_usd r = add withdrawn fees
  /\ Pnl.total_pnl_usd r
     = sub (add (add currentValueUSD withdrawn) fees)
           (add (initial_value_usd p) additions)
  /\ orZero None = zero
  /\ (forall v, orZero (Some v) = if isNaN v then zero else v)
  /\ exec (calculatePnl solPriceUSD currentValueUSD) p = p.
Proof.
  cbv zeta. repeat split. apply orZero_Some.
Qed.

(** C4. If the total invested is 0 the percentage is exactly 0, whatever
    the current value; this holds for the total that [calculatePnl] computes
    and, in a loaded store, for the [total_invested_usd] that the position
    holds.  If the SOL price is not greater than 0 (it is 0, negative or
    [NaN]) every SOL field is exactly 0: neither quotient is taken when its
    divisor is not positive. *)
Theorem division_guards
  (solPriceUSD currentValueUSD : number) (p : Position) :
  let r := eval (calculatePnl solPriceUSD currentValueUSD) p in
  (Pnl.total_invested_usd r = zero -> Pnl.pnl_percentage r = zero)
  /\ (forall file k,
         In (k, p) (loadPositions file) -> total_invested_usd p = Some zero ->
         Pnl.pnl_percentage r = zero)
  /\ (gtb solPriceUSD zero = false -> Forall (eq zero) (sol_fields r)).
Proof.
  cbv zeta. unfold calculatePnl, eval, bind, read, ret. simpl. repeat split.
  - intros ->. reflexivity.
  - intros file k Hin Hzero. apply loadPositions_total in Hin.
    destruct Hin as [[Hnone|Ht] _].
    + unfold initial_value_usd. rewrite Hnone. reflexivity.
    + rewrite Ht in Hzero. injection Hzero as ->. reflexivity.
  - intros ->. unfold sol_fields. simpl. repeat constructor.
Qed.

(** A position in which nothing is invested, valued at 40 while the price
    is unavailable. *)
Lemma division_guards_witness :
  let p := mkPosition "tok_1_a" "tok" (Some zero) zero 1 1 None None (Some zero)
             None None None None None None in
  let r := eval (calculatePnl NaN (of_Z 40)) p in
  loadPositions [("tok_1_a", mkStored p None None)] = [("tok_1_a", p)]
  /\ Pnl.pnl_percentage r = zero
  /\ Forall (eq zero) (sol_fields r).
Proof.
  intros p r.
  destruct (division_guards NaN (of_Z 40) p) as (H1 & H2 & H3).
  assert (Hload : loadPositions [("tok_1_a", mkStored p None None)]
                  = [("tok_1_a", p)]) by num_eq.
  split; [exact Hload|].
  split; [apply (H2 [("tok_1_a", mkStored p None None)] "tok_1_a");
          [rewrite Hload; now left|reflexivity]|].
  apply H3; reflexivity.
Defined.

Lemma representable_Fin (x : number) : representable x = true -> exists q, x = Fin q.
Proof. destruct x; try discriminate. eauto. Qed.

Lemma exact_pnl_inv (c : number) (p : Position) :
  exact_pnl c p = true ->
  exists i f a w q,
    initial_value_usd p = Fin i /\ fees_claimed_usd p = Fin f
    /\ orZero (capital_additions_usd p) = Fin a
    /\ orZero (withdrawn_usd p) = Fin w /\ c = Fin q.
Proof.
  unfold exact_pnl, pnl_sums. cbv zeta. cbn [forallb].
  rewrite !andb_true_iff.
  intros (Hi & Ha & Hw & Hf & Hc & _).
  apply representable_Fin in Hi, Ha, Hw, Hf, Hc.
  destruct Hi as [i Hi], Ha as [a Ha], Hw as [w Hw], Hf as [f Hf], Hc as [q Hc].
  exists i, f, a, w, q. auto.
Qed.

(** C10, as the code has it.  Where no sum of [calculatePnl] is rounded
    (every amount and every sum and difference is a binary64 value, and so
    is unrealized + realized), total PnL = unrealized + realized - withdrawn
    (a missing [withdrawn_usd] counting as 0): the total equals the sum of
    unrealized and realized PnL exactly when nothing has been withdrawn, and
    is strictly smaller when the withdrawn amount is positive. *)
Theorem total_pnl_decomposition
  (solPriceUSD currentValueUSD : number) (p : Position) :
  exact_pnl currentValueUSD p = true ->
  let r := eval (calculatePnl solPriceUSD currentValueUSD) p in
  let withdrawn := orZero (withdrawn_usd p) in
  let sum := add (Pnl.unrealized_pnl_usd r) (Pnl.realized_pnl_usd r) in
  representable sum = true ->
  Pnl.total_pnl_usd r = sub sum withdrawn
  /\ (Pnl.total_pnl_usd r = sum <-> withdrawn = zero)
  /\ (gtb withdrawn zero = true -> ltb (Pnl.total_pnl_usd r) sum = true).
Proof.
  intros Hp. apply exact_pnl_inv in Hp.
  destruct Hp as (i & f & a & w & c & Hi & Hf & Ha & Hw & ->).
  cbv zeta. intros _. unfold calculatePnl, eval, bind, read, ret. simpl.
  rewrite Hi, Hf, Ha, Hw. simpl.
  split; [f_equal; ring|]. split.
  - split.
    + intros H. apply Fin_inj in H. unfold zero, of_Z. f_equal.
      change (Q2Qc (inject_Z 0)) with (Q2Qc 0).
      assert (E : (w = (c + - (i + a + - w) + (w + f))
                       - (c + w + f + - (i + a)))%Qc) by ring.
      rewrite E, H. ring.
    + intros H. apply Fin_inj in H. f_equal.
      change (Q2Qc (inject_Z 0)) with (Q2Qc 0) in H. subst w. ring.
  - unfold gtb. simpl. rewrite !q_ltb_lt. intros H.
    apply Qclt_minus_iff.
    assert (E : (c + - (i + a + - w) + (w + f)
                 + - (c + w + f + - (i + a)) = w)%Qc) by ring.
    rewrite E. exact H.
Qed.

(** The scenario position valued at 400: unrealized 150, realized 55,
    total 155 = 150 + 55 - 50. *)
Lemma total_pnl_decomposition_witness :
  let r := eval (calculatePnl (of_Z 185) (of_Z 400)) scenario_position in
  exact_pnl (of_Z 400) scenario_position = true
  /\ Pnl.total_pnl_usd r
     = sub (add (Pnl.unrealized_pnl_usd r) (Pnl.realized_pnl_usd r)) (of_Z 50)
  /\ ltb (Pnl.total_pnl_usd r)
         (add (Pnl.unrealized_pnl_usd r) (Pnl.realized_pnl_usd r)) = true.
Proof.
  intros r.
  destruct (total_pnl_decomposition (of_Z 185) (of_Z 400) scenario_position
              eq_refl eq_refl) as (H1 & _ & H3).
  split; [reflexivity|]. split; [exact H1|apply H3; reflexivity].
Defined.

(** C10, as stated, fails in the arithmetic of the code.  With 0.2
    invested, fees of 0.1 and a current value of 0.3, and nothing withdrawn,
    the total PnL is 0.2 while unrealized + realized is
    0.19999999999999998; with 1e-17 withdrawn the total is not below that
    sum. *)
Lemma total_pnl_decomposition_counterexample :
  let r := Double.calculatePnl Double.three_tenths
             (Double.small_position PrimFloat.zero) in
  let r' := Double.calculatePnl Double.three_tenths
              (Double.small_position Double.tiny) in
  PrimFloat.eqb (Double.total_pnl_usd r)
    (PrimFloat.sub
       (PrimFloat.add (Double.unrealized_pnl_usd r) (Double.realized_pnl_usd r))
       PrimFloat.zero) = false
  /\ PrimFloat.ltb
       (PrimFloat.add (Double.unrealized_pnl_usd r) (Double.realized_pnl_usd r))
       (Double.total_pnl_usd r) = true
  /\ PrimFloat.ltb PrimFloat.zero Double.tiny = true
  /\ PrimFloat.ltb (Double.total_pnl_usd r')
       (PrimFloat.add (Double.unrealized_pnl_usd r')
          (Double.realized_pnl_usd r')) = false.
Proof. cbv zeta. repeat split; vm_compute; reflexivity. Qed.
(** ** Suggestion engine *)

Ltac split_rules :=
  repeat match goal with
         | |- context [if ?c then _ else _] => destruct c
         end.

(** C5. The fee-risk rule is tried first.  When unrealized PnL is above
    10, realized / unrealized is above 0.8 and the percentage is at least
    25, the suggestion is TAKE_PROFIT with HIGH confidence and the fee-risk
    reason, which quotes the fee ratio and is not the reason of the
    percentage rule.  A suggestion with the fee-risk reason is only given
    when unrealized PnL is above 10, hence positive; when it is not above
    10 the ratio plays no part and a percentage of at least 25 gives the
    percentage-based TAKE_PROFIT. *)
Theorem fee_risk_rule_first
  (now : Z) (position : Position) (pnlData : PnlData) :
  let u := Pnl.unrealized_pnl_usd pnlData in
  let r := Pnl.realized_pnl_usd pnlData in
  let pct := Pnl.pnl_percentage pnlData in
  let s := generateSuggestion now position pnlData in
  let excellent :=
    "Excellent " ++ toFixed 1 pct
      ++ "% return! Consider taking partial profits to secure gains." in
  (gtb u (of_Z 10) = true -> gtb (div r u) (ratio 8 10) = true ->
   geb pct (of_Z 25) = true ->
   s = mkSuggestion TAKE_PROFIT
         ("High fees earned (" ++ toFixed 0 (mul (div r u) (of_Z 100))
            ++ "% of unrealized gains). Secure profits before market turns.")
         HIGH
   /\ reason s <> excellent)
  /\ (String.prefix "High fees earned" (reason s) = true ->
      gtb u (of_Z 10) = true /\ gtb u zero = true)
  /\ (gtb u (of_Z 10) = false -> geb pct (of_Z 25) = true ->
      s = mkSuggestion TAKE_PROFIT excellent HIGH).
Proof.
  cbv zeta. unfold generateSuggestion.
  change THRESHOLDS.HIGH_FEES_RATIO with (ratio 8 10).
  change THRESHOLDS.TAKE_PROFIT with (of_Z 25).
  assert (first_rule :
    String.prefix "High fees earned"
      (reason (generateSuggestion now position pnlData)) = true ->
    gtb (Pnl.unrealized_pnl_usd pnlData) (of_Z 10) = true).
  { unfold generateSuggestion.
    destruct (gtb (Pnl.unrealized_pnl_usd pnlData) (of_Z 10)); [reflexivity|].
    split_rules; simpl; discriminate. }
  split; [|split].
  - intros Hu Hr Hp. rewrite Hu, Hr. split; [reflexivity|simpl; discriminate].
  - intros H. apply first_rule in H. split; [exact H|].
    unfold gtb in *. eapply ltb_trans; [|exact H]. reflexivity.
  - intros Hu Hp. rewrite Hu, Hp. reflexivity.
Qed.

(** Unrealized 20 and realized 18 give the ratio 0.9 at 30 percent: the
    fee-risk path.  Unrealized 5 at 30 percent: the percentage path. *)
Lemma fee_risk_rule_first_witness :
  generateSuggestion 0 scenario_position
    (pnl_with (of_Z 20) (of_Z 18) (of_Z 30))
  = mkSuggestion TAKE_PROFIT
      "High fees earned (90% of unrealized gains). Secure profits before market turns."
      HIGH
  /\ gtb (of_Z 20) zero = true
  /\ generateSuggestion 0 scenario_position
       (pnl_with (of_Z 5) (of_Z 18) (of_Z 30))
     = mkSuggestion TAKE_PROFIT
         "Excellent 30.0% return! Consider taking partial profits to secure gains."
         HIGH.
Proof.
  destruct (fee_risk_rule_first 0 scenario_position
              (pnl_with (of_Z 20) (of_Z 18) (of_Z 30))) as (H1 & H2 & _).
  destruct (fee_risk_rule_first 0 scenario_position
              (pnl_with (of_Z 5) (of_Z 18) (of_Z 30))) as (_ & _ & H3).
  split; [apply H1; reflexivity|].
  split; [apply H2; reflexivity|apply H3; reflexivity].
Defined.

(** ** Aggregate reporting *)

Lemma win_not_loss p : is_win p = true -> is_loss p = false.
Proof.
  unfold is_win, is_loss, gtb.
  destruct (closed_pnl p) as [q| | |]; simpl; try discriminate; try reflexivity.
  unfold q_ltb. simpl. intros H. apply Z.ltb_lt in H. apply Z.ltb_ge. lia.
Qed.

Lemma tally_counts (l : list Position) (t : Tally) :
  let t' := fold_left tally_step l t in
  t_winningPositions t' = (t_winningPositions t + List.length (filter is_win l))%nat
  /\ t_losingPositions t' = (t_losingPositions t + List.length (filter is_loss l))%nat
  /\ t_totalWinPnlUSD t' = sum_from (t_totalWinPnlUSD t) (map closed_pnl (filter is_win l))
  /\ t_totalLossPnlUSD t' = sum_from (t_totalLossPnlUSD t) (map closed_pnl (filter is_loss l)).
Proof.
  revert t. induction l as [|p l IH]; intros t; cbn zeta.
  - simpl. repeat split; lia.
  - cbn [fold_left filter]. specialize (IH (tally_step t p)). cbn zeta in IH.
    destruct IH as (Hw & Hl & Hsw & Hsl).
    rewrite Hw, Hl, Hsw, Hsl. unfold tally_step.
    fold (closed_pnl p). fold (is_win p). fold (is_loss p).
    destruct (is_win p) eqn:Ew.
    + rewrite (win_not_loss p Ew). cbn. repeat split; lia.
    + destruct (is_loss p) eqn:El; cbn; repeat split; lia.
Qed.





Lemma of_nat_pos (k : nat) : (0 < k)%nat -> (Q2Qc 0 < Q2Qc (inject_Z (Z.of_nat k)))%Qc.
Proof.
  intros H. unfold Qclt. cbn [this Q2Qc]. apply Qred_lt.
  unfold Qlt. simpl. lia.
Qed.

Lemma Qc_pos_nonzero (q : Qc) :
  (Q2Qc 0 < q)%Qc -> q_zero q = false /\ q_neg q = false /\ q_pos q = true.
Proof.
  unfold Qclt, Qlt, q_zero, q_neg, q_pos. simpl. intros H.
  rewrite Z.eqb_neq, Z.ltb_ge, Z.ltb_lt. lia.
Qed.




Lemma div_of_nat (k n : nat) :
  (0 < n)%nat ->
  div (of_nat k) (of_nat n)
  = Fin (Q2Qc (inject_Z (Z.of_nat k)) / Q2Qc (inject_Z (Z.of_nat n)))%Qc.
Proof.
  intros H. unfold of_nat, of_Z, div.
  destruct (Qc_pos_nonzero _ (of_nat_pos _ H)) as (-> & _ & _). reflexivity.
Qed.




(** ** Commands *)

Ltac command_cases H :=
  repeat match type of H with
         | (if ?c then _ else _) = _ => destruct c eqn:?
         | match ?x with _ => _ end = _ => destruct x eqn:?
         | Exit1 _ = Saved _ => discriminate H
         | Shown = Saved _ => discriminate H
         | Saved _ = Saved _ => injection H as <-
         end.

(** A run that saves goes through one of the commands. *)
Lemma main_saved env args file saved :
  main env args file = Saved saved ->
  let positions := loadPositions file in
  cmd_clean positions = Saved saved
  \/ cmd_remove args positions = Saved saved
  \/ cmd_reset env args positions = Saved saved
  \/ cmd_claim_fee env args positions = Saved saved
  \/ cmd_add_capital env args positions = Saved saved
  \/ cmd_withdraw env args positions = Saved saved
  \/ cmd_close env args positions = Saved saved
  \/ (exists command, cmd_record env command args positions = Saved saved).
Proof.
  unfold main. destruct args as [|a0 rest]; [discriminate|].
  cbv zeta.
  repeat match goal with
         | |- (if ?c then _ else _) = _ -> _ => destruct c
         | |- Shown = _ -> _ => discriminate
         end; intros H; eauto 12.
Qed.

(** A property of single positions that new positions have and that the
    statements of every command keep holds for every saved position once
    it holds for every loaded one. *)
Section Preservation.

Variable P : Position -> Prop.

Hypothesis P_new : forall env tok v, P (initializePosition env tok v).
Hypothesis P_claim_fee :
  forall env x p, P p -> P (exec (claim_fee_statements env x) p).
Hypothesis P_record :
  forall env x p, P p -> P (exec (record_statements env x) p).
Hypothesis P_add_capital :
  forall env x p, P p -> P (exec (add_capital_statements env x) p).
Hypothesis P_withdraw :
  forall env x p, P p -> P (exec (withdraw_statements env x) p).
Hypothesis P_close :
  forall env x y p, P p -> P (exec (close_statements env x y) p).

Lemma update_active_all tok st s :
  (forall p, P p -> P (exec st p)) ->
  all_positions P s -> all_positions P (update_active tok st s).
Proof.
  intros Hst Hs k p' H. apply update_active_In in H.
  destruct H as [H|(p & H & ->)]; [eauto|]. apply Hst. eauto.
Qed.

Lemma store_set_all key v s :
  P v -> all_positions P s -> all_positions P (store_set key v s).
Proof.
  intros Hv Hs k p H. apply store_set_In in H.
  destruct H as [[= -> ->]|H]; eauto.
Qed.

Lemma store_delete_all key s :
  all_positions P s -> all_positions P (store_delete key s).
Proof. intros Hs k p H. apply store_delete_In in H. eauto. Qed.

Lemma clean_all s saved :
  cmd_clean s = Saved saved -> all_positions P s -> all_positions P saved.
Proof.
  unfold cmd_clean. intros [= <-] Hs.
  apply (fold_left_invariant (all_positions P)).
  - intros k p [].
  - intros a [key p] Hin Ha. cbv beta iota.
    match goal with |- all_positions _ (if ?c then _ else _) => destruct c end;
      [exact Ha|].
    apply store_set_all; [eauto|exact Ha].
Qed.

Lemma main_keeps env args file saved :
  all_positions P (loadPositions file) ->
  main env args file = Saved saved ->
  all_positions P saved.
Proof.
  intros Hs H. apply main_saved in H. cbv zeta in H.
  destruct H as [H|[H|[H|[H|[H|[H|[H|[command H]]]]]]]].
  - now apply (clean_all _ _ H).
  - unfold cmd_remove in H. command_cases H. now apply store_delete_all.
  - unfold cmd_reset in H. command_cases H.
    apply store_set_all; [apply P_new|]. now apply store_delete_all.
  - unfold cmd_claim_fee in H. command_cases H.
    apply update_active_all; [apply P_claim_fee|exact Hs].
  - unfold cmd_add_capital in H. command_cases H.
    apply update_active_all; [apply P_add_capital|exact Hs].
  - unfold cmd_withdraw in H. command_cases H.
    apply update_active_all; [apply P_withdraw|exact Hs].
  - unfold cmd_close in H. command_cases H;
      (apply update_active_all; [apply P_close|exact Hs]).
  - unfold cmd_record in H. command_cases H;
      try (apply update_active_all; [apply P_record|exact Hs]);
      (apply store_set_all; [apply P_new|exact Hs]).
Qed.

End Preservation.











Lemma gtb_zero_valid (x : number) :
  gtb x zero = true -> isNaN x = false /\ leb x zero = false.
Proof.
  unfold gtb. destruct x as [q| | |]; simpl; try discriminate; auto.
  unfold q_ltb, q_leb. simpl. intros H. apply Z.ltb_lt in H.
  split; [reflexivity|]. apply Z.leb_gt. lia.
Qed.






(** C3. [close] on an active position first adds the final fees to
    [fees_claimed_usd], then stores final PnL = (exit + withdrawn + fees) -
    (initial + additions) with the fees just updated, the percentage of that
    PnL over initial + additions (0 when that is not positive), [is_closed],
    [closed_at] and [exit_value_usd].  Closing the scenario position at 500
    with final fees 10 gives fees 15, final PnL 265 and 265/300*100 percent,
    shown as 88.33. *)
Theorem close_stores_final_pnl :
  (forall env file tok exitArg more p,
      let positions := loadPositions file in
      let exitValueUSD := parseFloat exitArg in
      let finalFeesUSD :=
        match more with a3 :: _ => parseFloat a3 | [] => zero end in
      let statements := close_statements env exitValueUSD finalFeesUSD in
      let p' := exec statements p in
      let invested :=
        add (initial_value_usd p) (amount (capital_additions_usd p)) in
      let pnl :=
        sub (add (add exitValueUSD (orZero (withdrawn_usd p)))
                 (add (fees_claimed_usd p) finalFeesUSD))
            invested in
      findActivePosition positions (toLowerCase tok) = Some p ->
      gtb exitValueUSD zero = true ->
      isNaN finalFeesUSD = false ->
      main env ("close" :: tok :: exitArg :: more) file
      = Saved (update_active (toLowerCase tok) statements positions)
      /\ (exists pre k post,
             positions = (pre ++ (k, p) :: post)%list
             /\ update_active (toLowerCase tok) statements positions
                = (pre ++ (k, p') :: post)%list)
      /\ fees_claimed_usd p' = add (fees_claimed_usd p) finalFeesUSD
      /\ final_pnl_usd p' = Some pnl
      /\ final_pnl_percentage p'
         = Some (if gtb invested zero
                 then mul (div pnl invested) (of_Z 100) else zero)
      /\ is_closed p' = Some true
      /\ closed_at p' = Some (now env)
      /\ exit_value_usd p' = Some exitValueUSD)
  /\ (exists p',
         main scenario_env ["close"; "tok"; "500"; "10"] scenario_file
         = Saved [("tok_1000_abc", p')]
         /\ fees_claimed_usd p' = of_Z 15
         /\ final_pnl_usd p' = Some (of_Z 265)
         /\ final_pnl_percentage p'
            = Some (mul (div (of_Z 265) (of_Z 300)) (of_Z 100))
         /\ option_map (toFixed 2) (final_pnl_percentage p') = Some "88.33"
         /\ is_closed p' = Some true
         /\ closed_at p' = Some 5000%Z
         /\ exit_value_usd p' = Some (of_Z 500)).
Proof.
  split.
  - intros env file tok exitArg more p positions exitValueUSD finalFeesUSD
           statements p' invested pnl Hfind Hpos Hfees.
    destruct (gtb_zero_valid _ Hpos) as [Hnan Hle].
    destruct (update_active_found _ statements _ _ Hfind)
      as (pre & k & post & Hs & _ & Hu).
    split.
    { change (main env ("close" :: tok :: exitArg :: more) file)
        with (cmd_close env ("close" :: tok :: exitArg :: more) positions).
      unfold cmd_close. fold exitValueUSD finalFeesUSD.
      rewrite Hfees, Hnan, Hle, Hfind. reflexivity. }
    split; [eauto|].
    subst p' statements pnl invested. clear.
    destruct p as [? ? ? ? ? ? [a|] [w|] ? ? ? ? ? ?]; unfold exec; simpl;
      repeat split; reflexivity.
  - eexists. split; [reflexivity|].
    repeat split; try reflexivity; num_eq.
Qed.

(** Closing the scenario position at 500 with final fees 10. *)
Lemma close_stores_final_pnl_witness :
  let statements :=
    close_statements scenario_env (parseFloat "500") (parseFloat "10") in
  main scenario_env ["close"; "tok"; "500"; "10"] scenario_file
  = Saved (update_active "tok" statements (loadPositions scenario_file))
  /\ Forall (fun entry => is_closed (snd entry) = Some true)
       (update_active "tok" statements (loadPositions scenario_file)).
Proof.
  intros statements.
  destruct close_stores_final_pnl as [H _].
  destruct (H scenario_env scenario_file "tok" "500" ["10"] _
              eq_refl eq_refl eq_refl)
    as (Hmain & _ & _ & _ & _ & Hclosed & _).
  split; [exact Hmain|].
  apply Forall_forall. intros [k p] [[= <- <-]|[]]. exact Hclosed.
Defined.

(** ** One active position per token *)

Lemma lower_ascii_idem (c : ascii) : lower_ascii (lower_ascii c) = lower_ascii c.
Proof. destruct c as [[] [] [] [] [] [] [] []]; reflexivity. Qed.

Lemma toLowerCase_idem (s : string) : toLowerCase (toLowerCase s) = toLowerCase s.
Proof.
  induction s as [|c s IH]; simpl; [reflexivity|].
  now rewrite lower_ascii_idem, IH.
Qed.

Lemma is_active_for_lower tok p :
  is_active_for (toLowerCase tok) p = is_active_for tok p.
Proof. unfold is_active_for. now rewrite toLowerCase_idem. Qed.

Lemma is_active_for_same tok tok' p :
  toLowerCase tok' = toLowerCase tok -> is_active_for tok' p = is_active_for tok p.
Proof. unfold is_active_for. now intros ->. Qed.

Lemma active_count_cons tok k p s :
  active_count tok ((k, p) :: s)
  = (count_if (is_active_for tok p) + active_count tok s)%nat.
Proof.
  unfold active_count. simpl. destruct (is_active_for tok p); reflexivity.
Qed.

Lemma active_count_delete_le tok key s :
  (active_count tok (store_delete key s) <= active_count tok s)%nat.
Proof.
  induction s as [|[k p] s IH]; simpl; [lia|].
  destruct (String.eqb k key); rewrite !active_count_cons; lia.
Qed.

Lemma active_count_set_le tok key v s :
  (active_count tok (store_set key v s)
   <= active_count tok s + count_if (is_active_for tok v))%nat.
Proof.
  induction s as [|[k p] s IH]; simpl.
  - rewrite active_count_cons. unfold active_count. simpl. lia.
  - destruct (String.eqb k key); rewrite !active_count_cons; lia.
Qed.

Lemma active_count_update_le tok tok' st s :
  (forall p, is_active_for tok' (exec st p) = true -> is_active_for tok' p = true) ->
  (active_count tok' (update_active tok st s) <= active_count tok' s)%nat.
Proof.
  intros Hst. induction s as [|[k p] s IH]; simpl; [lia|].
  destruct (is_active_for tok p); rewrite !active_count_cons; [|lia].
  specialize (Hst p).
  destruct (is_active_for tok' (exec st p)), (is_active_for tok' p); simpl;
    try lia; discriminate Hst; reflexivity.
Qed.

(** In a well-keyed store, deleting the key of an active position removes
    that position. *)
Lemma active_count_delete_active tok k p s :
  well_keyed s -> In (k, p) s -> is_active_for tok p = true ->
  (active_count tok (store_delete (id p) s) + 1 = active_count tok s)%nat.
Proof.
  intros [Hd Hk]. induction s as [|[k0 p0] s IH]; simpl; [tauto|].
  inversion Hd as [|? ? Hn Hd']; subst. inversion Hk as [|? ? Hk0 Hk']; subst.
  simpl in Hk0. intros Hin Ha. rewrite active_count_cons.
  destruct (String.eqb k0 (id p)) eqn:E.
  - apply String.eqb_eq in E.
    destruct Hin as [[= -> ->]|Hin]; [rewrite Ha; simpl; lia|].
    exfalso. apply Hn. rewrite Forall_forall in Hk'. specialize (Hk' _ Hin).
    simpl in Hk'. rewrite E, <- Hk'. now apply (in_map fst) in Hin.
  - rewrite active_count_cons.
    destruct Hin as [[= -> ->]|Hin].
    + simpl in Hk0. subst. now rewrite String.eqb_refl in E.
    + specialize (IH Hd' Hk' Hin Ha). lia.
Qed.

Lemma findActivePosition_In s tok p :
  findActivePosition s tok = Some p ->
  is_active_for tok p = true /\ exists k, In (k, p) s.
Proof.
  unfold findActivePosition, values. intros H. apply find_some in H.
  destruct H as [Hin Ha]. split; [exact Ha|].
  apply in_map_iff in Hin. destruct Hin as ([k p0] & <- & Hin). eauto.
Qed.

Lemma initializePosition_active env tok v tok' :
  is_active_for tok' (initializePosition env tok v)
  = String.eqb (toLowerCase tok) (toLowerCase tok').
Proof. unfold is_active_for. simpl. now rewrite andb_true_r. Qed.

Lemma no_active_same s tok tok' :
  findActivePosition s tok = None ->
  toLowerCase tok' = toLowerCase tok -> active_count tok' s = 0%nat.
Proof.
  intros Hnone E. apply findActivePosition_none_count in Hnone.
  unfold active_count in *. rewrite <- Hnone.
  f_equal. apply filter_ext. intros p. now apply is_active_for_same.
Qed.

(** Storing a new position for a token that has no active position. *)
Lemma create_at_most_one env tok v key s :
  at_most_one_active s ->
  (forall tok', toLowerCase tok' = toLowerCase tok -> active_count tok' s = 0%nat) ->
  at_most_one_active (store_set key (initializePosition env tok v) s).
Proof.
  intros Hs Hnone tok'.
  pose proof (active_count_set_le tok' key (initializePosition env tok v) s) as Hle.
  rewrite initializePosition_active in Hle.
  destruct (String.eqb (toLowerCase tok) (toLowerCase tok')) eqn:E.
  - apply String.eqb_eq in E. symmetry in E.
    rewrite (Hnone _ E) in Hle. simpl in Hle. lia.
  - specialize (Hs tok'). simpl in Hle. lia.
Qed.

Lemma delete_at_most_one key s :
  at_most_one_active s -> at_most_one_active (store_delete key s).
Proof.
  intros Hs tok. pose proof (active_count_delete_le tok key s).
  specialize (Hs tok). lia.
Qed.

Lemma update_at_most_one tok st s :
  (forall tok' p, is_active_for tok' (exec st p) = true -> is_active_for tok' p = true) ->
  at_most_one_active s -> at_most_one_active (update_active tok st s).
Proof.
  intros Hst Hs tok'.
  pose proof (active_count_update_le tok tok' st s (Hst tok')).
  specialize (Hs tok'). lia.
Qed.

Lemma clean_at_most_one s saved :
  cmd_clean s = Saved saved -> at_most_one_active s -> at_most_one_active saved.
Proof.
  unfold cmd_clean. intros [= <-] Hs tok.
  match goal with |- context [fold_left ?f _ _] => set (step := f) end.
  enough (H : forall l acc,
             (active_count tok (fold_left step l acc)
              <= active_count tok acc + active_count tok l)%nat).
  { eapply Nat.le_trans; [apply (H s [])|].
    change (active_count tok []) with 0%nat. apply Hs. }
  induction l as [|[k p] l IH]; intros acc; cbn [fold_left].
  - change (active_count tok []) with 0%nat. lia.
  - rewrite active_count_cons.
    assert (Hstep : step acc (k, p) = acc \/ step acc (k, p) = store_set k p acc).
    { unfold step. cbv beta iota zeta.
      match goal with |- context [if ?c then _ else _] => destruct c end; auto. }
    specialize (IH (step acc (k, p))).
    pose proof (active_count_set_le tok k p acc).
    destruct Hstep as [E|E]; rewrite E in IH |- *; lia.
Qed.

Ltac keeps_activity p :=
  unfold is_active_for, exec; destruct p as [? ? ? ? ? ? [?|] [?|] ? ? ? ? ? ?];
  simpl; try tauto; try (rewrite andb_false_r; discriminate).

Lemma claim_fee_activity env x tok' p :
  is_active_for tok' (exec (claim_fee_statements env x) p) = true ->
  is_active_for tok' p = true.
Proof. keeps_activity p. Qed.

Lemma record_activity env x tok' p :
  is_active_for tok' (exec (record_statements env x) p) = true ->
  is_active_for tok' p = true.
Proof. keeps_activity p. Qed.

Lemma add_capital_activity env x tok' p :
  is_active_for tok' (exec (add_capital_statements env x) p) = true ->
  is_active_for tok' p = true.
Proof. keeps_activity p. Qed.

Lemma withdraw_activity env x tok' p :
  is_active_for tok' (exec (withdraw_statements env x) p) = true ->
  is_active_for tok' p = true.
Proof. keeps_activity p. Qed.

Lemma close_activity env x y tok' p :
  is_active_for tok' (exec (close_statements env x y) p) = true ->
  is_active_for tok' p = true.
Proof. keeps_activity p. Qed.

Lemma commands_keep_one_active env args positions saved :
  well_keyed positions ->
  at_most_one_active positions ->
  (cmd_remove args positions = Saved saved
   \/ cmd_reset env args positions = Saved saved
   \/ cmd_claim_fee env args positions = Saved saved
   \/ cmd_add_capital env args positions = Saved saved
   \/ cmd_withdraw env args positions = Saved saved
   \/ cmd_close env args positions = Saved saved
   \/ (exists command, cmd_record env command args positions = Saved saved)) ->
  at_most_one_active saved.
Proof.
  intros Hk Hs [H|[H|[H|[H|[H|[H|[command H]]]]]]].
  - unfold cmd_remove in H. command_cases H. now apply delete_at_most_one.
  - unfold cmd_reset in H. command_cases H.
    match goal with Hf : findActivePosition _ ?t = Some ?old |- _ =>
      destruct (findActivePosition_In _ _ _ Hf) as (Ha & k & Hin);
      apply create_at_most_one; [now apply delete_at_most_one|];
      intros tok' E;
      pose proof (active_count_delete_active tok' k old positions Hk Hin) as Hd;
      rewrite (is_active_for_same _ _ _ E) in Hd; specialize (Hd Ha);
      specialize (Hs tok'); lia
    end.
  - unfold cmd_claim_fee in H. command_cases H.
    apply update_at_most_one; [intros; eapply claim_fee_activity; eauto|exact Hs].
  - unfold cmd_add_capital in H. command_cases H.
    apply update_at_most_one; [intros; eapply add_capital_activity; eauto|exact Hs].
  - unfold cmd_withdraw in H. command_cases H.
    apply update_at_most_one; [intros; eapply withdraw_activity; eauto|exact Hs].
  - unfold cmd_close in H. command_cases H;
      (apply update_at_most_one; [intros; eapply close_activity; eauto|exact Hs]).
  - unfold cmd_record in H. command_cases H;
      try (apply update_at_most_one; [intros; eapply record_activity; eauto|exact Hs]);
      (apply create_at_most_one; [exact Hs|]; intros tok' E;
       eapply no_active_same; eauto).
Qed.

(** *** From one run to the next *)

Lemma append_nonempty (a b : string) : b <> "" -> a ++ b <> "".
Proof. destruct a; simpl; [auto|discriminate]. Qed.

Lemma migrate_has_id key e : has_id (migrate key e).
Proof.
  unfold has_id. migrate_cases e;
    try (apply append_nonempty; discriminate);
    now apply String.eqb_neq.
Qed.

Lemma loadPositions_has_id file : all_positions has_id (loadPositions file).
Proof.
  unfold loadPositions.
  apply (fold_left_invariant (all_positions has_id)).
  - intros k p [].
  - intros a [key e] _ Ha. apply store_set_all; [apply migrate_has_id|exact Ha].
Qed.

Ltac keeps_id p H :=
  unfold has_id, exec in *;
  destruct p as [? ? ? ? ? ? [?|] [?|] ? ? ? ? ? ?]; exact H.

Lemma main_has_id env args file saved :
  main env args file = Saved saved -> all_positions has_id saved.
Proof.
  intros H.
  apply (main_keeps has_id) with (env := env) (args := args) (file := file);
    [ | | | | | |apply loadPositions_has_id|exact H].
  - intros. unfold has_id, initializePosition, generatePositionId. simpl.
    apply append_nonempty. discriminate.
  - intros ? ? p Hp. keeps_id p Hp.
  - intros ? ? p Hp. keeps_id p Hp.
  - intros ? ? p Hp. keeps_id p Hp.
  - intros ? ? p Hp. keeps_id p Hp.
  - intros ? ? ? p Hp. keeps_id p Hp.
Qed.

(** A saved position with an identifier is read back with its token and
    its closed flag. *)
Lemma migrate_saved_active tok k p :
  has_id p ->
  is_active_for tok (migrate k (mkStored (json_position p) None None))
  = is_active_for tok p.
Proof.
  unfold has_id, migrate. cbn [stored capital_reduction_usd profit_taken_usd].
  intros H. change (id (json_position p)) with (id p).
  apply String.eqb_neq in H. rewrite H.
  destruct (initial_value_usd_field (json_position p)); reflexivity.
Qed.

Lemma reload_active_count tok s :
  all_positions has_id s ->
  (active_count tok (loadPositions (savePositions s)) <= active_count tok s)%nat.
Proof.
  intros Hs. unfold loadPositions.
  match goal with |- context [fold_left ?f _ _] => set (step := f) end.
  enough (H : forall l acc,
             all_positions has_id l ->
             (active_count tok (fold_left step (savePositions l) acc)
              <= active_count tok acc + active_count tok l)%nat).
  { eapply Nat.le_trans; [apply (H s [] Hs)|].
    change (active_count tok []) with 0%nat. lia. }
  induction l as [|[k p] l IH]; intros acc Hl;
    cbn [savePositions map fold_left fst snd].
  - change (active_count tok []) with 0%nat. lia.
  - rewrite active_count_cons.
    assert (Hp : has_id p) by (apply (Hl k); now left).
    assert (Hl' : all_positions has_id l) by (intros k' p' ?; apply (Hl k'); now right).
    fold (savePositions l).
    set (e := mkStored (json_position p) None None).
    assert (Hstep : step acc (k, e)
                    = store_set (id (migrate k e)) (migrate k e) acc)
      by reflexivity.
    specialize (IH (step acc (k, e)) Hl').
    pose proof (active_count_set_le tok (id (migrate k e)) (migrate k e) acc)
      as Hset.
    unfold e in Hset at 3. rewrite (migrate_saved_active tok k p Hp) in Hset.
    rewrite Hstep in IH |- *. lia.
Qed.

Lemma reload_at_most_one s :
  all_positions has_id s -> at_most_one_active s ->
  at_most_one_active (loadPositions (savePositions s)).
Proof.
  intros Hid Hs tok. pose proof (reload_active_count tok s Hid).
  specialize (Hs tok). lia.
Qed.

Lemma main_keeps_one_active env args file saved :
  at_most_one_active (loadPositions file) ->
  main env args file = Saved saved ->
  at_most_one_active saved.
Proof.
  intros Hs H. apply main_saved in H. cbv zeta in H.
  destruct H as [H|H]; [now apply (clean_at_most_one _ _ H)|].
  apply (commands_keep_one_active env args (loadPositions file) saved);
    [apply loadPositions_well_keyed|exact Hs|tauto].
Qed.

Lemma empty_file_one_active : at_most_one_active (loadPositions []).
Proof. intros tok. unfold active_count. simpl. lia. Qed.

Lemma reachable_has_id s : reachable s -> all_positions has_id s.
Proof. intros [env args saved H|env args positions saved _ H]; eapply main_has_id; eauto. Qed.

Lemma reachable_one_active s : reachable s -> at_most_one_active s.
Proof.
  induction 1 as [env args saved H|env args positions saved Hr IH H].
  - eapply main_keeps_one_active; [apply empty_file_one_active|exact H].
  - eapply main_keeps_one_active; [|exact H].
    apply reload_at_most_one; [now apply reachable_has_id|exact IH].
Qed.

Lemma all_closed_no_active tok positions :
  all_closed_for tok positions = true ->
  findActivePosition positions (toLowerCase tok) = None.
Proof.
  unfold all_closed_for, findActivePosition.
  induction (values positions) as [|p l IH]; simpl; [reflexivity|].
  rewrite andb_true_iff. intros [Hp Hl].
  rewrite is_active_for_lower. unfold is_active_for.
  destruct (String.eqb _ _), (flag _); simpl in *; try discriminate; auto.
Qed.

(** C6. A closed position is frozen: when every position of a token is
    closed, each of add-capital, withdraw, claim-fee and close on that token
    exits with code 1 and writes nothing, and with arguments that pass
    validation the failure is the not-found one.  At most one position per
    token is active: a store with that property keeps it through every
    command, and every store that runs of the program produce, starting
    without a file, has it. *)
Theorem closed_positions_are_frozen :
  (forall env file command tok rest,
      let positions := loadPositions file in
      let outcome := main env (command :: tok :: rest) file in
      all_closed_for tok positions = true ->
      In command ["add-capital"; "withdraw"; "claim-fee"; "close"] ->
      (exists why, outcome = Exit1 why)
      /\ written outcome = None
      /\ exit_code outcome = 1%Z
      /\ (forall amountArg more,
             rest = amountArg :: more ->
             gtb (parseFloat amountArg) zero = true ->
             isNaN (optional_amount more) = false ->
             outcome = Exit1 NoActivePosition))
  /\ (forall env args file saved,
         at_most_one_active (loadPositions file) ->
         main env args file = Saved saved ->
         at_most_one_active saved)
  /\ (forall positions, reachable positions -> at_most_one_active positions).
Proof.
  split; [|split].
  - intros env file command tok rest positions outcome Hclosed Hcmd.
    apply all_closed_no_active in Hclosed. fold positions in Hclosed.
    assert (Hout :
      (exists why, outcome = Exit1 why)
      /\ (forall amountArg more,
             rest = amountArg :: more ->
             gtb (parseFloat amountArg) zero = true ->
             isNaN (optional_amount more) = false ->
             outcome = Exit1 NoActivePosition)).
    { simpl in Hcmd.
      destruct Hcmd as [<-|[<-|[<-|[<-|[]]]]]; subst outcome.
      - change (main env ("add-capital" :: tok :: rest) file)
          with (cmd_add_capital env ("add-capital" :: tok :: rest) positions).
        unfold cmd_add_capital. destruct rest as [|a more]; [split; [eauto|discriminate]|].
        rewrite Hclosed. split.
        + destruct (isNaN _); [eauto|]. destruct (leb _ _); eauto.
        + intros ? ? [= <- <-] Hpos _.
          destruct (gtb_zero_valid _ Hpos) as [-> ->]. reflexivity.
      - change (main env ("withdraw" :: tok :: rest) file)
          with (cmd_withdraw env ("withdraw" :: tok :: rest) positions).
        unfold cmd_withdraw. destruct rest as [|a more]; [split; [eauto|discriminate]|].
        rewrite Hclosed. split.
        + destruct (isNaN _); [eauto|]. destruct (leb _ _); eauto.
        + intros ? ? [= <- <-] Hpos _.
          destruct (gtb_zero_valid _ Hpos) as [-> ->]. reflexivity.
      - change (main env ("claim-fee" :: tok :: rest) file)
          with (cmd_claim_fee env ("claim-fee" :: tok :: rest) positions).
        unfold cmd_claim_fee. destruct rest as [|a more]; [split; [eauto|discriminate]|].
        rewrite Hclosed. split.
        + destruct (isNaN _); [eauto|]. destruct (leb _ _); eauto.
        + intros ? ? [= <- <-] Hpos _.
          destruct (gtb_zero_valid _ Hpos) as [-> ->]. reflexivity.
      - change (main env ("close" :: tok :: rest) file)
          with (cmd_close env ("close" :: tok :: rest) positions).
        unfold cmd_close. destruct rest as [|a more]; [split; [eauto|discriminate]|].
        rewrite Hclosed. fold (optional_amount more). split.
        + destruct (isNaN (optional_amount more)); [eauto|].
          destruct (isNaN (parseFloat a)); [eauto|]. destruct (leb _ _); eauto.
        + intros ? ? [= <- <-] Hpos Hfees. rewrite Hfees.
          destruct (gtb_zero_valid _ Hpos) as [-> ->]. reflexivity. }
    destruct Hout as [[why Hwhy] Hvalid].
    split; [eauto|]. split; [now rewrite Hwhy|].
    split; [now rewrite Hwhy|exact Hvalid].
  - apply main_keeps_one_active.
  - apply reachable_one_active.
Qed.

Lemma closed_file_one_active : at_most_one_active (loadPositions closed_file).
Proof.
  intros tok. unfold active_count. simpl.
  repeat match goal with |- context [if ?c then _ else _] => destruct c end;
    simpl; lia.
Qed.

(** On a file whose only position of [tok] is closed, [withdraw tok 50]
    stops with the not-found error, and opening a new position leaves one
    active position. *)
Lemma closed_positions_are_frozen_witness :
  main scenario_env ["withdraw"; "tok"; "50"] closed_file = Exit1 NoActivePosition
  /\ at_most_one_active
       (store_set (generatePositionId scenario_env "tok")
          (initializePosition scenario_env "tok" (of_Z 250))
          (loadPositions closed_file))
  /\ at_most_one_active
       [(generatePositionId scenario_env "tok",
         initializePosition scenario_env "tok" (of_Z 250))].
Proof.
  destruct closed_positions_are_frozen as (H1 & H2 & H3).
  split; [|split].
  3:{ apply H3. now apply (reachable_first scenario_env ["tok"; "250"]). }
  - destruct (H1 scenario_env closed_file "withdraw" "tok" ["50"] eq_refl
                (or_intror (or_introl eq_refl))) as (_ & _ & _ & H).
    exact (H "50" [] eq_refl eq_refl eq_refl).
  - apply (H2 scenario_env ["tok"; "250"] closed_file _ closed_file_one_active).
    reflexivity.
Defined.

(** ** Validation of numeric arguments *)

Ltac case_if :=
  match goal with |- context [if ?c then _ else _] => destruct c end.

Lemma is_token_record env a0 rest file :
  is_token a0 = true ->
  main env (a0 :: rest) file
  = cmd_record env (toLowerCase a0) (a0 :: rest) (loadPositions file).
Proof.
  unfold is_token, command_names. cbn [forallb].
  rewrite !andb_true_iff, !negb_true_iff.
  intros (H1 & H2 & H3 & H4 & H5 & H6 & H7 & H8 & H9 & H10 & _).
  unfold main. cbv zeta.
  now rewrite H1, H2, H3, H4, H5, H6, H7, H8, H9, H10.
Qed.

(** C7, as the code has it.  Every numeric argument is parsed by
    [parseFloat] and refused when the result is [NaN]; an amount that is
    not positive is refused by claim-fee, add-capital and withdraw, and so
    is the exit value of close.  A refused command exits with code 1 and
    writes nothing. *)
Theorem nan_and_non_positive_are_rejected
  (env : Env) (file : PositionFile) (tok a : string) (more : list string) :
  let x := parseFloat a in
  (isNaN x = true ->
   Forall (fun command =>
             main env (command :: tok :: a :: more) file = Exit1 NotANumber)
     ["reset"; "claim-fee"; "add-capital"; "withdraw"; "close"])
  /\ (leb x zero = true ->
      Forall (fun command =>
                main env (command :: tok :: a :: more) file = Exit1 NotPositive)
        ["claim-fee"; "add-capital"; "withdraw"]
      /\ rejected (main env ("close" :: tok :: a :: more) file))
  /\ (isNaN (optional_amount more) = true ->
      main env ("close" :: tok :: a :: more) file = Exit1 NotANumber)
  /\ (is_token tok = true -> isNaN x = true ->
      main env (tok :: a :: more) file = Exit1 NotANumber)
  /\ (is_token tok = true -> isNaN (optional_amount more) = true ->
      main env (tok :: a :: more) file = Exit1 NotANumber)
  /\ (forall why, rejected (Exit1 why)).
Proof.
  cbv zeta. repeat split.
  - intros Hnan. repeat constructor.
    + change (cmd_reset env ("reset" :: tok :: a :: more) (loadPositions file)
              = Exit1 NotANumber).
      unfold cmd_reset. now rewrite Hnan.
    + change (cmd_claim_fee env ("claim-fee" :: tok :: a :: more) (loadPositions file)
              = Exit1 NotANumber).
      unfold cmd_claim_fee. now rewrite Hnan.
    + change (cmd_add_capital env ("add-capital" :: tok :: a :: more) (loadPositions file)
              = Exit1 NotANumber).
      unfold cmd_add_capital. now rewrite Hnan.
    + change (cmd_withdraw env ("withdraw" :: tok :: a :: more) (loadPositions file)
              = Exit1 NotANumber).
      unfold cmd_withdraw. now rewrite Hnan.
    + change (cmd_close env ("close" :: tok :: a :: more) (loadPositions file)
              = Exit1 NotANumber).
      unfold cmd_close. rewrite Hnan. now case_if.
  - assert (Hnan : isNaN (parseFloat a) = false)
      by (destruct (parseFloat a); [reflexivity..|discriminate]).
    repeat constructor.
    + change (cmd_claim_fee env ("claim-fee" :: tok :: a :: more) (loadPositions file)
              = Exit1 NotPositive).
      unfold cmd_claim_fee. now rewrite Hnan, H.
    + change (cmd_add_capital env ("add-capital" :: tok :: a :: more) (loadPositions file)
              = Exit1 NotPositive).
      unfold cmd_add_capital. now rewrite Hnan, H.
    + change (cmd_withdraw env ("withdraw" :: tok :: a :: more) (loadPositions file)
              = Exit1 NotPositive).
      unfold cmd_withdraw. now rewrite Hnan, H.
  - change (exit_code (cmd_close env ("close" :: tok :: a :: more) (loadPositions file)) = 1%Z).
    assert (Hnan : isNaN (parseFloat a) = false)
      by (destruct (parseFloat a); [reflexivity..|discriminate]).
    unfold cmd_close. rewrite Hnan, H. now case_if.
  - change (written (cmd_close env ("close" :: tok :: a :: more) (loadPositions file)) = None).
    assert (Hnan : isNaN (parseFloat a) = false)
      by (destruct (parseFloat a); [reflexivity..|discriminate]).
    unfold cmd_close. rewrite Hnan, H. now case_if.
  - intros Hfees.
    change (cmd_close env ("close" :: tok :: a :: more) (loadPositions file)
            = Exit1 NotANumber).
    unfold cmd_close. fold (optional_amount more). now rewrite Hfees.
  - intros Htok Hnan. rewrite (is_token_record _ _ _ _ Htok).
    unfold cmd_record. now rewrite Hnan.
  - intros Htok Hfees. rewrite (is_token_record _ _ _ _ Htok).
    unfold cmd_record. fold (optional_amount more). rewrite Hfees.
    now case_if.
Qed.

(** [withdraw tok abc], [withdraw tok -5], [close tok 500 x] and [tok abc]
    stop with exit code 1. *)
Lemma nan_and_non_positive_are_rejected_witness :
  main scenario_env ["withdraw"; "tok"; "abc"] scenario_file = Exit1 NotANumber
  /\ main scenario_env ["withdraw"; "tok"; "-5"] scenario_file = Exit1 NotPositive
  /\ rejected (main scenario_env ["close"; "tok"; "0"] scenario_file)
  /\ main scenario_env ["close"; "tok"; "500"; "x"] scenario_file = Exit1 NotANumber
  /\ main scenario_env ["tok"; "abc"] scenario_file = Exit1 NotANumber
  /\ main scenario_env ["tok"; "250"; "x"] scenario_file = Exit1 NotANumber.
Proof.
  destruct (nan_and_non_positive_are_rejected scenario_env scenario_file
              "tok" "abc" []) as (H1 & _ & _ & H4 & _).
  destruct (nan_and_non_positive_are_rejected scenario_env scenario_file
              "tok" "-5" []) as (_ & H2 & _).
  destruct (nan_and_non_positive_are_rejected scenario_env scenario_file
              "tok" "0" []) as (_ & H2' & _).
  destruct (nan_and_non_positive_are_rejected scenario_env scenario_file
              "tok" "500" ["x"]) as (_ & _ & H3 & _).
  destruct (nan_and_non_positive_are_rejected scenario_env scenario_file
              "tok" "250" ["x"]) as (_ & _ & _ & _ & H5 & _).
  specialize (H1 eq_refl). rewrite Forall_forall in H1.
  destruct (H2 eq_refl) as [H2a _]. rewrite Forall_forall in H2a.
  destruct (H2' eq_refl) as [_ H2b].
  split; [apply (H1 "withdraw"); simpl; tauto|].
  split; [apply (H2a "withdraw"); simpl; tauto|].
  split; [exact H2b|].
  split; [exact (H3 eq_refl)|].
  split; [exact (H4 eq_refl eq_refl)|exact (H5 eq_refl eq_refl)].
Defined.

(** C7, as stated, fails.  [close tok 500 -10] has negative final fees,
    [withdraw tok Infinity] has an amount that is not finite, and
    [withdraw tok 12abc] has an amount that is not well formed; each is
    accepted, ends with exit code 0 and writes the store. *)
Lemma numeric_validation_counterexample :
  let accepted (args : list string) :=
    exit_code (main scenario_env args scenario_file) = 0%Z
    /\ written (main scenario_env args scenario_file) <> None in
  (ltb (parseFloat "-10") zero = true
   /\ accepted ["close"; "tok"; "500"; "-10"])
  /\ (isFinite (parseFloat "Infinity") = false
      /\ accepted ["withdraw"; "tok"; "Infinity"])
  /\ (parseFloat "12abc" = of_Z 12
      /\ accepted ["withdraw"; "tok"; "12abc"]).
Proof.
  cbv zeta. repeat split; try reflexivity; try discriminate; num_eq.
Qed.

(** C8.  The fees arguments of the record command and of [close] are only
    checked with [isNaN].  On the scenario position, whose fees claimed
    are 5, [tok 250 -5] stores fees of 0 and [close tok 500 -10] stores
    fees of -5: [fees_claimed_usd] decreases. *)
Theorem negative_fees_decrease_fees_claimed :
  (exists p',
      main scenario_env ["tok"; "250"; "-5"] scenario_file
      = Saved [("tok_1000_abc", p')]
      /\ fees_claimed_usd scenario_position = of_Z 5
      /\ fees_claimed_usd p' = of_Z 0
      /\ ltb (fees_claimed_usd p') (fees_claimed_usd scenario_position) = true)
  /\ (exists p',
         main scenario_env ["close"; "tok"; "500"; "-10"] scenario_file
         = Saved [("tok_1000_abc", p')]
         /\ fees_claimed_usd p' = of_Z (-5)
         /\ ltb (fees_claimed_usd p') (fees_claimed_usd scenario_position) = true)
  /\ main scenario_env ["claim-fee"; "tok"; "-5"] scenario_file
     = Exit1 NotPositive.
Proof.
  split; [|split].
  - eexists. split; [reflexivity|]. repeat split; try reflexivity; num_eq.
  - eexists. split; [reflexivity|]. repeat split; try reflexivity; num_eq.
  - reflexivity.
Qed.

(** ** Price oracle *)

Ltac oracle_cases st Hc :=
  unfold cache_in_effect in Hc;
  destruct st as [[?m|] [?f|]]; simpl in Hc; try discriminate Hc;
  injection Hc as ->; unfold getSOLPriceUSD;
  cbn [solPriceCache priceCacheFile fst snd].

(** X1. While the cache entry in effect (the variable, or the file when
    the variable is empty) is younger than five minutes, [getSOLPriceUSD]
    returns its price whatever the request would bring, keeps the entry in
    memory and leaves the cache file as it is. *)
Theorem fresh_cache_answers_without_fetch
  (now : Z) (response response' : FetchResult) (st : PriceState) (c : PriceCache) :
  cache_in_effect st = Some c ->
  (now - timestamp c < 5 * 60 * 1000)%Z ->
  fst (getSOLPriceUSD now response st) = price c
  /\ getSOLPriceUSD now response st = getSOLPriceUSD now response' st
  /\ solPriceCache (snd (getSOLPriceUSD now response st)) = Some c
  /\ priceCacheFile (snd (getSOLPriceUSD now response st)) = priceCacheFile st.
Proof.
  intros Hc Hage.
  assert (Hf : cache_is_fresh now c = true) by (apply Z.ltb_lt; exact Hage).
  oracle_cases st Hc; rewrite Hf; cbn [solPriceCache priceCacheFile fst snd];
    repeat split.
Qed.

Lemma fresh_cache_answers_without_fetch_witness :
  fst (getSOLPriceUSD 2000 FetchThrows sample_price_state) = of_Z 150
  /\ getSOLPriceUSD 2000 FetchThrows sample_price_state
     = getSOLPriceUSD 2000 (FetchOk (Some (of_Z 99))) sample_price_state.
Proof.
  destruct (fresh_cache_answers_without_fetch 2000 FetchThrows
              (FetchOk (Some (of_Z 99))) sample_price_state
              (mkPriceCache (of_Z 150) 1000) eq_refl)
    as (H1 & H2 & _); [reflexivity|].
  split; [exact H1|exact H2].
Defined.

(** The rounded age in minutes is below 60 exactly below 59.5 minutes. *)
Lemma round_minutes_lt_60 (d : Z) :
  (Math_round_div d (60 * 1000) <? 60)%Z = (d <? 3570000)%Z.
Proof.
  unfold Math_round_div.
  destruct (d <? 3570000)%Z eqn:E.
  - apply Z.ltb_lt in E. apply Z.ltb_lt.
    apply Z.div_lt_upper_bound; lia.
  - apply Z.ltb_ge in E. apply Z.ltb_ge.
    apply Z.div_le_lower_bound; lia.
Qed.

(** X2. When the request brings no usable price (the response is not ok,
    or the value is missing or not positive) and the cache entry in effect
    is five minutes old or older with a positive price, the cached price is
    returned exactly when the entry is less than 3,570,000 ms (59.5
    minutes) old, because the age is rounded to whole minutes before it is
    compared with 60; otherwise the result is 185. *)
Theorem stale_cache_window
  (now : Z) (response : FetchResult) (st : PriceState) (c : PriceCache) :
  cache_in_effect st = Some c ->
  (5 * 60 * 1000 <= now - timestamp c)%Z ->
  gtb (price c) zero = true ->
  brings_no_price response = true ->
  fst (getSOLPriceUSD now response st)
  = if (now - timestamp c <? 3570000)%Z then price c else of_Z 185.
Proof.
  intros Hc Hage Hpos Hresp.
  assert (Hf : cache_is_fresh now c = false) by (apply Z.ltb_ge; exact Hage).
  oracle_cases st Hc; rewrite Hf; unfold fetch_price;
    cbn [solPriceCache priceCacheFile fst snd];
    rewrite Hpos, round_minutes_lt_60;
    (destruct response as [| |[usd|]]; try discriminate;
     cbn [brings_no_price] in Hresp; cbn [fst];
     try (apply negb_true_iff in Hresp; rewrite Hresp); reflexivity).
Qed.

Lemma stale_cache_window_witness :
  fst (getSOLPriceUSD 3570999 FetchNotOk sample_price_state) = of_Z 150
  /\ fst (getSOLPriceUSD 3571000 FetchNotOk sample_price_state) = of_Z 185.
Proof.
  split.
  - apply (stale_cache_window 3570999 FetchNotOk sample_price_state
             (mkPriceCache (of_Z 150) 1000) eq_refl); [simpl; lia|reflexivity..].
  - apply (stale_cache_window 3571000 FetchNotOk sample_price_state
             (mkPriceCache (of_Z 150) 1000) eq_refl); [simpl; lia|reflexivity..].
Defined.

(** X3. When the request throws, a cache entry with a positive price is
    used however old it is; the result is 185 only when the cached price is
    not positive. *)
Theorem thrown_request_uses_any_positive_cache
  (now : Z) (st : PriceState) (c : PriceCache) :
  cache_in_effect st = Some c ->
  (5 * 60 * 1000 <= now - timestamp c)%Z ->
  fst (getSOLPriceUSD now FetchThrows st)
  = if gtb (price c) zero then price c else of_Z 185.
Proof.
  intros Hc Hage.
  assert (Hf : cache_is_fresh now c = false) by (apply Z.ltb_ge; exact Hage).
  oracle_cases st Hc; rewrite Hf; unfold fetch_price;
    cbn [solPriceCache priceCacheFile fst snd];
    destruct (gtb (price c) zero); reflexivity.
Qed.

Lemma thrown_request_uses_any_positive_cache_witness :
  fst (getSOLPriceUSD 1000000001000 FetchThrows sample_price_state) = of_Z 150.
Proof.
  apply (thrown_request_uses_any_positive_cache 1000000001000
           sample_price_state (mkPriceCache (of_Z 150) 1000) eq_refl).
  simpl. lia.
Defined.

Lemma positive_is_truthy (usd : number) :
  gtb usd zero = true -> truthy usd && gtb usd zero = true.
Proof.
  intros Hpos. rewrite Hpos, andb_true_r. unfold gtb in Hpos.
  destruct usd as [q| | |]; simpl in *; try reflexivity; try discriminate.
  now rewrite (q_ltb_zero_nonzero _ Hpos).
Qed.

Lemma json_number_positive (usd : number) :
  gtb usd zero = true -> usd <> PInf -> gtb (json_number usd) zero = true.
Proof. destruct usd; simpl; try discriminate; congruence. Qed.

Lemma fetch_price_positive now response st :
  caches_hold_positive st = true ->
  gtb (fst (fetch_price now response st)) zero = true
  /\ match solPriceCache (snd (fetch_price now response st)) with
     | Some cache => gtb (price cache) zero
     | None => true
     end = true
  /\ (response <> FetchOk (Some PInf) ->
      caches_hold_positive (snd (fetch_price now response st)) = true).
Proof.
  intros H. pose proof H as Hboth.
  unfold caches_hold_positive in H. apply andb_true_iff in H.
  destruct H as [Hm _].
  assert (Hkept : forall usd : number,
             gtb usd zero = true ->
             gtb (fst (usd, st)) zero = true
             /\ match solPriceCache (snd (usd, st)) with
                | Some cache => gtb (price cache) zero
                | None => true
                end = true
             /\ (response <> FetchOk (Some PInf) ->
                 caches_hold_positive (snd (usd, st)) = true)).
  { intros usd Hpos. cbn [fst snd]. repeat split; intros; assumption. }
  assert (Hstale :
            gtb match solPriceCache st with
                | Some cache =>
                    if gtb (price cache) zero then
                      if (Math_round_div (now - timestamp cache) (60 * 1000) <? 60)%Z
                      then price cache else FALLBACK_PRICE
                    else FALLBACK_PRICE
                | None => FALLBACK_PRICE
                end zero = true).
  { destruct (solPriceCache st) as [c|]; [|reflexivity].
    rewrite Hm. destruct (_ <? _)%Z; [exact Hm|reflexivity]. }
  unfold fetch_price. destruct response as [| |[usd|]].
  - destruct (solPriceCache st) as [c|] eqn:E.
    + rewrite Hm. apply Hkept. exact Hm.
    + apply Hkept. reflexivity.
  - apply Hkept. exact Hstale.
  - destruct (truthy usd && gtb usd zero) eqn:E; [|apply Hkept; exact Hstale].
    apply andb_true_iff in E. destruct E as [_ Hpos].
    cbn [fst snd solPriceCache price]. repeat split; try assumption.
    intros Hinf. unfold caches_hold_positive.
    cbn [solPriceCache priceCacheFile price json_cache].
    rewrite Hpos. apply json_number_positive; [exact Hpos|congruence].
  - apply Hkept. exact Hstale.
Qed.

(** X4. If every price that the caches hold is positive, the price that
    [getSOLPriceUSD] returns is positive and so is the price that the
    variable holds afterwards; the cache file holds a positive price again
    unless the request brought [Infinity], which the file stores as
    [null]. *)
Theorem price_is_positive
  (now : Z) (response : FetchResult) (st : PriceState) :
  caches_hold_positive st = true ->
  let after := getSOLPriceUSD now response st in
  gtb (fst after) zero = true
  /\ match solPriceCache (snd after) with
     | Some cache => gtb (price cache) zero
     | None => true
     end = true
  /\ (response <> FetchOk (Some PInf) -> caches_hold_positive (snd after) = true).
Proof.
  intros H. cbv zeta. unfold getSOLPriceUSD.
  pose proof H as H0. unfold caches_hold_positive in H0.
  destruct st as [[m|] [f|]]; cbn [solPriceCache priceCacheFile] in *.
  - destruct (cache_is_fresh now m); [|now apply fetch_price_positive].
    apply andb_true_iff in H0. destruct H0 as [Hm Hf].
    cbn [fst snd solPriceCache]. repeat split; intros; assumption.
  - destruct (cache_is_fresh now m); [|now apply fetch_price_positive].
    apply andb_true_iff in H0. destruct H0 as [Hm _].
    cbn [fst snd solPriceCache]. repeat split; intros; assumption.
  - assert (H' : caches_hold_positive (mkPriceState (Some f) (Some f)) = true).
    { unfold caches_hold_positive. cbn [solPriceCache priceCacheFile].
      cbn [andb] in H0. now rewrite H0. }
    destruct (cache_is_fresh now f); [|now apply fetch_price_positive].
    cbn [fst snd solPriceCache]. cbn [andb] in H0. repeat split; intros; assumption.
  - now apply fetch_price_positive.
Qed.

(** A response with a negative price, and one with [Infinity]: the
    returned price is positive, the file is left with 0 for [null]. *)
Lemma price_is_positive_witness :
  gtb (fst (getSOLPriceUSD 9000000 (FetchOk (Some (of_Z (-3))))
              sample_price_state)) zero = true
  /\ fst (getSOLPriceUSD 9000000 (FetchOk (Some PInf)) sample_price_state) = PInf
  /\ option_map price
       (priceCacheFile
          (snd (getSOLPriceUSD 9000000 (FetchOk (Some PInf)) sample_price_state)))
     = Some zero.
Proof.
  destruct (price_is_positive 9000000 (FetchOk (Some (of_Z (-3))))
              sample_price_state eq_refl) as [H _].
  split; [exact H|]. split; reflexivity.
Defined.

(** X5. When no fresh cache entry is in effect and the request brings a
    positive price, that price is returned and kept in the variable with
    the time of the call, and the file is written with it ([null] for
    [Infinity]); a call less than five minutes later returns the same price
    and state whatever its request brings, and so does the first call of
    another run, which starts from the file, when the price was finite. *)
Theorem fetched_price_is_cached
  (now later : Z) (response' : FetchResult) (st : PriceState) (usd : number) :
  no_fresh_cache now st = true ->
  gtb usd zero = true ->
  (later - now < 5 * 60 * 1000)%Z ->
  let first := getSOLPriceUSD now (FetchOk (Some usd)) st in
  first = (usd, mkPriceState (Some (mkPriceCache usd now))
                             (Some (mkPriceCache (json_number usd) now)))
  /\ getSOLPriceUSD later response' (snd first) = first
  /\ (isFinite usd = true ->
      fst (getSOLPriceUSD later response'
             (mkPriceState None (priceCacheFile (snd first)))) = usd).
Proof.
  intros Hc Hpos Hlater.
  pose proof (positive_is_truthy usd Hpos) as Ht.
  assert (Hfirst : getSOLPriceUSD now (FetchOk (Some usd)) st
                   = (usd, mkPriceState (Some (mkPriceCache usd now))
                             (Some (mkPriceCache (json_number usd) now)))).
  { unfold no_fresh_cache, cache_in_effect in Hc.
    destruct st as [[m|] [f|]]; cbn [solPriceCache priceCacheFile] in Hc;
      try apply negb_true_iff in Hc;
      unfold getSOLPriceUSD, fetch_price;
      cbn [solPriceCache priceCacheFile fst snd];
      rewrite ?Hc; now rewrite Ht. }
  cbv zeta. rewrite Hfirst. split; [reflexivity|].
  unfold getSOLPriceUSD. cbn [solPriceCache priceCacheFile fst snd].
  assert (Hf : forall v, cache_is_fresh later (mkPriceCache v now) = true)
    by (intros v; apply Z.ltb_lt; exact Hlater).
  rewrite !Hf. split; [reflexivity|].
  intros Hfin. cbn [fst price]. destruct usd; try discriminate. reflexivity.
Qed.

Lemma fetched_price_is_cached_witness :
  getSOLPriceUSD 9000000 (FetchOk (Some (of_Z 200))) sample_price_state
  = (of_Z 200, mkPriceState (Some (mkPriceCache (of_Z 200) 9000000))
                            (Some (mkPriceCache (of_Z 200) 9000000)))
  /\ fst (getSOLPriceUSD 9100000 FetchThrows
            (snd (getSOLPriceUSD 9000000 (FetchOk (Some (of_Z 200)))
                    sample_price_state))) = of_Z 200.
Proof.
  destruct (fetched_price_is_cached 9000000 9100000 FetchThrows
              sample_price_state (of_Z 200) eq_refl eq_refl)
    as (H1 & H2 & _); [reflexivity|].
  split; [exact H1|]. rewrite H2. rewrite H1. reflexivity.
Defined.
(** ** Suggestion bands *)

Lemma ltb_negb_leb (x y : number) :
  isNaN x = false -> isNaN y = false -> ltb x y = negb (leb y x).
Proof.
  destruct x as [a| | |], y as [b| | |]; simpl; try discriminate; try reflexivity.
  intros _ _. unfold q_ltb, q_leb.
  destruct (Z.ltb_spec (Qnum a * QDen b) (Qnum b * QDen a)),
           (Z.leb_spec (Qnum b * QDen a) (Qnum a * QDen b)); simpl; try reflexivity; lia.
Qed.

Lemma leb_trans (x y z : number) :
  leb x y = true -> leb y z = true -> leb x z = true.
Proof.
  destruct x as [a| | |], y as [b| | |], z as [c| | |]; simpl;
    try discriminate; try reflexivity.
  rewrite !q_leb_le. apply Qcle_trans.
Qed.

Lemma nan_compares_false (x y : number) :
  isNaN x = true ->
  ltb x y = false /\ leb x y = false /\ ltb y x = false /\ leb y x = false.
Proof. destruct x; try discriminate. destruct y; repeat split. Qed.

(** The decision list of [generateSuggestion], rule by rule. *)
Lemma suggestion_cases now position pnlData :
  let pct := Pnl.pnl_percentage pnlData in
  let s := generateSuggestion now position pnlData in
  if fee_risk_fires pnlData then action s = TAKE_PROFIT /\ confidence s = HIGH
                                 /\ String.prefix "High fees earned" (reason s) = true
  else if geb pct (of_Z 25) then action s = TAKE_PROFIT /\ confidence s = HIGH /\ reason s <> default_reason
  else if geb pct (of_Z 15) then action s = REDUCE /\ confidence s = MEDIUM /\ reason s <> default_reason
  else if leb pct (of_Z (-20)) then action s = STOP_LOSS /\ confidence s = HIGH /\ reason s <> default_reason
  else if leb pct (of_Z (-10)) then
    (if (30 <? (now - created_at position) / MS_PER_DAY)%Z
     then action s = REDUCE /\ confidence s = MEDIUM
     else action s = HOLD /\ confidence s = LOW) /\ reason s <> default_reason
  else if geb pct (of_Z 0) && ltb pct (of_Z 5) then
    (if gtb (Pnl.realized_pnl_usd pnlData) zero
     then action s = TOP_UP /\ confidence s = MEDIUM
     else action s = HOLD /\ confidence s = LOW) /\ reason s <> default_reason
  else if geb pct (of_Z 5) && ltb pct (of_Z 15) then
    action s = HOLD /\ confidence s = MEDIUM /\ reason s <> default_reason
  else action s = HOLD /\ confidence s = LOW /\ reason s = default_reason.
Proof.
  cbv zeta. unfold generateSuggestion, fee_risk_fires, default_reason.
  change THRESHOLDS.HIGH_FEES_RATIO with (ratio 8 10).
  change THRESHOLDS.TAKE_PROFIT with (of_Z 25).
  change THRESHOLDS.STRONG_PROFIT with (of_Z 15).
  change THRESHOLDS.STOP_LOSS with (of_Z (-20)).
  change THRESHOLDS.MODERATE_LOSS with (of_Z (-10)).
  change THRESHOLDS.BREAK_EVEN with (of_Z 0).
  change THRESHOLDS.MODERATE_PROFIT with (of_Z 5).
  repeat match goal with
         | |- context [if ?c then _ else _] => destruct c
         end; simpl; repeat split; try discriminate.
Qed.

(** Comparisons of a number with integer constants, as integer facts. *)
Ltac num_order x :=
  destruct x as [[[?n ?d] ?Hc]| | |]; simpl in *;
  unfold q_ltb, q_leb in *; simpl in *;
  rewrite ?andb_true_iff, ?andb_false_iff, ?Z.ltb_lt, ?Z.leb_le, ?Z.ltb_ge,
    ?Z.leb_gt in *;
  try discriminate; try reflexivity; try tauto; try lia.

Lemma default_band (pct : number) :
  (geb pct (of_Z 25) = false /\ geb pct (of_Z 15) = false
   /\ leb pct (of_Z (-20)) = false /\ leb pct (of_Z (-10)) = false
   /\ geb pct (of_Z 0) && ltb pct (of_Z 5) = false
   /\ geb pct (of_Z 5) && ltb pct (of_Z 15) = false)
  <-> (isNaN pct = true \/ (ltb (of_Z (-10)) pct = true /\ ltb pct zero = true)).
Proof.
  unfold geb. num_order pct.
Qed.

(** X6. The catch-all suggestion (HOLD, LOW, "performing as expected") is
    given exactly when the fee-risk rule does not fire and the percentage
    is [NaN] or strictly between -10 and 0: the bands of the other rules
    leave no other gap. *)
Theorem default_suggestion_band
  (now : Z) (position : Position) (pnlData : PnlData) :
  let pct := Pnl.pnl_percentage pnlData in
  let s := generateSuggestion now position pnlData in
  (reason s = default_reason
   <-> fee_risk_fires pnlData = false
       /\ (isNaN pct = true
           \/ (ltb (of_Z (-10)) pct = true /\ ltb pct zero = true)))
  /\ (reason s = default_reason -> action s = HOLD /\ confidence s = LOW).
Proof.
  cbv zeta. pose proof (suggestion_cases now position pnlData) as H.
  cbv zeta in H. rewrite <- default_band.
  destruct (fee_risk_fires pnlData).
  { destruct H as (_ & _ & Hp). split.
    - split; [|intros [? _]; discriminate].
      intros E. rewrite E in Hp. discriminate.
    - intros E. rewrite E in Hp. discriminate. }
  destruct (geb _ (of_Z 25)); [split; [split|]; intros; [tauto|intuition discriminate|tauto]|].
  destruct (geb _ (of_Z 15)); [split; [split|]; intros; [tauto|intuition discriminate|tauto]|].
  destruct (leb _ (of_Z (-20))); [split; [split|]; intros; [tauto|intuition discriminate|tauto]|].
  destruct (leb _ (of_Z (-10))); [split; [split|]; intros; [tauto|intuition discriminate|tauto]|].
  destruct (_ && ltb _ (of_Z 5)); [split; [split|]; intros; [tauto|intuition discriminate|tauto]|].
  destruct (_ && ltb _ (of_Z 15)); [split; [split|]; intros; [tauto|intuition discriminate|tauto]|].
  tauto.
Qed.

Lemma default_suggestion_band_witness :
  reason (generateSuggestion 0 scenario_position
            (pnl_with zero zero (of_Z (-5)))) = default_reason
  /\ fee_risk_fires (pnl_with zero zero (of_Z 30)) = false.
Proof.
  destruct (default_suggestion_band 0 scenario_position
              (pnl_with zero zero (of_Z (-5)))) as [[_ H] _].
  split; [|reflexivity].
  apply H. split; [reflexivity|]. right. split; reflexivity.
Defined.

(** X7. Each action is only suggested in its band: STOP_LOSS only at -20
    percent or below and never when the fee-risk rule fires, TOP_UP only
    from 0 to below 5 percent with a positive realized PnL, TAKE_PROFIT only
    by the fee-risk rule or from 25 percent, REDUCE only from 15 to below 25
    percent or for a loss between -20 and -10 percent that is more than 30
    days old; the confidence is HIGH exactly for TAKE_PROFIT and STOP_LOSS. *)
Theorem actions_stay_in_their_bands
  (now : Z) (position : Position) (pnlData : PnlData) :
  let pct := Pnl.pnl_percentage pnlData in
  let s := generateSuggestion now position pnlData in
  (action s = STOP_LOSS ->
   fee_risk_fires pnlData = false /\ leb pct (of_Z (-20)) = true)
  /\ (action s = TOP_UP ->
      geb pct zero = true /\ ltb pct (of_Z 5) = true
      /\ gtb (Pnl.realized_pnl_usd pnlData) zero = true)
  /\ (action s = TAKE_PROFIT ->
      fee_risk_fires pnlData = true \/ geb pct (of_Z 25) = true)
  /\ (action s = REDUCE ->
      (geb pct (of_Z 15) = true /\ ltb pct (of_Z 25) = true)
      \/ (leb pct (of_Z (-10)) = true /\ ltb (of_Z (-20)) pct = true
          /\ (30 < (now - created_at position) / MS_PER_DAY)%Z))
  /\ (confidence s = HIGH <-> action s = TAKE_PROFIT \/ action s = STOP_LOSS).
Proof.
  cbv zeta. pose proof (suggestion_cases now position pnlData) as H.
  cbv zeta in H.
  destruct (fee_risk_fires pnlData).
  { destruct H as (-> & -> & _). intuition discriminate. }
  destruct (geb _ (of_Z 25)) eqn:E25.
  { destruct H as (-> & -> & _). intuition discriminate. }
  destruct (geb _ (of_Z 15)) eqn:E15.
  { destruct H as (-> & -> & _).
    assert (ltb (Pnl.pnl_percentage pnlData) (of_Z 25) = true).
    { revert E25 E15. unfold geb.
      generalize (Pnl.pnl_percentage pnlData). intros x. num_order x. }
    intuition discriminate. }
  destruct (leb _ (of_Z (-20))) eqn:E20.
  { destruct H as (-> & -> & _). intuition discriminate. }
  destruct (leb _ (of_Z (-10))) eqn:E10.
  { assert (ltb (of_Z (-20)) (Pnl.pnl_percentage pnlData) = true).
    { revert E20 E10.
      generalize (Pnl.pnl_percentage pnlData). intros x. num_order x. }
    destruct (30 <? _)%Z eqn:Ed; destruct H as ((-> & ->) & _);
      [apply Z.ltb_lt in Ed|]; intuition discriminate. }
  destruct (_ && ltb _ (of_Z 5)) eqn:E5.
  { apply andb_true_iff in E5. destruct E5.
    destruct (gtb _ zero); destruct H as ((-> & ->) & _); intuition discriminate. }
  destruct (_ && ltb _ (of_Z 15)).
  { destruct H as (-> & -> & _). intuition discriminate. }
  destruct H as (-> & -> & _). intuition discriminate.
Qed.

Lemma actions_stay_in_their_bands_witness :
  leb (of_Z (-30)) (of_Z (-20)) = true
  /\ gtb (of_Z 4) zero = true
  /\ confidence (generateSuggestion 0 scenario_position
                   (pnl_with zero zero (of_Z (-30)))) = HIGH.
Proof.
  destruct (actions_stay_in_their_bands 0 scenario_position
              (pnl_with zero zero (of_Z (-30)))) as (H1 & _ & _ & _ & H5).
  destruct (actions_stay_in_their_bands 0 scenario_position
              (pnl_with zero (of_Z 4) (of_Z 2))) as (_ & H2 & _).
  split; [apply H1; reflexivity|].
  split; [apply H2; reflexivity|].
  apply H5. right. reflexivity.
Defined.

(** More than 30 whole days have passed exactly from 31 days on. *)
Lemma days_over_30 (now created : Z) :
  (30 <? (now - created) / MS_PER_DAY)%Z = (31 * MS_PER_DAY <=? now - created)%Z.
Proof.
  unfold MS_PER_DAY.
  destruct (31 * (1000 * 60 * 60 * 24) <=? now - created)%Z eqn:E.
  - apply Z.leb_le in E. apply Z.ltb_lt.
    assert (31 <= (now - created) / (1000 * 60 * 60 * 24))%Z
      by (apply Z.div_le_lower_bound; lia). lia.
  - apply Z.leb_gt in E. apply Z.ltb_ge.
    assert ((now - created) / (1000 * 60 * 60 * 24) < 31)%Z
      by (apply Z.div_lt_upper_bound; lia). lia.
Qed.

(** X8. For a loss above -20 and up to -10 percent (the fee-risk rule not
    firing) the suggestion is REDUCE exactly when the position was created
    at least 31 days (2,678,400,000 ms) before the call, and HOLD exactly
    when it is younger: the age is floored to whole days before it is
    compared with 30. *)
Theorem moderate_loss_turns_to_reduce_after_31_days
  (now : Z) (position : Position) (pnlData : PnlData) :
  let pct := Pnl.pnl_percentage pnlData in
  let s := generateSuggestion now position pnlData in
  fee_risk_fires pnlData = false ->
  ltb (of_Z (-20)) pct = true ->
  leb pct (of_Z (-10)) = true ->
  (action s = REDUCE <-> (2678400000 <= now - created_at position)%Z)
  /\ (action s = HOLD <-> (now - created_at position < 2678400000)%Z).
Proof.
  cbv zeta. intros Hfee Hlow Hhigh.
  pose proof (suggestion_cases now position pnlData) as H. cbv zeta in H.
  rewrite Hfee, Hhigh, days_over_30 in H.
  assert (E : geb (Pnl.pnl_percentage pnlData) (of_Z 25) = false
              /\ geb (Pnl.pnl_percentage pnlData) (of_Z 15) = false
              /\ leb (Pnl.pnl_percentage pnlData) (of_Z (-20)) = false).
  { revert Hlow Hhigh. unfold geb.
    generalize (Pnl.pnl_percentage pnlData). intros x. num_order x. }
  destruct E as (E1 & E2 & E3). rewrite E1, E2, E3 in H.
  change (31 * MS_PER_DAY)%Z with 2678400000%Z in H.
  destruct (2678400000 <=? _)%Z eqn:Ed; destruct H as ((-> & _) & _);
    [apply Z.leb_le in Ed|apply Z.leb_gt in Ed];
    (split; split; intros; try discriminate; try reflexivity; lia).
Qed.

Lemma moderate_loss_turns_to_reduce_after_31_days_witness :
  action (generateSuggestion 2678401000 scenario_position
            (pnl_with zero zero (of_Z (-15)))) = REDUCE
  /\ action (generateSuggestion 2678400999 scenario_position
               (pnl_with zero zero (of_Z (-15)))) = HOLD.
Proof.
  destruct (moderate_loss_turns_to_reduce_after_31_days 2678401000
              scenario_position (pnl_with zero zero (of_Z (-15)))
              eq_refl eq_refl eq_refl) as [[_ H1] _].
  destruct (moderate_loss_turns_to_reduce_after_31_days 2678400999
              scenario_position (pnl_with zero zero (of_Z (-15)))
              eq_refl eq_refl eq_refl) as [_ [_ H2]].
  split; [apply H1|apply H2]; simpl; lia.
Defined.

Lemma fee_reason_needs_fee_risk now position pnlData :
  String.prefix "High fees earned"
    (reason (generateSuggestion now position pnlData)) = true ->
  fee_risk_fires pnlData = true.
Proof.
  unfold generateSuggestion, fee_risk_fires.
  change THRESHOLDS.HIGH_FEES_RATIO with (ratio 8 10).
  match goal with
  | |- context [if ?c then mkSuggestion TAKE_PROFIT _ HIGH else _] =>
      destruct c; [reflexivity|]
  end.
  repeat match goal with
         | |- context [if ?c then _ else _] => destruct c
         end; simpl; discriminate.
Qed.

Lemma Qc_ten_pos (b : Qc) : (Q2Qc (inject_Z 10) < b)%Qc -> (Q2Qc 0 < b)%Qc.
Proof.
  intros H. eapply Qclt_trans; [|exact H]. unfold Qclt. simpl. reflexivity.
Qed.

(** A ratio above 0.8 to an amount above 10 is the ratio of an amount
    above 8. *)
Lemma fee_ratio_needs_fees (r u : number) :
  gtb u (of_Z 10) = true ->
  gtb (div r u) (ratio 8 10) = true ->
  gtb r (of_Z 8) = true.
Proof.
  unfold gtb, of_Z, ratio.
  destruct u as [b| | |]; try discriminate.
  - cbn [ltb]. rewrite q_ltb_lt. intros Hb.
    pose proof (Qc_ten_pos b Hb) as Hpos.
    destruct (Qc_pos_nonzero b Hpos) as (Hz & Hn & _).
    destruct r as [a| | |]; cbn [div]; rewrite ?Hz, ?Hn; cbn [ltb];
      try discriminate; try reflexivity.
    rewrite !q_ltb_lt. intros Hq.
    assert (E : a = (a / b * b)%Qc).
    { field. intros E. apply Qclt_not_eq in Hpos. congruence. }
    rewrite E.
    apply Qclt_trans with (y := (Q2Qc (8 # 10) * b)%Qc).
    + replace (Q2Qc (inject_Z 8)) with (Q2Qc (8 # 10) * Q2Qc (inject_Z 10))%Qc
        by (apply Qc_is_canon; reflexivity).
      rewrite !(Qcmult_comm (Q2Qc (8 # 10))).
      apply Qcmult_lt_compat_r; [|exact Hb]. unfold Qclt. simpl. reflexivity.
    + apply Qcmult_lt_compat_r; [exact Hpos|exact Hq].
  - intros _. destruct r as [a| | |]; cbn [div]; try discriminate.
Qed.

(** X9. What [displayPositionInfo] computes for a position: when the
    suggestion is the fee-risk one, the unrealized PnL shown with it is
    above 10 and the realized PnL above 8; where moreover no sum of
    [calculatePnl] is rounded and the fees are not negative, the total PnL
    is above 10 and not below the unrealized PnL, so that the override is
    not shown for a position at a loss. *)
Theorem fee_risk_only_in_profit
  (env : Env) (position : Position) (currentValueUSD : number) :
  let shown := displayPositionInfo env position currentValueUSD in
  String.prefix "High fees earned" (reason (snd shown)) = true ->
  gtb (Pnl.unrealized_pnl_usd (fst shown)) (of_Z 10) = true
  /\ gtb (Pnl.realized_pnl_usd (fst shown)) (of_Z 8) = true
  /\ (exact_pnl currentValueUSD position = true ->
      leb zero (fees_claimed_usd position) = true ->
      gtb (Pnl.total_pnl_usd (fst shown)) (of_Z 10) = true
      /\ geb (Pnl.total_pnl_usd (fst shown))
             (Pnl.unrealized_pnl_usd (fst shown)) = true).
Proof.
  intros shown Hreason. subst shown.
  unfold displayPositionInfo in *. cbn [fst snd] in *.
  apply fee_reason_needs_fee_risk in Hreason. unfold fee_risk_fires in Hreason.
  destruct (gtb (Pnl.unrealized_pnl_usd _) (of_Z 10)) eqn:Hu; [|discriminate].
  split; [reflexivity|]. split; [exact (fee_ratio_needs_fees _ _ Hu Hreason)|].
  clear Hreason. revert Hu. intros Hu Hp Hfees. revert Hu.
  apply exact_pnl_inv in Hp.
  destruct Hp as (i & f & a & w & c & Hi & Hf & Ha & Hw & ->).
  unfold calculatePnl, eval, bind, read, ret. cbn [fst snd Pnl.unrealized_pnl_usd Pnl.total_pnl_usd].
  rewrite Hi, Ha, Hw. rewrite Hf in Hfees |- *. unfold gtb, geb, sub. cbn [add neg ltb leb of_Z] in *.
  rewrite !q_ltb_lt, q_leb_le. intros Hu.
  assert (E : (c + w + f + - (i + a) = (c + - (i + a + - w)) + f)%Qc) by ring.
  rewrite E.
  assert (Hge : (c + - (i + a + - w) <= c + - (i + a + - w) + f)%Qc).
  { rewrite <- (Qcplus_0_r (c + - (i + a + - w))) at 1.
    apply Qcplus_le_compat; [apply Qcle_refl|].
    apply q_leb_le. exact Hfees. }
  split; [|exact Hge].
  eapply Qclt_le_trans; [exact Hu|exact Hge].
Qed.

(** The scenario position valued at 275: unrealized 25, realized 55, total
    30. *)
Lemma fee_risk_only_in_profit_witness :
  let shown := displayPositionInfo scenario_env scenario_position (of_Z 275) in
  String.prefix "High fees earned" (reason (snd shown)) = true
  /\ exact_pnl (of_Z 275) scenario_position = true
  /\ gtb (Pnl.realized_pnl_usd (fst shown)) (of_Z 8) = true
  /\ gtb (Pnl.total_pnl_usd (fst shown)) (of_Z 10) = true.
Proof.
  intros shown.
  destruct (fee_risk_only_in_profit scenario_env scenario_position (of_Z 275)
              eq_refl) as (_ & Hr & Ht).
  split; [reflexivity|]. split; [reflexivity|]. split; [exact Hr|].
  apply Ht; reflexivity.
Defined.


(** ** More on aggregate reporting *)

Lemma fold_tally_snoc l p t :
  fold_left tally_step (l ++ [p])%list t = tally_step (fold_left tally_step l t) p.
Proof. now rewrite fold_left_app. Qed.

Lemma orZero_not_nan (x : option number) : isNaN (orZero x) = false.
Proof. destruct x as [[q| | |]|]; simpl; try reflexivity. now destruct (q_zero q). Qed.

Lemma leb_refl (x : number) : isNaN x = false -> leb x x = true.
Proof.
  destruct x as [a| | |]; simpl; try discriminate; try reflexivity.
  intros _. unfold q_leb. apply Z.leb_refl.
Qed.

Lemma ltb_leb (x y : number) : ltb x y = true -> leb x y = true.
Proof.
  destruct x as [a| | |], y as [b| | |]; simpl; try discriminate; try reflexivity.
  unfold q_ltb, q_leb. intros H. apply Z.ltb_lt in H. apply Z.leb_le. lia.
Qed.

Lemma not_ltb_leb (x y : number) :
  isNaN x = false -> isNaN y = false -> ltb x y = false -> leb y x = true.
Proof.
  intros Hx Hy H. rewrite (ltb_negb_leb x y Hx Hy) in H.
  now apply negb_false_iff in H.
Qed.

Lemma leb_not_nan (x y : number) :
  leb x y = true -> isNaN x = false /\ isNaN y = false.
Proof. destruct x, y; simpl; try discriminate; auto. Qed.

(** X11. The biggest win of the report is the largest final PnL of the list
    or 0, whichever is larger, and the biggest loss the smallest final PnL or
    0, whichever is smaller: both bound every final PnL, each is 0 or the
    final PnL of a listed position, and a missing final PnL counts as 0. *)
Theorem biggest_win_and_loss_are_extremes (positions : list Position) :
  let s := calculateSummaryStats positions in
  (forall p, In p positions ->
     leb (closed_pnl p) (biggestWinUSD s) = true
     /\ leb (biggestLossUSD s) (closed_pnl p) = true)
  /\ (biggestWinUSD s = zero
      \/ exists p, In p positions /\ closed_pnl p = biggestWinUSD s)
  /\ (biggestLossUSD s = zero
      \/ exists p, In p positions /\ closed_pnl p = biggestLossUSD s)
  /\ leb zero (biggestWinUSD s) = true
  /\ leb (biggestLossUSD s) zero = true.
Proof.
  cbv zeta. unfold calculateSummaryStats. cbn [biggestWinUSD biggestLossUSD].
  induction positions as [|p l IH] using rev_ind.
  - simpl. repeat split; auto; contradiction.
  - rewrite fold_tally_snoc.
    set (t := fold_left tally_step l tally_start) in *.
    destruct IH as (Hall & Hw & Hl & Hw0 & Hl0).
    pose proof (orZero_not_nan (final_pnl_usd p)) as Hx.
    fold (closed_pnl p) in Hx.
    destruct (leb_not_nan _ _ Hw0) as [_ HBw].
    destruct (leb_not_nan _ _ Hl0) as [HBl _].
    assert (Hex : forall (b : number) (P : Position -> Prop),
               (b = zero \/ exists p', In p' l /\ P p') ->
               b = zero \/ exists p', In p' (l ++ [p])%list /\ P p').
    { intros b P [E|(p' & Hin & HP)]; [now left|right].
      exists p'. split; [apply in_or_app; now left|exact HP]. }
    unfold tally_step. fold (closed_pnl p).
    destruct (gtb (closed_pnl p) zero) eqn:Ewin;
      [|destruct (ltb (closed_pnl p) zero) eqn:Eloss];
      cbn [t_biggestWinUSD t_biggestLossUSD].
    + (* a win *)
      unfold gtb in *.
      assert (Hlx : leb (t_biggestLossUSD t) (closed_pnl p) = true).
      { apply leb_trans with zero; [exact Hl0|now apply ltb_leb]. }
      destruct (ltb (t_biggestWinUSD t) (closed_pnl p)) eqn:Ebig.
      * repeat split.
        -- apply in_app_or in H. destruct H as [H|[<-|[]]].
           ++ apply leb_trans with (t_biggestWinUSD t); [apply Hall, H|now apply ltb_leb].
           ++ now apply leb_refl.
        -- apply in_app_or in H. destruct H as [H|[<-|[]]]; [apply Hall, H|exact Hlx].
        -- right. exists p. split; [apply in_or_app; right; now left|reflexivity].
        -- apply (Hex _ (fun p' => closed_pnl p' = t_biggestLossUSD t)), Hl.
        -- now apply ltb_leb.
        -- exact Hl0.
      * repeat split.
        -- apply in_app_or in H. destruct H as [H|[<-|[]]]; [apply Hall, H|].
           now apply not_ltb_leb.
        -- apply in_app_or in H. destruct H as [H|[<-|[]]]; [apply Hall, H|exact Hlx].
        -- apply (Hex _ (fun p' => closed_pnl p' = t_biggestWinUSD t)), Hw.
        -- apply (Hex _ (fun p' => closed_pnl p' = t_biggestLossUSD t)), Hl.
        -- exact Hw0.
        -- exact Hl0.
    + (* a loss *)
      assert (Hxw : leb (closed_pnl p) (t_biggestWinUSD t) = true).
      { apply leb_trans with zero; [now apply ltb_leb|exact Hw0]. }
      destruct (ltb (closed_pnl p) (t_biggestLossUSD t)) eqn:Ebig.
      * repeat split.
        -- apply in_app_or in H. destruct H as [H|[<-|[]]]; [apply Hall, H|exact Hxw].
        -- apply in_app_or in H. destruct H as [H|[<-|[]]].
           ++ apply leb_trans with (t_biggestLossUSD t); [now apply ltb_leb|apply Hall, H].
           ++ now apply leb_refl.
        -- apply (Hex _ (fun p' => closed_pnl p' = t_biggestWinUSD t)), Hw.
        -- right. exists p. split; [apply in_or_app; right; now left|reflexivity].
        -- exact Hw0.
        -- now apply ltb_leb.
      * repeat split.
        -- apply in_app_or in H. destruct H as [H|[<-|[]]]; [apply Hall, H|exact Hxw].
        -- apply in_app_or in H. destruct H as [H|[<-|[]]]; [apply Hall, H|].
           now apply not_ltb_leb.
        -- apply (Hex _ (fun p' => closed_pnl p' = t_biggestWinUSD t)), Hw.
        -- apply (Hex _ (fun p' => closed_pnl p' = t_biggestLossUSD t)), Hl.
        -- exact Hw0.
        -- exact Hl0.
    + (* broke even *)
      unfold gtb in Ewin.
      assert (Hx0 : leb (closed_pnl p) zero = true) by now apply not_ltb_leb.
      assert (H0x : leb zero (closed_pnl p) = true) by now apply not_ltb_leb.
      repeat split.
      * apply in_app_or in H. destruct H as [H|[<-|[]]]; [apply Hall, H|].
        now apply leb_trans with zero.
      * apply in_app_or in H. destruct H as [H|[<-|[]]]; [apply Hall, H|].
        now apply leb_trans with zero.
      * apply (Hex _ (fun p' => closed_pnl p' = t_biggestWinUSD t)), Hw.
      * apply (Hex _ (fun p' => closed_pnl p' = t_biggestLossUSD t)), Hl.
      * exact Hw0.
      * exact Hl0.
Qed.



Lemma outcome_partition (l : list Position) :
  (List.length (filter is_win l) + List.length (filter is_loss l)
   + List.length (filter broke_even l) = List.length l)%nat.
Proof.
  induction l as [|p l IH]; [reflexivity|].
  cbn [filter]. unfold broke_even at 1.
  destruct (is_win p) eqn:Ew.
  - rewrite (win_not_loss p Ew). cbn [negb andb List.length]. lia.
  - destruct (is_loss p); cbn [negb andb List.length]; lia.
Qed.

Lemma of_nat_le (k n : nat) :
  (k <= n)%nat -> (Q2Qc (inject_Z (Z.of_nat k)) <= Q2Qc (inject_Z (Z.of_nat n)))%Qc.
Proof.
  intros H. unfold Qcle. cbn [this Q2Qc]. apply Qred_le.
  unfold Qle. simpl. lia.
Qed.

(** [k] out of [n] as a percentage lies between 0 and 100. *)
Lemma rate_bounds (k n : nat) :
  (k <= n)%nat ->
  let rate :=
    if (0 <? n)%nat then mul (div (of_nat k) (of_nat n)) (of_Z 100) else zero in
  leb zero rate = true /\ leb rate (of_Z 100) = true.
Proof.
  intros Hk. cbv zeta.
  destruct (0 <? n)%nat eqn:En; [|split; reflexivity].
  apply Nat.ltb_lt in En. rewrite (div_of_nat _ _ En).
  pose proof (of_nat_pos _ En) as Hn.
  pose proof (of_nat_le _ _ Hk) as Hkn.
  pose proof (of_nat_le 0 k ltac:(lia)) as Hk0.
  change (Q2Qc (inject_Z (Z.of_nat 0))) with (Q2Qc 0) in Hk0.
  set (K := Q2Qc (inject_Z (Z.of_nat k))) in *.
  set (N := Q2Qc (inject_Z (Z.of_nat n))) in *.
  assert (Hn0 : N <> Q2Qc 0) by (intros E; apply Qclt_not_eq in Hn; congruence).
  assert (E : (K / N * Q2Qc (inject_Z 100) * N = K * Q2Qc (inject_Z 100))%Qc)
    by (field; exact Hn0).
  assert (H100 : (Q2Qc 0 <= Q2Qc (inject_Z 100))%Qc) by (unfold Qcle; simpl; discriminate).
  unfold zero, of_Z. cbn [mul leb]. rewrite !q_leb_le.
  change (Q2Qc (inject_Z 0)) with (Q2Qc 0).
  split; apply Qcmult_lt_0_le_reg_r with (z := N); try exact Hn; rewrite E.
  - replace (Q2Qc 0 * N)%Qc with (Q2Qc 0 * Q2Qc (inject_Z 100))%Qc by ring.
    apply Qcmult_le_compat_r; assumption.
  - rewrite (Qcmult_comm (Q2Qc (inject_Z 100)) N).
    apply Qcmult_le_compat_r; assumption.
Qed.

Lemma filter_length_le {A} (f : A -> bool) (l : list A) :
  (List.length (filter f l) <= List.length l)%nat.
Proof.
  induction l as [|a l IH]; simpl; [lia|]. destruct (f a); simpl; lia.
Qed.

(** X12. Every position of the list is counted as a win, as a loss or as
    neither (final PnL 0, missing or NaN), and the win rate and the loss
    rate each lie between 0 and 100. *)
Theorem rates_cover_all_but_break_even (positions : list Position) :
  let s := calculateSummaryStats positions in
  (winningPositions s + losingPositions s
   + List.length (filter broke_even positions) = List.length positions)%nat
  /\ leb zero (winRate s) = true /\ leb (winRate s) (of_Z 100) = true
  /\ leb zero (lossRate s) = true /\ leb (lossRate s) (of_Z 100) = true.
Proof.
  cbv zeta.
  destruct (tally_counts positions tally_start) as (Hw & Hl & _ & _).
  cbv zeta in Hw, Hl. cbn [tally_start t_winningPositions t_losingPositions Nat.add] in Hw, Hl.
  unfold calculateSummaryStats. cbn [winningPositions losingPositions winRate lossRate].
  rewrite Hw, Hl. split; [apply outcome_partition|].
  pose proof (rate_bounds _ _ (filter_length_le is_win positions)) as [H1 H2].
  pose proof (rate_bounds _ _ (filter_length_le is_loss positions)) as [H3 H4].
  repeat split; assumption.
Qed.
(** ** The file between two runs *)

Lemma store_set_fresh key v (s : Positions) :
  ~ In key (map fst s) -> store_set key v s = (s ++ [(key, v)])%list.
Proof.
  induction s as [|[k0 p0] s IH]; simpl; intros H; [reflexivity|].
  destruct (String.eqb k0 key) eqn:E.
  - apply String.eqb_eq in E. tauto.
  - rewrite IH; [reflexivity|tauto].
Qed.

Lemma settled_stable p : settled p -> stable p.
Proof. intros (Hid & Hjson & Htotal). repeat split; auto. Qed.

Lemma migrate_stable k p :
  stable p -> migrate k (mkStored (json_position p) None None) = p.
Proof.
  intros (Hid & Hjson & Htotal). unfold migrate.
  cbn [stored capital_reduction_usd profit_taken_usd]. rewrite Hjson.
  apply String.eqb_neq in Hid. rewrite Hid.
  unfold initial_value_usd in Htotal.
  destruct (initial_value_usd_field p) as [initial|] eqn:E; [|reflexivity].
  destruct Htotal as [Hnone|Htotal]; [discriminate|].
  destruct p; cbn in Htotal |- *. unfold set_total_invested_usd. cbn.
  now rewrite Htotal.
Qed.

Lemma reload_from (l acc : Positions) :
  NoDup (map fst (acc ++ l)%list) ->
  Forall (fun kp => fst kp = id (snd kp)) l ->
  all_positions stable l ->
  fold_left
    (fun migratedPositions '(key, entry) =>
       let pos := migrate key entry in
       store_set (id pos) pos migratedPositions)
    (savePositions l) acc
  = (acc ++ l)%list.
Proof.
  revert acc. induction l as [|[k p] l IH]; intros acc Hd Hk Hs.
  - simpl. now rewrite app_nil_r.
  - cbn [savePositions map fold_left fst snd]. fold (savePositions l).
    inversion Hk as [|? ? Hkp Hk']; subst. cbn [fst snd] in Hkp.
    assert (Hp : stable p) by (apply (Hs k); now left).
    rewrite (migrate_stable k p Hp), <- Hkp.
    rewrite map_app in Hd. cbn [map fst] in Hd.
    rewrite store_set_fresh.
    + rewrite IH.
      * now rewrite <- app_assoc.
      * rewrite <- app_assoc, map_app. exact Hd.
      * exact Hk'.
      * intros k' p' Hin. apply (Hs k'). now right.
    + intros Hin. apply NoDup_remove_2 in Hd. apply Hd.
      apply in_or_app. now left.
Qed.

(** X13. Saving and loading is the identity on a store that is keyed by the
    identifiers of its positions, without a repeated key, and whose
    positions are settled (an identifier, finite numbers, a total equal to
    initial value plus capital additions): the next run reads back the same
    positions in the same order. *)
Theorem saved_store_is_read_back (positions : Positions) :
  well_keyed positions ->
  all_positions settled positions ->
  loadPositions (savePositions positions) = positions.
Proof.
  intros [Hd Hk] Hs. unfold loadPositions.
  apply (reload_from positions []); try assumption.
  intros k p Hin. apply settled_stable. exact (Hs k p Hin).
Qed.

Lemma saved_store_is_read_back_witness :
  loadPositions (savePositions [("tok_1000_abc", scenario_position)])
  = [("tok_1000_abc", scenario_position)].
Proof.
  apply saved_store_is_read_back.
  - split.
    + simpl. constructor; [intros []|constructor].
    + apply Forall_forall. intros [k p] [[= <- <-]|[]]. reflexivity.
  - intros k p [[= <- <-]|[]]. split; [discriminate|]. split; reflexivity.
Defined.

Lemma json_number_idem x : json_number (json_number x) = json_number x.
Proof. destruct x; reflexivity. Qed.

Lemma json_number_finite x : isFinite x = true -> json_number x = x.
Proof. destruct x; try discriminate. reflexivity. Qed.

Lemma option_json_idem o :
  option_map json_number (option_map json_number o) = option_map json_number o.
Proof. destruct o as [x|]; [|reflexivity]. simpl. now rewrite json_number_idem. Qed.

Lemma json_position_idem p : json_position (json_position p) = json_position p.
Proof.
  destruct p. unfold json_position. cbn.
  now rewrite !json_number_idem, !option_json_idem.
Qed.

Lemma orZero_json_finite o : isFinite (orZero (option_map json_number o)) = true.
Proof.
  destruct o as [[q| | |]|]; simpl; try reflexivity. now destruct (q_zero q).
Qed.

Lemma add_finite x y : isFinite x = true -> isFinite y = true -> isFinite (add x y) = true.
Proof. destruct x, y; try discriminate; reflexivity. Qed.

Lemma json_number_is_finite x : isFinite (json_number x) = true.
Proof. destruct x; reflexivity. Qed.

(** A saved position with an identifier is stable when it is read back. *)
Lemma migrate_saved_stable k p :
  has_id p -> stable (migrate k (mkStored (json_position p) None None)).
Proof.
  intros Hid. split; [apply migrate_has_id|].
  unfold migrate. cbn [stored capital_reduction_usd profit_taken_usd].
  assert (E : String.eqb (id (json_position p)) "" = false)
    by (apply String.eqb_neq; exact Hid).
  rewrite E.
  pose proof (json_position_idem p) as Hj.
  destruct (initial_value_usd_field (json_position p)) as [initial|] eqn:Ei.
  - assert (Hfin : isFinite initial = true).
    { destruct p as [? ? [v|] ? ? ? ? ? ? ? ? ? ? ? ?]; cbn in Ei; [|discriminate].
      injection Ei as <-. apply json_number_is_finite. }
    pose proof (add_finite _ _ Hfin
                  (orZero_json_finite (capital_additions_usd p))) as Hf.
    split.
    + destruct p. unfold json_position in *. cbn in *.
      unfold json_position. cbn.
      rewrite !json_number_idem, !option_json_idem.
      now rewrite (json_number_finite _ Hf).
    + right. unfold initial_value_usd.
      destruct p as [? ? [v|] ? ? ? ? ? ? ? ? ? ? ? ?]; cbn in Ei |- *; [|discriminate].
      injection Ei as <-. reflexivity.
  - split; [exact Hj|left; exact Ei].
Qed.

Lemma reload_stable (positions : Positions) :
  all_positions has_id positions -> all_positions stable (reload positions).
Proof.
  intros Hid. unfold reload, loadPositions.
  match goal with |- context [fold_left ?f _ _] => set (step := f) end.
  enough (H : forall l acc,
             all_positions has_id l -> all_positions stable acc ->
             all_positions stable (fold_left step (savePositions l) acc)).
  { apply H; [exact Hid|intros k p []]. }
  induction l as [|[k p] l IH]; intros acc Hl Hacc; [exact Hacc|].
  cbn [savePositions map fold_left fst snd]. fold (savePositions l).
  apply IH; [intros k' p' ?; apply (Hl k'); now right|].
  intros k' p' Hin. unfold step in Hin. apply store_set_In in Hin.
  destruct Hin as [[= -> ->]|Hin]; [|exact (Hacc _ _ Hin)].
  apply migrate_saved_stable. apply (Hl k). now left.
Qed.

(** X14. Whatever a save followed by a load changes (numbers that are not
    finite, a stale total, keys), it changes the first time: for every store
    whose positions have identifiers, saving and loading twice gives the
    same store as saving and loading once. *)
Theorem second_reload_changes_nothing (positions : Positions) :
  all_positions has_id positions ->
  reload (reload positions) = reload positions.
Proof.
  intros Hid. unfold reload at 1.
  destruct (loadPositions_well_keyed (savePositions positions)) as [Hd Hk].
  apply (reload_from (reload positions) []); [exact Hd|exact Hk|].
  now apply reload_stable.
Qed.

(** A position whose stored total is stale and whose fees are infinite. *)
Lemma second_reload_changes_nothing_witness :
  let positions :=
    [("a", set_fees_claimed_usd PInf (set_total_invested_usd (of_Z 1) scenario_position))] in
  reload positions <> positions
  /\ reload (reload positions) = reload positions.
Proof.
  intros positions. split; [discriminate|].
  apply (second_reload_changes_nothing positions).
  intros k p [[= <- <-]|[]]. discriminate.
Defined.

(** ** Files of the earlier version *)

Lemma orZero_Fin_add_zero (r : Qc) :
  orZero (Some (add (Fin r) (orZero None))) = orZero (Some (Fin r)).
Proof. rewrite orZero_None. now rewrite add_zero_r. Qed.

Lemma migrate_legacy_withdrawn key e :
  legacy_entry e = true ->
  orZero (withdrawn_usd (migrate key e)) = orZero (capital_reduction_usd e)
  /\ initial_value_usd (migrate key e) = initial_value_usd (stored e)
  /\ capital_additions_usd (migrate key e) = capital_additions_usd (stored e)
  /\ fees_claimed_usd (migrate key e) = fees_claimed_usd (stored e).
Proof.
  unfold legacy_entry. rewrite !andb_true_iff.
  intros (((((Hw & Hp) & _) & _) & _) & Hr).
  destruct e as [p r t]. cbn [stored capital_reduction_usd profit_taken_usd] in *.
  destruct t; [discriminate|].
  destruct p as [pid ptok pinit pfees pcreated pupdated padd w ptotal pc pe pf pp pi pv].
  cbn in Hw. destruct w; [discriminate|]. destruct pinit as [initial|].
  all: unfold migrate; cbn [stored capital_reduction_usd profit_taken_usd].
  all: destruct (String.eqb _ ""); destruct r as [[q| | |]|]; try discriminate;
    unfold set_total_invested_usd, set_withdrawn_usd, set_token, set_id;
    cbn -[add orZero zero]; repeat split; try reflexivity;
    apply orZero_Fin_add_zero.
Qed.

(** X15. Migration keeps the unrealized PnL of an entry written by the
    earlier version: for finite amounts, [calculatePnl] on the migrated
    position returns the unrealized PnL (in USD and in SOL) that the earlier
    [calculatePnl] returned on the entry, while the capital reductions of
    the entry move into the realized PnL and into the total invested; the
    total PnL (in USD and in SOL) is the earlier one where no sum of either
    computation is rounded. *)
Theorem legacy_pnl_survives_migration
  (key : string) (e : StoredPosition) (solPriceUSD currentValueUSD : number) :
  legacy_entry e = true ->
  let old := Legacy.calculatePnl solPriceUSD currentValueUSD e in
  let new := eval (calculatePnl solPriceUSD currentValueUSD) (migrate key e) in
  let reductions := orZero (capital_reduction_usd e) in
  Pnl.unrealized_pnl_usd new = Pnl.unrealized_pnl_usd old
  /\ Pnl.unrealized_pnl_sol new = Pnl.unrealized_pnl_sol old
  /\ Pnl.realized_pnl_usd new = add reductions (Pnl.realized_pnl_usd old)
  /\ Pnl.total_invested_usd old = sub (Pnl.total_invested_usd new) reductions
  /\ (exact_pnl currentValueUSD (migrate key e) = true ->
      representable (Pnl.total_pnl_usd old) = true ->
      Pnl.total_pnl_usd new = Pnl.total_pnl_usd old
      /\ Pnl.total_pnl_sol new = Pnl.total_pnl_sol old).
Proof.
  intros He. cbv zeta.
  destruct (migrate_legacy_withdrawn key e He) as (Hw & Hi & Ha & Hf).
  assert (Eu : Pnl.unrealized_pnl_usd
                 (eval (calculatePnl solPriceUSD currentValueUSD) (migrate key e))
               = Pnl.unrealized_pnl_usd
                   (Legacy.calculatePnl solPriceUSD currentValueUSD e)).
  { unfold eval, calculatePnl, Legacy.calculatePnl, bind, read, ret.
    cbn [fst Pnl.unrealized_pnl_usd].
    rewrite Hw, Hi, Ha. reflexivity. }
  split; [exact Eu|].
  split; [|split; [|split]].
  - unfold eval, calculatePnl, Legacy.calculatePnl, bind, read, ret in *.
    cbn [fst Pnl.unrealized_pnl_usd Pnl.unrealized_pnl_sol] in *. now rewrite Eu.
  - unfold eval, calculatePnl, Legacy.calculatePnl, bind, read, ret.
    cbn [fst Pnl.realized_pnl_usd].
    rewrite Hw, Hf. reflexivity.
  - unfold eval, calculatePnl, Legacy.calculatePnl, bind, read, ret.
    cbn [fst Pnl.total_invested_usd].
    rewrite Hi, Ha. reflexivity.
  - intros Hexact _.
    assert (Et : Pnl.total_pnl_usd
                   (eval (calculatePnl solPriceUSD currentValueUSD) (migrate key e))
                 = Pnl.total_pnl_usd
                     (Legacy.calculatePnl solPriceUSD currentValueUSD e)).
    { apply exact_pnl_inv in Hexact.
      destruct Hexact as (i & f & a & w & c & Ei & Ef & Ea & Ew & Ec).
      unfold eval, calculatePnl, Legacy.calculatePnl, bind, read, ret.
      cbn [fst Pnl.total_pnl_usd].
      rewrite <- Hw, <- Hi, <- Ha, <- Hf.
      rewrite Ei, Ef, Ea, Ew, Ec. cbn [add sub neg].
      f_equal. ring. }
    split; [exact Et|].
    unfold eval, calculatePnl, Legacy.calculatePnl, bind, read, ret in *.
    cbn [fst Pnl.total_pnl_usd Pnl.total_pnl_sol] in *. now rewrite Et.
Qed.

(** The sample entry valued at 275: unrealized PnL 25 and total PnL 30
    before and after. *)
Lemma legacy_pnl_survives_migration_witness :
  let old := Legacy.calculatePnl (of_Z 185) (of_Z 275) legacy_sample in
  let new := eval (calculatePnl (of_Z 185) (of_Z 275)) (migrate "tok" legacy_sample) in
  Pnl.unrealized_pnl_usd old = of_Z 25
  /\ Pnl.unrealized_pnl_usd new = Pnl.unrealized_pnl_usd old
  /\ Pnl.total_pnl_usd new = Pnl.total_pnl_usd old.
Proof.
  intros old new.
  destruct (legacy_pnl_survives_migration "tok" legacy_sample (of_Z 185) (of_Z 275)
              eq_refl) as (Hu & _ & _ & _ & Ht).
  split; [|split; [exact Hu|apply Ht; reflexivity]].
  vm_compute. apply (f_equal Fin). apply Qc_is_canon. reflexivity.
Defined.
(** ** What the commands do to the store *)

Lemma store_delete_skip key v (pre post : Positions) :
  ~ In key (map fst pre) ->
  store_delete key (pre ++ (key, v) :: post)%list = (pre ++ post)%list.
Proof.
  induction pre as [|[k0 p0] pre IH]; simpl; intros H.
  - now rewrite String.eqb_refl.
  - destruct (String.eqb k0 key) eqn:E.
    + apply String.eqb_eq in E. tauto.
    + rewrite IH; [reflexivity|tauto].
Qed.

Lemma found_split (s : Positions) tok p :
  findActivePosition s tok = Some p ->
  exists pre k post,
    s = (pre ++ (k, p) :: post)%list
    /\ findActivePosition pre tok = None
    /\ forall st, update_active tok st s = (pre ++ (k, exec st p) :: post)%list.
Proof.
  unfold findActivePosition, values.
  induction s as [|[k0 p0] s IH]; simpl; [discriminate|].
  destruct (is_active_for tok p0) eqn:E.
  - intros [= ->]. exists [], k0, s. auto.
  - intros H. destruct (IH H) as (pre & k & post & -> & Hn & Hu).
    exists ((k0, p0) :: pre), k, post. simpl. rewrite E.
    repeat split; [exact Hn|]. intros st. now rewrite Hu.
Qed.

(** Where the active position of a token sits in a well-keyed store. *)
Lemma found_entry (s : Positions) tok p :
  well_keyed s ->
  findActivePosition s tok = Some p ->
  exists pre post,
    s = (pre ++ (id p, p) :: post)%list
    /\ findActivePosition pre tok = None
    /\ store_delete (id p) s = (pre ++ post)%list
    /\ forall st, update_active tok st s = (pre ++ (id p, exec st p) :: post)%list.
Proof.
  intros [Hd Hk] Hf.
  destruct (found_split s tok p Hf) as (pre & k & post & Hs & Hn & Hu).
  assert (Ek : k = id p).
  { rewrite Forall_forall in Hk. apply (Hk (k, p)). rewrite Hs.
    apply in_or_app. right. now left. }
  subst k. exists pre, post. split; [exact Hs|]. split; [exact Hn|]. split.
  - rewrite Hs. apply store_delete_skip.
    rewrite Hs, map_app in Hd. cbn [map fst] in Hd.
    apply NoDup_remove_2 in Hd. intros Hin. apply Hd. apply in_or_app. now left.
  - exact Hu.
Qed.

Lemma main_remove env a0 rest file :
  toLowerCase a0 = "remove" ->
  main env (a0 :: rest) file = cmd_remove (a0 :: rest) (loadPositions file).
Proof. intros H. unfold main. now rewrite H. Qed.

Lemma main_reset env a0 rest file :
  toLowerCase a0 = "reset" ->
  main env (a0 :: rest) file = cmd_reset env (a0 :: rest) (loadPositions file).
Proof. intros H. unfold main. now rewrite H. Qed.

Lemma main_clean env a0 rest file :
  toLowerCase a0 = "clean" ->
  main env (a0 :: rest) file = cmd_clean (loadPositions file).
Proof. intros H. unfold main. now rewrite H. Qed.

Lemma clean_from (l acc : Positions) :
  NoDup (map fst (acc ++ l)%list) ->
  fold_left
    (fun cleanedPositions '(key, position) =>
       let initialValue :=
         orZero (or_field (initial_value_usd_field position)
                          (initial_value position)) in
       if gtb initialValue (of_Z 10000) then cleanedPositions
       else store_set key position cleanedPositions)
    l acc
  = (acc ++ filter plausible l)%list.
Proof.
  revert acc. induction l as [|[k p] l IH]; intros acc Hd.
  - simpl. now rewrite app_nil_r.
  - cbn [fold_left filter]. cbv zeta. unfold plausible at 1. cbn [snd].
    rewrite map_app in Hd. cbn [map fst] in Hd.
    destruct (gtb _ (of_Z 10000)); cbn [negb].
    + apply IH. rewrite map_app. now apply NoDup_remove_1 in Hd.
    + rewrite store_set_fresh.
      * rewrite IH; [now rewrite <- app_assoc|].
        rewrite <- app_assoc, map_app. exact Hd.
      * apply NoDup_remove_2 in Hd. intros Hin. apply Hd.
        apply in_or_app. now left.
Qed.

(** X16. [clean], in any letter case and whatever follows it on the command
    line, saves the loaded entries whose initial value is not above 10000
    and no others, where the initial value is [initial_value_usd], or the
    [initial_value] of an older entry when that is absent, 0 or [NaN];
    closed positions are not exempt and an entry without a usable initial
    value is kept. *)
Theorem clean_keeps_the_plausible_positions
  (env : Env) (a0 : string) (rest : list string) (file : PositionFile) :
  toLowerCase a0 = "clean" ->
  exists saved,
    main env (a0 :: rest) file = Saved saved
    /\ forall entry,
         In entry saved <-> In entry (loadPositions file) /\ plausible entry = true.
Proof.
  intros H. exists (filter plausible (loadPositions file)). split.
  - rewrite (main_clean _ _ _ _ H). unfold cmd_clean. f_equal.
    apply (clean_from (loadPositions file) []).
    apply loadPositions_well_keyed.
  - intros entry. apply filter_In.
Qed.

(** X17. [remove] on a token with an active position saves the loaded
    store without the entry of the first active position of that token:
    every other entry, before and after it, stays as it is and in place. *)
Theorem remove_deletes_one_entry
  (env : Env) (a0 tok : string) (rest : list string) (file : PositionFile)
  (p : Position) :
  toLowerCase a0 = "remove" ->
  findActivePosition (loadPositions file) (toLowerCase tok) = Some p ->
  exists pre post,
    loadPositions file = (pre ++ (id p, p) :: post)%list
    /\ findActivePosition pre (toLowerCase tok) = None
    /\ main env (a0 :: tok :: rest) file = Saved (pre ++ post)%list.
Proof.
  intros H Hf. rewrite (main_remove _ _ _ _ H). unfold cmd_remove. rewrite Hf.
  destruct (found_entry _ _ _ (loadPositions_well_keyed file) Hf)
    as (pre & post & Hs & Hn & Hd & _).
  exists pre, post. now rewrite Hd.
Qed.

Lemma generatePositionId_lower env tok :
  generatePositionId env (toLowerCase tok) = generatePositionId env tok.
Proof. unfold generatePositionId. now rewrite toLowerCase_idem. Qed.

Lemma fresh_ids_In env args (s : Positions) a :
  fresh_ids env args s = true -> In a args ->
  ~ In (generatePositionId env a) (map fst s).
Proof.
  unfold fresh_ids. rewrite forallb_forall. intros H Ha Hin.
  specialize (H a Ha). apply negb_true_iff in H.
  assert (E : existsb (String.eqb (generatePositionId env a)) (map fst s) = true).
  { apply existsb_exists. exists (generatePositionId env a).
    split; [exact Hin|apply String.eqb_refl]. }
  congruence.
Qed.

Lemma not_in_without (pre post : Positions) key entry :
  ~ In key (map fst (pre ++ entry :: post)%list) ->
  ~ In key (map fst (pre ++ post)%list).
Proof.
  rewrite !map_app. cbn [map]. intros H Hin. apply H.
  apply in_app_or in Hin. apply in_or_app. simpl. tauto.
Qed.

(** X18. [reset] on a token with an active position takes the entry of
    that position out of the store and appends a new position made by
    [initializePosition] from the parsed value, provided the generated
    identifier is not yet a key; the value only has to parse to a number, so
    zero and negative values are accepted, and fees, additions and
    withdrawals of the old position are gone. *)
Theorem reset_starts_over
  (env : Env) (a0 tok v : string) (rest : list string) (file : PositionFile)
  (p : Position) :
  toLowerCase a0 = "reset" ->
  isNaN (parseFloat v) = false ->
  findActivePosition (loadPositions file) (toLowerCase tok) = Some p ->
  fresh_ids env [tok] (loadPositions file) = true ->
  let new := initializePosition env (toLowerCase tok) (parseFloat v) in
  exists pre post,
    loadPositions file = (pre ++ (id p, p) :: post)%list
    /\ main env (a0 :: tok :: v :: rest) file
       = Saved (pre ++ post ++ [(id new, new)])%list.
Proof.
  intros H Hv Hf Hfresh new. rewrite (main_reset _ _ _ _ H).
  unfold cmd_reset. rewrite Hv, Hf.
  destruct (found_entry _ _ _ (loadPositions_well_keyed file) Hf)
    as (pre & post & Hs & Hn & Hd & _).
  exists pre, post. split; [exact Hs|]. rewrite Hd. fold new. f_equal.
  rewrite app_assoc. apply store_set_fresh.
  apply (not_in_without pre post _ (id p, p)). rewrite <- Hs.
  unfold new. cbn [id initializePosition]. rewrite generatePositionId_lower.
  apply (fresh_ids_In env [tok]); [exact Hfresh|now left].
Qed.

(** X19. When a token has an active position, the current value of the
    record command is not stored: two runs that differ only in that value,
    both values parsing to numbers, end in the same outcome and write the
    same store. *)
Theorem record_update_does_not_store_the_value
  (env : Env) (a0 v1 v2 : string) (more : list string) (file : PositionFile)
  (p : Position) :
  is_token a0 = true ->
  findActivePosition (loadPositions file) (toLowerCase a0) = Some p ->
  isNaN (parseFloat v1) = false ->
  isNaN (parseFloat v2) = false ->
  main env (a0 :: v1 :: more) file = main env (a0 :: v2 :: more) file.
Proof.
  intros Ht Hf H1 H2. rewrite !(is_token_record _ _ _ _ Ht).
  unfold cmd_record. rewrite H1, H2, Hf. reflexivity.
Qed.

(** X20. When a token has no active position, the record command creates
    one with fees claimed 0 whatever fees argument follows the value: the
    fees argument only has to parse to a number and is then dropped. *)
Theorem new_position_ignores_the_fees
  (env : Env) (a0 v f : string) (more : list string) (file : PositionFile) :
  is_token a0 = true ->
  findActivePosition (loadPositions file) (toLowerCase a0) = None ->
  isNaN (parseFloat v) = false ->
  isNaN (parseFloat f) = false ->
  let new := initializePosition env (toLowerCase a0) (parseFloat v) in
  main env (a0 :: v :: f :: more) file
  = Saved (store_set (id new) new (loadPositions file))
  /\ main env (a0 :: v :: f :: more) file = main env [a0; v] file
  /\ fees_claimed_usd new = zero.
Proof.
  intros Ht Hf Hv Hfees new. rewrite !(is_token_record _ _ _ _ Ht).
  unfold cmd_record. rewrite Hv, Hfees, Hf. cbn [isNaN zero of_Z].
  repeat split.
Qed.

Lemma update_active_keeps tok st (s : Positions) k p :
  In (k, p) s -> is_active_for tok p = false -> In (k, p) (update_active tok st s).
Proof.
  intros Hin Hp. induction s as [|[k0 p0] s IH]; [contradiction|].
  cbn [update_active]. destruct Hin as [[= -> ->]|Hin].
  - rewrite Hp. now left.
  - destruct (is_active_for tok p0); right; auto.
Qed.

Lemma store_delete_keeps (s : Positions) tok q k p :
  well_keyed s -> findActivePosition s tok = Some q ->
  In (k, p) s -> is_active_for tok p = false ->
  In (k, p) (store_delete (id q) s).
Proof.
  intros Hw Hf Hin Hp.
  destruct (findActivePosition_In _ _ _ Hf) as [Ha _].
  destruct (found_entry _ _ _ Hw Hf) as (pre & post & Hs & _ & Hd & _).
  rewrite Hd. rewrite Hs in Hin. apply in_app_or in Hin. apply in_or_app.
  destruct Hin as [Hin|[[= _ <-]|Hin]]; auto. congruence.
Qed.

Lemma store_set_keeps (s : Positions) key v k p :
  ~ In key (map fst s) -> In (k, p) s -> In (k, p) (store_set key v s).
Proof.
  intros Hfresh Hin. rewrite (store_set_fresh _ _ _ Hfresh).
  apply in_or_app. now left.
Qed.

Lemma fresh_after_delete (s : Positions) key key' :
  ~ In key (map fst s) -> ~ In key (map fst (store_delete key' s)).
Proof.
  intros H Hin. apply H. apply in_map_iff in Hin.
  destruct Hin as ([k p] & <- & Hin). apply store_delete_In in Hin.
  apply in_map_iff. exists (k, p). auto.
Qed.

(** A run that saves goes through one of the commands; [clean] and the
    record command are told apart by the first argument. *)
Lemma main_saved_named env a0 rest file saved :
  main env (a0 :: rest) file = Saved saved ->
  let positions := loadPositions file in
  let args := a0 :: rest in
  (toLowerCase a0 = "clean" /\ cmd_clean positions = Saved saved)
  \/ cmd_remove args positions = Saved saved
  \/ cmd_reset env args positions = Saved saved
  \/ cmd_claim_fee env args positions = Saved saved
  \/ cmd_add_capital env args positions = Saved saved
  \/ cmd_withdraw env args positions = Saved saved
  \/ cmd_close env args positions = Saved saved
  \/ cmd_record env (toLowerCase a0) args positions = Saved saved.
Proof.
  unfold main. cbv zeta.
  destruct (String.eqb (toLowerCase a0) "list"); [discriminate|].
  destruct (String.eqb (toLowerCase a0) "closed"); [discriminate|].
  destruct (String.eqb (toLowerCase a0) "summary"); [discriminate|].
  destruct (String.eqb (toLowerCase a0) "clean") eqn:E.
  { apply String.eqb_eq in E. auto. }
  repeat match goal with
         | |- (if ?c then _ else _) = _ -> _ => destruct c
         end; intros H; auto 12.
Qed.

(** X21. Apart from [clean], a run that saves leaves every position in
    the store that is not the active position of a token named on its
    command line, closed positions among them, provided the identifiers it
    could generate are not yet keys of the store. *)
Theorem other_positions_are_left_alone
  (env : Env) (a0 : string) (rest : list string) (file : PositionFile)
  (saved : Positions) (k : string) (p : Position) :
  toLowerCase a0 <> "clean" ->
  fresh_ids env (a0 :: rest) (loadPositions file) = true ->
  main env (a0 :: rest) file = Saved saved ->
  In (k, p) (loadPositions file) ->
  forallb (fun a => negb (is_active_for a p)) (a0 :: rest) = true ->
  In (k, p) saved.
Proof.
  intros Hclean Hfresh Hmain Hin Hp.
  pose proof (loadPositions_well_keyed file) as Hw.
  rewrite forallb_forall in Hp.
  assert (Hp0 : is_active_for (toLowerCase a0) p = false).
  { rewrite is_active_for_lower. apply negb_true_iff. apply Hp. now left. }
  assert (Hp1 : forall a1 more, rest = a1 :: more ->
                  is_active_for (toLowerCase a1) p = false).
  { intros a1 more ->. rewrite is_active_for_lower. apply negb_true_iff.
    apply Hp. right. now left. }
  assert (Hf0 : ~ In (generatePositionId env (toLowerCase a0))
                  (map fst (loadPositions file))).
  { rewrite generatePositionId_lower.
    apply (fresh_ids_In env (a0 :: rest)); [exact Hfresh|now left]. }
  assert (Hf1 : forall a1 more, rest = a1 :: more ->
                  ~ In (generatePositionId env (toLowerCase a1))
                    (map fst (loadPositions file))).
  { intros a1 more ->. rewrite generatePositionId_lower.
    apply (fresh_ids_In env (a0 :: a1 :: more)); [exact Hfresh|right; now left]. }
  apply main_saved_named in Hmain. cbv zeta in Hmain.
  set (positions := loadPositions file) in *.
  destruct Hmain as [[H _]|[H|[H|[H|[H|[H|[H|H]]]]]]].
  - contradiction.
  - unfold cmd_remove in H. command_cases H.
    eapply store_delete_keeps; eauto.
  - unfold cmd_reset in H. command_cases H.
    apply store_set_keeps.
    + apply fresh_after_delete. cbn [id initializePosition]. eapply Hf1; eauto.
    + eapply store_delete_keeps; eauto.
  - unfold cmd_claim_fee in H. command_cases H.
    apply update_active_keeps; eauto.
  - unfold cmd_add_capital in H. command_cases H.
    apply update_active_keeps; eauto.
  - unfold cmd_withdraw in H. command_cases H.
    apply update_active_keeps; eauto.
  - unfold cmd_close in H. command_cases H; apply update_active_keeps; eauto.
  - unfold cmd_record in H. command_cases H;
      try (apply update_active_keeps; eauto; fail);
      (apply store_set_keeps; [exact Hf0|exact Hin]).
Qed.

(** [close tok 500] on the file with a closed and an active position of
    [tok]. *)
Lemma other_positions_are_left_alone_witness :
  let saved :=
    update_active "tok" (close_statements scenario_env (parseFloat "500") zero)
      (loadPositions history_file) in
  main scenario_env ["close"; "tok"; "500"] history_file = Saved saved
  /\ In ("tok_0_a", closed_with (of_Z 100)) saved.
Proof.
  intros saved.
  assert (E : main scenario_env ["close"; "tok"; "500"] history_file = Saved saved)
    by reflexivity.
  split; [exact E|].
  apply (other_positions_are_left_alone scenario_env "close" ["tok"; "500"]
           history_file saved).
  - discriminate.
  - reflexivity.
  - exact E.
  - simpl. auto.
  - reflexivity.
Defined.

(** The entry of the older schema goes, the scenario position stays. *)
Lemma clean_keeps_the_plausible_positions_witness :
  exists saved,
    main scenario_env ["CLEAN"] older_file = Saved saved
    /\ In ("tok_1000_abc", scenario_position) saved
    /\ ~ In ("old_1000_abc", older_position) saved.
Proof.
  destruct (clean_keeps_the_plausible_positions scenario_env "CLEAN" [] older_file
              eq_refl) as (saved & Hmain & Hsaved).
  exists saved. split; [exact Hmain|]. split.
  - apply Hsaved. split; [|reflexivity]. right. left. reflexivity.
  - intros Hin. apply Hsaved in Hin. destruct Hin as [_ Hplausible].
    discriminate Hplausible.
Defined.

Lemma remove_deletes_one_entry_witness :
  exists pre post,
    loadPositions history_file
    = (pre ++ (id scenario_position, scenario_position) :: post)%list
    /\ findActivePosition pre (toLowerCase "TOK") = None
    /\ main scenario_env ["remove"; "TOK"] history_file = Saved (pre ++ post)%list.
Proof.
  apply (remove_deletes_one_entry scenario_env "remove" "TOK" [] history_file);
    reflexivity.
Defined.

Lemma reset_starts_over_witness :
  exists pre post,
    loadPositions history_file
    = (pre ++ (id scenario_position, scenario_position) :: post)%list
    /\ main scenario_env ["reset"; "tok"; "-5"] history_file
       = Saved (pre ++ post
                ++ [("tok_5000_xyz",
                     initializePosition scenario_env "tok" (parseFloat "-5"))])%list.
Proof.
  apply (reset_starts_over scenario_env "reset" "tok" "-5" [] history_file);
    reflexivity.
Defined.

Lemma record_update_does_not_store_the_value_witness :
  main scenario_env ["tok"; "250"; "3"] history_file
  = main scenario_env ["tok"; "9999"; "3"] history_file.
Proof.
  apply (record_update_does_not_store_the_value scenario_env "tok" "250" "9999"
           ["3"] history_file scenario_position); reflexivity.
Defined.

Lemma new_position_ignores_the_fees_witness :
  let new := initializePosition scenario_env "abc" (parseFloat "250") in
  main scenario_env ["ABC"; "250"; "12.30"] history_file
  = Saved (store_set (id new) new (loadPositions history_file))
  /\ main scenario_env ["ABC"; "250"; "12.30"] history_file
     = main scenario_env ["ABC"; "250"] history_file
  /\ fees_claimed_usd new = zero.
Proof.
  apply (new_position_ignores_the_fees scenario_env "ABC" "250" "12.30" []
           history_file); reflexivity.
Defined.

(** ** Commands and the PnL engine *)

Lemma plain_amounts_inv (p : Position) :
  plain_amounts p = true ->
  exists i f a w,
    initial_value_usd p = Fin i /\ fees_claimed_usd p = Fin f
    /\ (capital_additions_usd p = None /\ a = Q2Qc 0 \/ capital_additions_usd p = Some (Fin a))
    /\ (withdrawn_usd p = None /\ w = Q2Qc 0 \/ withdrawn_usd p = Some (Fin w)).
Proof.
  unfold plain_amounts, finite_amounts. rewrite !andb_true_iff, !negb_true_iff.
  intros [[[[[Hi Hf] Ha] Hw] Hna] Hnw].
  apply isFinite_Fin in Hi, Hf. destruct Hi as [i Hi], Hf as [f Hf].
  exists i, f.
  destruct (capital_additions_usd p) as [[a| | |]|];
    destruct (withdrawn_usd p) as [[w| | |]|]; try discriminate.
  - exists a, w. auto.
  - exists a, (Q2Qc 0). auto 10.
  - exists (Q2Qc 0), w. auto 10.
  - exists (Q2Qc 0), (Q2Qc 0). auto 10.
Qed.

Lemma orZero_Fin (q : Qc) : orZero (Some (Fin q)) = Fin q.
Proof.
  simpl. destruct (q_zero q) eqn:E; [|reflexivity].
  apply q_zero_eq in E. now subst q.
Qed.

Ltac pnl_cases p Hp :=
  let i := fresh "i" in let f := fresh "f" in
  let a := fresh "a" in let w := fresh "w" in
  let Hi := fresh "Hi" in let Hf := fresh "Hf" in
  let Ha := fresh "Ha" in let Hw := fresh "Hw" in
  apply plain_amounts_inv in Hp;
  destruct p as [pid ptok pinit pfees pcreated pupdated padd pwd ptotal pc pe pf pp pi pv];
  unfold initial_value_usd in Hp;
  cbn [initial_value_usd_field fees_claimed_usd capital_additions_usd
       withdrawn_usd] in Hp;
  destruct Hp as (i & f & a & w & Hi & Hf & Ha & Hw);
  destruct pinit as [?|]; [|discriminate Hi];
  destruct Ha as [[Ha ?]|Ha]; destruct Hw as [[Hw ?]|Hw]; subst;
  unfold eval, exec, calculatePnl, add_capital_statements, withdraw_statements,
    claim_fee_statements, record_statements, init_missing_fields,
    bind, read, ret, assign, when, initial_value_usd;
  cbn -[add sub neg orZero zero mul div gtb];
  change (orZero None) with zero;
  rewrite ?add_zero_r;
  change zero with (Fin (Q2Qc 0));
  cbn [add sub neg amount];
  rewrite ?orZero_Fin; cbn [add sub neg].

Lemma exact_pnl_current (c : number) (p : Position) :
  exact_pnl c p = true -> exists q, c = Fin q.
Proof.
  intros H. apply exact_pnl_inv in H.
  destruct H as (_ & _ & _ & _ & q & _ & _ & _ & _ & H). eauto.
Qed.

Ltac frame_cases p :=
  destruct p as [pid ptok pinit pfees pcreated pupdated padd pwd ptotal pc pe pf pp pi pv];
  unfold eval, exec, calculatePnl, add_capital_statements, withdraw_statements,
    claim_fee_statements, record_statements, init_missing_fields,
    bind, read, ret, assign, when, initial_value_usd;
  destruct padd, pwd; reflexivity.

(** X22. Adding capital leaves the realized PnL as it is, and is PnL
    neutral where no sum is rounded: for a position with finite amounts, an
    amount [x] and a current value such that every sum of [calculatePnl]
    before and after is a binary64 value, the position after [add-capital x]
    valued at [current + x] has the total and the unrealized PnL of the
    position before valued at [current], and a total invested that is
    larger by [x]. *)
Theorem add_capital_is_pnl_neutral
  (env : Env) (solPriceUSD currentValueUSD x : number) (p : Position) :
  let before := eval (calculatePnl solPriceUSD currentValueUSD) p in
  let after :=
    eval (calculatePnl solPriceUSD (add currentValueUSD x))
         (exec (add_capital_statements env x) p) in
  Pnl.realized_pnl_usd after = Pnl.realized_pnl_usd before
  /\ (plain_amounts p = true ->
      representable x = true ->
      exact_pnl currentValueUSD p = true ->
      exact_pnl (add currentValueUSD x) (exec (add_capital_statements env x) p)
      = true ->
      Pnl.total_pnl_usd after = Pnl.total_pnl_usd before
      /\ Pnl.unrealized_pnl_usd after = Pnl.unrealized_pnl_usd before
      /\ Pnl.total_invested_usd after = add (Pnl.total_invested_usd before) x).
Proof.
  cbv zeta. split; [frame_cases p|].
  intros Hp Hx Hc _. apply exact_pnl_current in Hc. apply representable_Fin in Hx.
  destruct Hc as [c ->], Hx as [y ->].
  pnl_cases p Hp; repeat split; f_equal; ring.
Qed.

Lemma add_capital_is_pnl_neutral_witness :
  let before := eval (calculatePnl (of_Z 185) (of_Z 400)) scenario_position in
  let after :=
    eval (calculatePnl (of_Z 185) (add (of_Z 400) (of_Z 60)))
         (exec (add_capital_statements scenario_env (of_Z 60)) scenario_position) in
  Pnl.total_pnl_usd after = Pnl.total_pnl_usd before
  /\ Pnl.total_invested_usd after = add (Pnl.total_invested_usd before) (of_Z 60).
Proof.
  intros before after.
  destruct (add_capital_is_pnl_neutral scenario_env (of_Z 185) (of_Z 400) (of_Z 60)
              scenario_position) as [_ H].
  destruct (H eq_refl eq_refl eq_refl eq_refl) as (H1 & _ & H4).
  split; [exact H1|exact H4].
Defined.

(** X23. Withdrawing leaves the total invested as it is, and is PnL
    neutral where no sum is rounded: for a position with finite amounts, an
    amount [x] and a current value such that every sum of [calculatePnl]
    before and after is a binary64 value, the position after [withdraw x]
    valued at [current - x] has the total PnL, unrealized PnL and PnL
    percentage of the position before valued at [current]; the realized PnL
    is larger by [x]. *)
Theorem withdraw_is_pnl_neutral
  (env : Env) (solPriceUSD currentValueUSD x : number) (p : Position) :
  let before := eval (calculatePnl solPriceUSD currentValueUSD) p in
  let after :=
    eval (calculatePnl solPriceUSD (sub currentValueUSD x))
         (exec (withdraw_statements env x) p) in
  Pnl.total_invested_usd after = Pnl.total_invested_usd before
  /\ (plain_amounts p = true ->
      representable x = true ->
      exact_pnl currentValueUSD p = true ->
      exact_pnl (sub currentValueUSD x) (exec (withdraw_statements env x) p)
      = true ->
      Pnl.total_pnl_usd after = Pnl.total_pnl_usd before
      /\ Pnl.unrealized_pnl_usd after = Pnl.unrealized_pnl_usd before
      /\ Pnl.pnl_percentage after = Pnl.pnl_percentage before
      /\ Pnl.realized_pnl_usd after = add (Pnl.realized_pnl_usd before) x).
Proof.
  cbv zeta. split; [frame_cases p|].
  intros Hp Hx Hc _. apply exact_pnl_current in Hc. apply representable_Fin in Hx.
  destruct Hc as [c ->], Hx as [y ->].
  pnl_cases p Hp; repeat split; try (f_equal; ring);
    match goal with
    | |- (if _ then mul (div (Fin ?n1) _) _ else _)
         = (if _ then mul (div (Fin ?n2) _) _ else _) =>
        replace n1 with n2 by ring; reflexivity
    end.
Qed.

Lemma withdraw_is_pnl_neutral_witness :
  let before := eval (calculatePnl (of_Z 185) (of_Z 400)) scenario_position in
  let after :=
    eval (calculatePnl (of_Z 185) (sub (of_Z 400) (of_Z 60)))
         (exec (withdraw_statements scenario_env (of_Z 60)) scenario_position) in
  Pnl.total_pnl_usd after = Pnl.total_pnl_usd before
  /\ Pnl.pnl_percentage after = Pnl.pnl_percentage before
  /\ Pnl.realized_pnl_usd after = add (Pnl.realized_pnl_usd before) (of_Z 60).
Proof.
  intros before after.
  destruct (withdraw_is_pnl_neutral scenario_env (of_Z 185) (of_Z 400) (of_Z 60)
              scenario_position) as [_ H].
  destruct (H eq_refl eq_refl eq_refl eq_refl) as (H1 & _ & H3 & H5).
  split; [exact H1|]. split; [exact H3|exact H5].
Defined.

(** X24. Fees go to the realized and to the total PnL: after the
    statements of [claim-fee x] or of the record command with fees [x], and
    for the same current value, the unrealized PnL and the total invested
    are the same, and where no sum is rounded (the position has finite
    amounts, and every sum of [calculatePnl] before and after is a binary64
    value) the realized and the total PnL are larger by [x]. *)
Theorem fees_raise_realized_and_total
  (env : Env) (solPriceUSD currentValueUSD x : number) (p : Position) :
  let before := eval (calculatePnl solPriceUSD currentValueUSD) p in
  Forall
    (fun statements =>
       let after :=
         eval (calculatePnl solPriceUSD currentValueUSD) (exec statements p) in
       Pnl.unrealized_pnl_usd after = Pnl.unrealized_pnl_usd before
       /\ Pnl.total_invested_usd after = Pnl.total_invested_usd before
       /\ (plain_amounts p = true ->
           representable x = true ->
           exact_pnl currentValueUSD p = true ->
           exact_pnl currentValueUSD (exec statements p) = true ->
           Pnl.total_pnl_usd after = add (Pnl.total_pnl_usd before) x
           /\ Pnl.realized_pnl_usd after = add (Pnl.realized_pnl_usd before) x))
    [claim_fee_statements env x; record_statements env x].
Proof.
  cbv zeta.
  apply Forall_cons; [|apply Forall_cons; [|apply Forall_nil]];
    (split; [frame_cases p|]); (split; [frame_cases p|]);
    intros Hp Hx Hc _; apply exact_pnl_current in Hc; apply representable_Fin in Hx;
    destruct Hc as [c ->], Hx as [y ->];
    pnl_cases p Hp; repeat split; try reflexivity; f_equal; ring.
Qed.

Lemma fees_raise_realized_and_total_witness :
  let before := eval (calculatePnl (of_Z 185) (of_Z 400)) scenario_position in
  let after :=
    eval (calculatePnl (of_Z 185) (of_Z 400))
         (exec (claim_fee_statements scenario_env (of_Z 7)) scenario_position) in
  Pnl.total_pnl_usd after = add (Pnl.total_pnl_usd before) (of_Z 7)
  /\ Pnl.unrealized_pnl_usd after = Pnl.unrealized_pnl_usd before.
Proof.
  intros before after.
  pose proof (fees_raise_realized_and_total scenario_env (of_Z 185) (of_Z 400)
                (of_Z 7) scenario_position) as H.
  cbv zeta in H. rewrite Forall_forall in H.
  destruct (H (claim_fee_statements scenario_env (of_Z 7)) (or_introl eq_refl))
    as (H3 & _ & H1).
  destruct (H1 eq_refl eq_refl eq_refl eq_refl) as [Ht _].
  split; [exact Ht|exact H3].
Defined.

Lemma orZero_amount_plain (o : option number) :
  holds_nan o = false -> orZero o = amount o.
Proof.
  intros H. apply orZero_amount. intros ->. discriminate.
Qed.

(** X25. What [close] stores is what [calculatePnl] returns for the closed
    record at its exit value: the stored final PnL, final percentage, total
    invested and exit value are the total PnL, PnL percentage, total
    invested and current value of that result, provided the capital
    additions are not [NaN]. *)
Theorem closed_record_reproduces_its_final_pnl
  (env : Env) (solPriceUSD exitValueUSD finalFeesUSD : number) (p : Position) :
  holds_nan (capital_additions_usd p) = false ->
  let closed := exec (close_statements env exitValueUSD finalFeesUSD) p in
  let r := eval (calculatePnl solPriceUSD exitValueUSD) closed in
  final_pnl_usd closed = Some (Pnl.total_pnl_usd r)
  /\ final_pnl_percentage closed = Some (Pnl.pnl_percentage r)
  /\ total_invested_usd closed = Some (Pnl.total_invested_usd r)
  /\ exit_value_usd closed = Some (Pnl.current_value_usd r).
Proof.
  intros Hnan. cbv zeta.
  destruct p as [pid ptok pinit pfees pcreated pupdated padd pwd ptotal pc pe pf pp pi pv].
  cbn [capital_additions_usd] in Hnan.
  unfold eval, exec, calculatePnl, close_statements, init_missing_fields,
    bind, read, ret, assign, when.
  destruct padd as [a|], pwd as [w|];
    cbn -[add sub neg orZero zero mul div gtb amount];
    rewrite ?(orZero_amount_plain (Some a) Hnan);
    change (orZero (Some zero)) with zero;
    change (amount (Some zero)) with zero;
    repeat split; reflexivity.
Qed.

Lemma closed_record_reproduces_its_final_pnl_witness :
  let closed :=
    exec (close_statements scenario_env (of_Z 500) (of_Z 10)) scenario_position in
  final_pnl_usd closed
  = Some (Pnl.total_pnl_usd (eval (calculatePnl (of_Z 185) (of_Z 500)) closed)).
Proof.
  intros closed.
  destruct (closed_record_reproduces_its_final_pnl scenario_env (of_Z 185)
              (of_Z 500) (of_Z 10) scenario_position eq_refl) as [H _].
  exact H.
Defined.

(** ** Coloured output *)

Lemma skip_params_length (s : string) :
  (String.length (skip_params s) <= String.length s)%nat.
Proof.
  induction s as [|c r IH]; simpl; [lia|].
  destruct (is_param c); simpl; lia.
Qed.

Lemma match_escape_shorter (s rest : string) :
  match_escape s = Some rest -> (String.length rest < String.length s)%nat.
Proof.
  unfold match_escape.
  destruct s as [|c [|b r]]; try discriminate.
  destruct b as [[] [] [] [] [] [] [] []]; try discriminate.
  destruct (Ascii.eqb c ESC); [|discriminate].
  pose proof (skip_params_length r) as H.
  destruct (skip_params r) as [|m rest'] eqn:E; [discriminate|].
  destruct m as [[] [] [] [] [] [] [] []]; try discriminate.
  intros [= <-]. simpl in *. lia.
Qed.

(** More fuel than the length changes nothing. *)
Lemma strip_from_enough (n m : nat) (s : string) :
  (String.length s <= n)%nat -> (String.length s <= m)%nat ->
  strip_from n s = strip_from m s.
Proof.
  revert m s. induction n as [|n IH]; intros m s Hn Hm.
  - destruct s; [|simpl in Hn; lia]. destruct m; reflexivity.
  - destruct m as [|m].
    + destruct s; [reflexivity|simpl in Hm; lia].
    + cbn [strip_from]. destruct (match_escape s) as [rest|] eqn:E.
      * apply match_escape_shorter in E. apply IH; lia.
      * destruct s as [|c r]; [reflexivity|]. simpl in Hn, Hm.
        f_equal. apply IH; lia.
Qed.

Lemma strip_ansi_escape (s rest : string) :
  match_escape s = Some rest -> strip_ansi s = strip_ansi rest.
Proof.
  intros E. unfold strip_ansi.
  pose proof (match_escape_shorter _ _ E) as H.
  destruct (String.length s) as [|n] eqn:El; [lia|].
  cbn [strip_from]. rewrite E. apply strip_from_enough; lia.
Qed.

Lemma strip_ansi_char (c : ascii) (s : string) :
  c <> ESC -> strip_ansi (String c s) = String c (strip_ansi s).
Proof.
  intros Hc. unfold strip_ansi. cbn [String.length strip_from].
  assert (E : match_escape (String c s) = None).
  { unfold match_escape. destruct s as [|b r]; [reflexivity|].
    apply Ascii.eqb_neq in Hc. rewrite Hc.
    destruct b as [[] [] [] [] [] [] [] []]; reflexivity. }
  now rewrite E.
Qed.

Lemma no_escape_cons c s : no_escape (String c s) <-> c <> ESC /\ no_escape s.
Proof.
  unfold no_escape. simpl. split.
  - intros H. split; [apply H; now left|]. intros c' Hin. apply H. now right.
  - intros [Hc Hs] c' [<-|Hin]; auto.
Qed.

Lemma no_escape_app s t : no_escape s -> no_escape t -> no_escape (s ++ t).
Proof.
  induction s as [|c s IH]; simpl; intros Hs Ht; [exact Ht|].
  apply no_escape_cons in Hs. apply no_escape_cons. split; [tauto|].
  apply IH; tauto.
Qed.

Lemma strip_ansi_plain (t s : string) :
  no_escape t -> strip_ansi (t ++ s) = t ++ strip_ansi s.
Proof.
  induction t as [|c t IH]; simpl; intros H; [reflexivity|].
  apply no_escape_cons in H. destruct H as [Hc Ht].
  now rewrite (strip_ansi_char _ _ Hc), IH.
Qed.

Lemma string_app_nil_r (s : string) : s ++ "" = s.
Proof. induction s as [|c s IH]; simpl; [reflexivity|now rewrite IH]. Qed.

(** Colouring a text without escape characters and stripping the codes
    gives the text back. *)
Lemma strip_colorText (text color : string) (bold : bool) :
  In color [COLORS.GRAY; COLORS.BRIGHT_RED; COLORS.BRIGHT_GREEN; COLORS.BRIGHT_YELLOW] ->
  no_escape text ->
  strip_ansi (colorText text color bold) = text.
Proof.
  intros Hcolor Htext. unfold colorText.
  assert (Hreset : strip_ansi (text ++ COLORS.RESET) = text).
  { rewrite (strip_ansi_plain _ _ Htext).
    change (strip_ansi COLORS.RESET) with "". now rewrite string_app_nil_r. }
  simpl in Hcolor.
  destruct Hcolor as [<-|[<-|[<-|[<-|[]]]]]; destruct bold;
    repeat (erewrite strip_ansi_escape; [|reflexivity]); exact Hreset.
Qed.

Lemma no_escape_nil : no_escape "".
Proof. intros c []. Qed.

Lemma no_escape_uint (d : Decimal.uint) : no_escape (NilEmpty.string_of_uint d).
Proof.
  induction d; simpl; try apply no_escape_nil;
    (apply no_escape_cons; split; [discriminate|assumption]).
Qed.

Lemma no_escape_uint_zero (d : Decimal.uint) : no_escape (NilZero.string_of_uint d).
Proof.
  unfold NilZero.string_of_uint. destruct d; try apply no_escape_uint.
  apply no_escape_cons. split; [discriminate|apply no_escape_nil].
Qed.

Lemma no_escape_zeros (n : nat) : no_escape (zeros n).
Proof.
  induction n as [|n IH]; simpl; [apply no_escape_nil|].
  apply no_escape_cons. split; [discriminate|exact IH].
Qed.

Lemma no_escape_substring (s : string) (n m : nat) :
  no_escape s -> no_escape (substring n m s).
Proof.
  revert n m. induction s as [|c s IH]; intros n m H.
  - destruct n, m; apply no_escape_nil.
  - apply no_escape_cons in H. destruct H as [Hc Hs].
    destruct n as [|n]; simpl.
    + destruct m as [|m]; [apply no_escape_nil|].
      apply no_escape_cons. split; [exact Hc|now apply IH].
    + now apply IH.
Qed.

Lemma no_escape_digits (w : nat) (n : Z) : no_escape (digits w n).
Proof.
  unfold digits. apply no_escape_app;
    [apply no_escape_zeros|apply no_escape_uint_zero].
Qed.

Lemma no_escape_literal (s : string) :
  forallb (fun c => negb (Ascii.eqb c ESC)) (list_ascii_of_string s) = true ->
  no_escape s.
Proof.
  intros H c Hin. rewrite forallb_forall in H. specialize (H c Hin).
  apply negb_true_iff in H. now apply Ascii.eqb_neq.
Qed.

Lemma no_escape_toFixed (d : nat) (x : number) : no_escape (toFixed d x).
Proof.
  destruct x as [q| | |]; try (apply no_escape_literal; reflexivity).
  unfold toFixed. cbv zeta.
  apply no_escape_app.
  - destruct (q_neg q); apply no_escape_literal; reflexivity.
  - apply no_escape_app.
    + apply no_escape_substring, no_escape_digits.
    + destruct d; [apply no_escape_nil|].
      apply no_escape_app; [apply no_escape_literal; reflexivity|].
      apply no_escape_substring, no_escape_digits.
Qed.

(** X26. [displaySummarySection] prints the expected value by taking the
    colour codes out of [formatUSDValue] and colouring the text again: the
    text left is the sign, the dollar sign and the amount with two decimals,
    and the result is [formatUSDValue] itself for every value above or below
    0; for 0 and [NaN] it is the same grey text, now in bold. *)
Theorem expected_value_keeps_its_text (expectedValueUSD : number) :
  strip_ansi (formatUSDValue expectedValueUSD)
  = (if gtb expectedValueUSD zero then "+$" ++ toFixed 2 expectedValueUSD
     else if ltb expectedValueUSD zero then "-$" ++ toFixed 2 (abs expectedValueUSD)
     else "$" ++ toFixed 2 expectedValueUSD)
  /\ expected_value_text expectedValueUSD
     = (if gtb expectedValueUSD zero || ltb expectedValueUSD zero
        then formatUSDValue expectedValueUSD
        else colorText ("$" ++ toFixed 2 expectedValueUSD) COLORS.GRAY true).
Proof.
  assert (Hplain : forall sign x, no_escape sign -> no_escape (sign ++ toFixed 2 x)).
  { intros sign x Hs. apply no_escape_app; [exact Hs|apply no_escape_toFixed]. }
  unfold expected_value_text, evColor, formatUSDValue.
  destruct (gtb expectedValueUSD zero); [|destruct (ltb expectedValueUSD zero)];
    cbn [orb]; rewrite strip_colorText;
    try (split; reflexivity);
    try (simpl; tauto);
    apply Hplain; apply no_escape_literal; reflexivity.
Qed.

(** ** Listings *)

Lemma group_of_push key tok pos (groups : Groups) :
  group_of key (push_to_group tok pos groups)
  = if String.eqb tok key
    then Some (match group_of tok groups with
               | Some l => (l ++ [pos])%list
               | None => [pos]
               end)
    else group_of key groups.
Proof.
  unfold group_of. induction groups as [|[k l] groups IH]; simpl.
  - rewrite (String.eqb_sym tok key). destruct (String.eqb key tok); reflexivity.
  - destruct (String.eqb k tok) eqn:Ek; simpl.
    + apply String.eqb_eq in Ek. subst k.
      destruct (String.eqb tok key) eqn:Et; simpl; reflexivity.
    + destruct (String.eqb k key) eqn:Ekk; simpl.
      * apply String.eqb_eq in Ekk. subst k.
        rewrite (String.eqb_sym tok key), Ek. reflexivity.
      * exact IH.
Qed.

Lemma groups_by_token (l : list Position) (key : string) :
  group_of key
    (fold_left (fun groups pos => push_to_group (toLowerCase (token pos)) pos groups)
       l [])
  = nonempty (filter (fun pos => String.eqb (toLowerCase (token pos)) key) l).
Proof.
  induction l as [|pos l IH] using rev_ind; [reflexivity|].
  rewrite fold_left_app, filter_app. cbn [fold_left filter].
  rewrite group_of_push.
  destruct (String.eqb (toLowerCase (token pos)) key) eqn:E.
  - apply String.eqb_eq in E. rewrite E, IH.
    destruct (filter _ l); reflexivity.
  - now rewrite app_nil_r.
Qed.

Lemma filter_twice {A} (f g : A -> bool) (l : list A) :
  filter f (filter g l) = filter (fun x => f x && g x) l.
Proof.
  induction l as [|x l IH]; simpl; [reflexivity|].
  destruct (g x); simpl; rewrite ?andb_true_r, ?andb_false_r;
    [destruct (f x)|]; now rewrite IH.
Qed.

Lemma filter_split_length {A} (f : A -> bool) (l : list A) :
  (List.length (filter (fun x => negb (f x)) l) + List.length (filter f l)
   = List.length l)%nat.
Proof.
  induction l as [|x l IH]; simpl; [reflexivity|].
  destruct (f x); simpl; lia.
Qed.

Lemma group_step_thrown (l : list Position) : fold_left group_step l None = None.
Proof. induction l as [|pos l IH]; [reflexivity|exact IH]. Qed.

Lemma group_steps (l : list Position) (groups : Groups) :
  fold_left group_step l (Some groups)
  = if existsb (fun pos => inherited (toLowerCase (token pos))) l then None
    else Some (fold_left
                 (fun groups pos => push_to_group (toLowerCase (token pos)) pos groups)
                 l groups).
Proof.
  revert groups. induction l as [|pos l IH]; intros groups; [reflexivity|].
  cbn [fold_left existsb group_step].
  destruct (inherited (toLowerCase (token pos))); cbn [orb].
  - apply group_step_thrown.
  - apply IH.
Qed.

(** X27. When a closed position has the token [constructor] or
    [__proto__], in any letter case, the grouping loop of [closed] throws.
    Otherwise the group that it builds for a token is, before it is sorted,
    the list that [findClosedPositions] returns for that token, in any
    letter case, and there is no group when that list is empty.  The
    positions that [list] prints and those that [closed] groups are together
    as many as the store holds. *)
Theorem closed_groups_are_the_closed_positions
  (positions : Positions) (tok : string) :
  (if inherited_token positions
   then closedByToken positions = None
   else exists groups,
          closedByToken positions = Some groups
          /\ group_of (toLowerCase tok) groups
             = nonempty (findClosedPositions positions tok))
  /\ (List.length (activePositions positions)
      + List.length (closedPositions positions)
      = List.length positions)%nat.
Proof.
  split.
  - unfold closedByToken, inherited_token. rewrite group_steps.
    destruct (existsb _ (closedPositions positions)); [reflexivity|].
    eexists. split; [reflexivity|].
    rewrite groups_by_token.
    unfold closedPositions, findClosedPositions. rewrite filter_twice.
    reflexivity.
  - unfold activePositions, closedPositions, values.
    rewrite filter_split_length. apply length_map.
Qed.
(** ** A new position on display *)

(** X28. What the record command shows for the position it has just
    created from a finite value: unrealized, realized and total PnL and the
    percentage are 0, and the suggestion is HOLD with LOW confidence by the
    break-even rule. *)
Theorem new_position_shows_no_pnl
  (env : Env) (tok : string) (currentValueUSD : number) :
  isFinite currentValueUSD = true ->
  let position := initializePosition env tok currentValueUSD in
  let shown := displayPositionInfo env position currentValueUSD in
  Pnl.unrealized_pnl_usd (fst shown) = zero
  /\ Pnl.realized_pnl_usd (fst shown) = zero
  /\ Pnl.total_pnl_usd (fst shown) = zero
  /\ Pnl.pnl_percentage (fst shown) = zero
  /\ snd shown = mkSuggestion HOLD breakeven_reason LOW.
Proof.
  intros Hv. apply isFinite_Fin in Hv. destruct Hv as [v ->]. cbv zeta.
  assert (Hu : sub (Fin v) (sub (add (Fin v) zero) zero) = zero).
  { unfold zero, of_Z. cbn [sub add neg]. f_equal.
    change (Q2Qc (inject_Z 0)) with (Q2Qc 0). ring. }
  assert (Ht : sub (add (add (Fin v) zero) zero) (add (Fin v) zero) = zero).
  { unfold zero, of_Z. cbn [sub add neg]. f_equal.
    change (Q2Qc (inject_Z 0)) with (Q2Qc 0). ring. }
  assert (Hr : add zero zero = zero) by (apply add_zero_r).
  assert (Hp : (if gtb (add (Fin v) zero) zero
                then mul (div zero (add (Fin v) zero)) (of_Z 100) else zero) = zero).
  { rewrite add_zero_r. destruct (gtb (Fin v) zero) eqn:E; [|reflexivity].
    unfold gtb, zero, of_Z in E. cbn [ltb] in E.
    pose proof (q_ltb_zero_nonzero _ E) as Hz.
    unfold zero, of_Z. cbn [div]. rewrite Hz. cbn [mul].
    apply (f_equal Fin). change (Q2Qc (inject_Z 0)) with (Q2Qc 0).
    unfold Qcdiv. ring. }
  assert (Hpnl :
    Pnl.unrealized_pnl_usd
      (fst (displayPositionInfo env (initializePosition env tok (Fin v)) (Fin v))) = zero
    /\ Pnl.realized_pnl_usd
         (fst (displayPositionInfo env (initializePosition env tok (Fin v)) (Fin v))) = zero
    /\ Pnl.total_pnl_usd
         (fst (displayPositionInfo env (initializePosition env tok (Fin v)) (Fin v))) = zero
    /\ Pnl.pnl_percentage
         (fst (displayPositionInfo env (initializePosition env tok (Fin v)) (Fin v))) = zero).
  { unfold displayPositionInfo, initializePosition, eval, calculatePnl, bind, read, ret,
      initial_value_usd.
    cbn [fst snd capital_additions_usd withdrawn_usd initial_value_usd_field fees_claimed_usd
         Pnl.unrealized_pnl_usd Pnl.realized_pnl_usd Pnl.total_pnl_usd Pnl.pnl_percentage].
    change (orZero (Some zero)) with zero.
    rewrite Hu, Ht, Hr. repeat split. exact Hp. }
  destruct Hpnl as (H1 & H2 & H3 & H4).
  repeat split; try assumption.
  unfold displayPositionInfo in *. cbn [fst snd] in *.
  unfold generateSuggestion. rewrite H1, H2, H4. reflexivity.
Qed.

Lemma new_position_shows_no_pnl_witness :
  snd (displayPositionInfo scenario_env
         (initializePosition scenario_env "tok" (of_Z 250)) (of_Z 250))
  = mkSuggestion HOLD breakeven_reason LOW.
Proof.
  apply (new_position_shows_no_pnl scenario_env "tok" (of_Z 250) eq_refl).
Defined.

(** ** Letter case *)

(** X29. The letter case of the first argument does not matter, and
    neither does that of the token that follows a command: two command
    lines that differ only in these give the same outcome on the same file. *)
Theorem letter_case_does_not_matter
  (env : Env) (file : PositionFile) (a0 b0 : string) (rest : list string) :
  toLowerCase a0 = toLowerCase b0 ->
  main env (a0 :: rest) file = main env (b0 :: rest) file
  /\ (is_token a0 = false ->
      forall a1 b1 more,
        rest = a1 :: more ->
        toLowerCase a1 = toLowerCase b1 ->
        main env (a0 :: a1 :: more) file = main env (a0 :: b1 :: more) file).
Proof.
  intros H. split.
  - unfold main. rewrite H.
    repeat match goal with
           | |- context [if ?c then _ else _] => destruct c; [reflexivity|]
           end.
    reflexivity.
  - intros Hcmd a1 b1 more -> H1.
    unfold is_token, command_names in Hcmd. cbn [forallb] in Hcmd.
    unfold main. cbv zeta.
    destruct (String.eqb (toLowerCase a0) "list"); [reflexivity|].
    destruct (String.eqb (toLowerCase a0) "closed"); [reflexivity|].
    destruct (String.eqb (toLowerCase a0) "summary"); [reflexivity|].
    destruct (String.eqb (toLowerCase a0) "clean"); [reflexivity|].
    destruct (String.eqb (toLowerCase a0) "remove");
      [unfold cmd_remove; now rewrite H1|].
    destruct (String.eqb (toLowerCase a0) "reset");
      [unfold cmd_reset; now rewrite H1|].
    destruct (String.eqb (toLowerCase a0) "claim-fee");
      [unfold cmd_claim_fee; now rewrite H1|].
    destruct (String.eqb (toLowerCase a0) "add-capital");
      [unfold cmd_add_capital; now rewrite H1|].
    destruct (String.eqb (toLowerCase a0) "withdraw");
      [unfold cmd_withdraw; now rewrite H1|].
    destruct (String.eqb (toLowerCase a0) "close");
      [unfold cmd_close; now rewrite H1|].
    discriminate.
Qed.

Lemma letter_case_does_not_matter_witness :
  main scenario_env ["Close"; "tok"; "500"] history_file
  = main scenario_env ["close"; "tok"; "500"] history_file
  /\ main scenario_env ["Close"; "tok"; "500"] history_file
     = main scenario_env ["Close"; "TOK"; "500"] history_file.
Proof.
  destruct (letter_case_does_not_matter scenario_env history_file "Close" "close"
              ["tok"; "500"] eq_refl) as [H1 H2].
  split; [exact H1|].
  apply (H2 eq_refl "tok" "TOK" ["500"] eq_refl eq_refl).
Defined.

(** ** The price that the PnL engine divides by *)

(** X30. With the price that [getSOLPriceUSD] returns from caches that hold
    positive prices, the zero-price guard of [calculatePnl] is never taken:
    every SOL field of the result is the USD field divided by that price. *)
Theorem sol_fields_are_conversions
  (now : Z) (response : FetchResult) (st : PriceState)
  (currentValueUSD : number) (p : Position) :
  caches_hold_positive st = true ->
  let solPriceUSD := fst (getSOLPriceUSD now response st) in
  let r := eval (calculatePnl solPriceUSD currentValueUSD) p in
  sol_fields r
  = map (fun usd => div usd solPriceUSD)
      [Pnl.unrealized_pnl_usd r; Pnl.realized_pnl_usd r; Pnl.total_pnl_usd r;
       Pnl.initial_value_usd r; Pnl.current_value_usd r; Pnl.total_invested_usd r].
Proof.
  intros H. cbv zeta.
  assert (Hpos : gtb (fst (getSOLPriceUSD now response st)) zero = true).
  { unfold getSOLPriceUSD. unfold caches_hold_positive in H.
    destruct st as [[m|] [f|]]; cbn [solPriceCache priceCacheFile] in *;
      apply andb_true_iff in H; destruct H as [Hm Hf];
      try (destruct (cache_is_fresh now m); [exact Hm|]);
      try (destruct (cache_is_fresh now f); [exact Hf|]);
      apply fetch_price_positive; unfold caches_hold_positive;
      cbn [solPriceCache priceCacheFile]; now rewrite ?Hm, ?Hf. }
  unfold sol_fields, eval, calculatePnl, bind, read, ret.
  cbn [fst map Pnl.unrealized_pnl_sol Pnl.realized_pnl_sol Pnl.total_pnl_sol
       Pnl.initial_value_sol Pnl.current_value_sol Pnl.total_invested_sol
       Pnl.unrealized_pnl_usd Pnl.realized_pnl_usd Pnl.total_pnl_usd
       Pnl.initial_value_usd Pnl.current_value_usd Pnl.total_invested_usd].
  rewrite Hpos. reflexivity.
Qed.

Lemma sol_fields_are_conversions_witness :
  let solPriceUSD := fst (getSOLPriceUSD 9000000 FetchNotOk sample_price_state) in
  let r := eval (calculatePnl solPriceUSD (of_Z 400)) scenario_position in
  solPriceUSD = of_Z 185
  /\ Pnl.total_pnl_sol r = div (Pnl.total_pnl_usd r) (of_Z 185).
Proof.
  intros solPriceUSD r.
  pose proof (sol_fields_are_conversions 9000000 FetchNotOk sample_price_state
                (of_Z 400) scenario_position eq_refl) as H.
  cbv zeta in H. split; [reflexivity|].
  apply (f_equal (fun fields => nth 2 fields zero)) in H. exact H.
Defined.

